(** * Dumroo-ppt-models: deck normalisation and flow-diagram layout

    A shallow embedding of the two pure cores of the generator:

    - [app/diagram/svg_flow.py]: [_wrap_words], [_iter_edges] and
      [render_flow_svg] (grid layout, edge anchors, SVG element list);
    - [app/planner.py] and [app/ai/prompt.py]:
      [normalize_presentation_spec] and [mock_presentation], over the
      pydantic models of [app/models.py].

    Python [str] values are lists of Unicode code points, Python [int]
    values are [Z], exceptions are the [Raise] results of an error monad,
    and the [pos] dictionary of the renderer is a [gmap]. *)

From Stdlib Require Import ZArith QArith Qminmax Bool Lia String Ascii DecimalString.
From Stdlib Require HexadecimalString.
From stdpp Require Import base option list gmap.

Local Open Scope Z_scope.
Local Open Scope list_scope.

(** ** Python strings *)

Module PyStr.

(** A [str] is a sequence of code points. *)
Abbreviation char := N (only parsing).
Abbreviation str := (list N) (only parsing).

(** ASCII literals of the source, written as Rocq strings. *)
Definition py (s : string) : str :=
  List.map N_of_ascii (list_ascii_of_string s).

(** Code points that the source names in literals. *)
Definition NL : char := 10%N.
Definition HYPHEN : char := 45%N.
Definition DOT : char := 46%N.
(** U+2022, the bullet character of [planner.py]. *)
Definition BULLET : char := 8226%N.

(** [len] of a string or of a list. *)
Definition len {A : Type} (s : list A) : Z := Z.of_nat (length s).

(** [str.isspace] on one code point: the Unicode white-space set that
    [str.split()] and [str.strip()] use. *)
Definition isspace (c : char) : bool :=
  ((9 <=? c) && (c <=? 13) || (28 <=? c) && (c <=? 32)
   || (c =? 133) || (c =? 160) || (c =? 5760)
   || (8192 <=? c) && (c <=? 8202)
   || (c =? 8232) || (c =? 8233) || (c =? 8239) || (c =? 8287)
   || (c =? 12288))%N.

Fixpoint lstrip (s : str) : str :=
  match s with
  | [] => []
  | c :: s' => if isspace c then lstrip s' else s
  end.

Definition rstrip (s : str) : str := rev (lstrip (rev s)).

(** [s.strip()] *)
Definition strip (s : str) : str := rstrip (lstrip s).

(** [sep.join(l)] *)
Fixpoint join (sep : str) (l : list str) : str :=
  match l with
  | [] => []
  | x :: l' =>
      match l' with
      | [] => x
      | _ :: _ => x ++ sep ++ join sep l'
      end
  end.

(** [s.split(c)] for a one-character separator: the fields between the
    separators, empty fields included, never the empty list. *)
Fixpoint split_on (c : char) (s : str) : list str :=
  match s with
  | [] => [[]]
  | x :: s' =>
      if (x =? c)%N then [] :: split_on c s'
      else match split_on c s' with
           | [] => [[x]]
           | f :: fs => (x :: f) :: fs
           end
  end.

Definition cons_word (w : str) (ws : list str) : list str :=
  match w with
  | [] => ws
  | _ :: _ => w :: ws
  end.

(** The word that starts at the head of [s] (empty when [s] starts with
    white space) and the words after it. *)
Fixpoint words_from (s : str) : str * list str :=
  match s with
  | [] => ([], [])
  | c :: s' =>
      let '(w, ws) := words_from s' in
      if isspace c then ([], cons_word w ws) else (c :: w, ws)
  end.

(** [s.split()]: the maximal runs of non-white-space characters. *)
Definition split_ws (s : str) : list str :=
  let '(w, ws) := words_from s in cons_word w ws.

(** [s.startswith(p)] *)
Fixpoint startswith (p s : str) : bool :=
  match p, s with
  | [], _ => true
  | _ :: _, [] => false
  | a :: p', b :: s' => (a =? b)%N && startswith p' s'
  end.

(** [s.replace(old, new)] for a non-empty [old]: left to right, without
    overlap. [skip] counts the characters of a match still to be
    consumed. *)
Fixpoint replace_from (old new : str) (skip : nat) (s : str) : str :=
  match s with
  | [] => []
  | c :: s' =>
      match skip with
      | S k => replace_from old new k s'
      | O =>
          if startswith old s
          then new ++ replace_from old new (length old - 1) s'
          else c :: replace_from old new 0 s'
      end
  end.

Definition replace (old new s : str) : str := replace_from old new 0 s.

(** [c in s] for a one-character needle. *)
Definition contains (c : char) (s : str) : bool :=
  existsb (fun x => (x =? c)%N) s.

(** [str(n)] for a non-negative [int]. *)
Definition str_of_nat (n : nat) : str :=
  py (NilEmpty.string_of_uint (Nat.to_uint n)).

Definition nonempty (s : str) : bool :=
  match s with [] => false | _ :: _ => true end.

End PyStr.
Import PyStr.

(** ** Results of fallible code *)

Inductive exn : Type :=
| ValidationError
| IndexError
| ZeroDivisionError
| OverflowError
| ValueError.

Inductive result (A : Type) : Type :=
| Ok (a : A)
| Raise (e : exn).
Arguments Ok {A} a.
Arguments Raise {A} e.

Definition bind {A B : Type} (r : result A) (k : A -> result B) : result B :=
  match r with
  | Ok a => k a
  | Raise e => Raise e
  end.

Notation "'let!' x ':=' r 'in' k" := (bind r (fun x => k))
  (at level 10, x name, r at level 200, k at level 200).

(** ** [svg_flow.py]: word wrap *)

Module SvgFlow.

(** Truth value of a Python list: non-empty. *)
Definition truthy {A : Type} (l : list A) : bool :=
  match l with [] => false | _ :: _ => true end.

(** One iteration of the loop of [_wrap_words] on the state
    [(lines, cur)]. *)
Definition wrap_step (max_chars : Z) (st : list str * list str) (w : str)
  : list str * list str :=
  let '(lines, cur) := st in
  let trial := strip (join (py " ") (cur ++ [w])) in
  if truthy cur && (max_chars <? len trial)
  then (lines ++ [join (py " ") cur], [w])
  else (lines, cur ++ [w]).

(** The statements after the loop: flush [cur]. *)
Definition wrap_flush (st : list str * list str) : list str :=
  let '(lines, cur) := st in
  if truthy cur then lines ++ [join (py " ") cur] else lines.

Definition _wrap_words (text : str) (max_chars : Z) : list str :=
  let words := List.filter nonempty (split_ws text) in
  if truthy words
  then take 3 (wrap_flush (fold_left (wrap_step max_chars) words ([], [])))
  else [[]].

(** *** [_iter_edges]

    An element of the [edges] iterable: a tuple, a list, or any other
    value. Only two-element tuples and lists survive. *)
Inductive raw_edge : Type :=
| EdgeTuple (items : list str)
| EdgeList (items : list str)
| EdgeOther.

Definition _iter_edges (edges : list raw_edge) : list (str * str) :=
  flat_map
    (fun e =>
       match e with
       | EdgeTuple [a; b] => [(a, b)]
       | EdgeList [a; b] => [(a, b)]
       | _ => []
       end)
    edges.

(** *** [render_flow_svg] *)

Definition rgb : Type := Z * Z * Z.

Record SvgFlowStyle : Type := {
  background_rgb : rgb;
  node_fill_rgb : rgb;
  node_line_rgb : rgb;
  text_rgb : rgb;
  font_family : str
}.

Definition default_style : SvgFlowStyle := {|
  background_rgb := (255, 255, 255);
  node_fill_rgb := (234, 242, 255);
  node_line_rgb := (79, 129, 189);
  text_rgb := (31, 55, 94);
  font_family := py "Calibri"
|}.

(** The strings appended to the list [svg], one constructor per
    f-string of the source, carrying the values that the f-string
    interpolates. The returned document is their newline join. *)
Inductive svg_elem : Type :=
| SvgOpen (width height : Z) (viewBox : Z * Z * Z * Z)
| Background (width height : Z) (fill : rgb)
| ArrowDefs (fill : rgb)
| Line (x1 y1 x2 y2 : Z) (stroke : rgb)
| NodeRect (x y width height rx : Z) (fill stroke : rgb)
| TextOpen (x y : Z) (fill : rgb) (family : str) (font_size : Z)
| Tspan (x dy : Z) (text : str)
| TextClose
| SvgClose.

Definition pad_x : Z := 100.
Definition pad_y : Z := 110.
Definition hgap : Z := 80.
Definition vgap : Z := 90.
Definition box_w : Z := 320.
Definition box_h : Z := 110.
Definition corner : Z := 18.

(** [a / 2] of the source is a true division; every use is on an even
    integer ([box_w], [box_h], [box_h - block_h]), so the quotient is
    the integer [a / 2]. *)
Definition half (a : Z) : Z := a / 2.

Definition max_per_row (node_count : Z) : Z :=
  if node_count <=? 4 then node_count
  else if node_count <=? 6 then 3
  else 4.

(** [math.ceil(a / b)] *)
Definition ceil_div (a b : Z) : result Z :=
  if b =? 0 then Raise ZeroDivisionError else Ok (- ((- a) / b)).

Definition grid_cols (node_count : Z) : Z :=
  Z.min (max_per_row node_count) (Z.max node_count 1).

Definition grid_rows (node_count : Z) : result Z :=
  let! q := ceil_div node_count (max_per_row node_count) in
  Ok (Z.max 1 q).

Definition needed_w (cols : Z) : Z := pad_x * 2 + cols * box_w + (cols - 1) * hgap.
Definition needed_h (rows : Z) : Z := pad_y * 2 + rows * box_h + (rows - 1) * vgap.

(** *** True division of two [int]s

    [a / b] on two [int]s is the double nearest to the exact quotient,
    ties going to the even significand; it raises [ZeroDivisionError]
    for [b = 0] and [OverflowError] when that double would not be
    finite. The largest finite double is [2^1024 - 2^971], so the
    quotients without a double are those of absolute value at least
    [2^1024 - 2^970]. A float is modelled by the rational it denotes,
    both zeros by 0. *)
Definition float_limit : Z := 2 ^ 1024 - 2 ^ 970.

(** The integer nearest to [n / d], the even one of two at the same
    distance, for [0 <= n] and [0 < d]. *)
Definition round_half_even (n d : Z) : Z :=
  let q := n / d in
  let r := n mod d in
  if 2 * r <? d then q
  else if d <? 2 * r then q + 1
  else if Z.even q then q else q + 1.

(** The [e] with [2^e <= n / d < 2^(e + 1)], for [0 < n] and [0 < d]. *)
Definition exponent (n d : Z) : Z :=
  let e := Z.log2 n - Z.log2 d in
  if (if 0 <=? e then d * 2 ^ e <=? n else d <=? n * 2 ^ (- e)) then e else e - 1.

(** The double nearest to [n / d], for [0 <= n] and [0 < d]: a multiple
    of [2^k], where [k] leaves 53 significant bits and is at least
    [-1074], the exponent of the smallest subnormal; as a fraction in
    lowest terms. *)
Definition nearest_double (n d : Z) : Q :=
  let k := Z.max (exponent n d) (-1022) - 52 in
  Qred (if 0 <=? k then inject_Z (round_half_even n (d * 2 ^ k) * 2 ^ k)
        else Qmake (round_half_even (n * 2 ^ (- k)) d) (Z.to_pos (2 ^ (- k)))).

Definition true_div (a b : Z) : result Q :=
  if b =? 0 then Raise ZeroDivisionError
  else if float_limit * Z.abs b <=? Z.abs a then Raise OverflowError
  else
    let q := nearest_double (Z.abs a) (Z.abs b) in
    Ok (if Z.sgn a * Z.sgn b <? 0 then (- q)%Q else q).

(** [scale = min(width_px / needed_w, height_px / needed_h)] then
    [scale = min(scale, 1.0)]. *)
Definition fit_scale (width_px height_px nw nh : Z) : result Q :=
  let! sw := true_div width_px nw in
  let! sh := true_div height_px nh in
  Ok (Qmin (Qmin sw sh) 1).

Fixpoint enumerate_from {A : Type} (i : nat) (l : list A) : list (nat * A) :=
  match l with
  | [] => []
  | x :: l' => (i, x) :: enumerate_from (S i) l'
  end.

Definition enumerate {A : Type} (l : list A) : list (nat * A) := enumerate_from 0 l.

(** Top-left corner of the box of the [i]-th node. *)
Definition cell (mpr : Z) (i : nat) : Z * Z :=
  let r := Z.of_nat i / mpr in
  let c := Z.of_nat i mod mpr in
  (pad_x + c * (box_w + hgap), pad_y + r * (box_h + vgap)).

(** [pos[name] = (x, y)] for the [i]-th node. *)
Definition place (mpr : Z) (pos : gmap (list N) (Z * Z)) (p : nat * str)
  : gmap (list N) (Z * Z) :=
  let '(i, name) := p in <[name := cell mpr i]> pos.

(** The dictionary [pos]: a later node with the same label overwrites
    an earlier one. *)
Definition node_positions (mpr : Z) (nodes : list str) : gmap (list N) (Z * Z) :=
  fold_left (place mpr) (enumerate nodes) ∅.

(** [nodes.index(x)], [None] when [x] is not in [nodes]. *)
Fixpoint index_of (x : str) (nodes : list str) : option nat :=
  match nodes with
  | [] => None
  | y :: nodes' => if decide (y = x) then Some O else S <$> index_of x nodes'
  end.

(** Body of the loop over the edges; [None] is [continue]. *)
Definition edge_line (nodes : list str) (pos : gmap (list N) (Z * Z)) (stroke : rgb)
    (e : str * str) : option svg_elem :=
  let '(src, dst) := e in
  match pos !! src, pos !! dst with
  | Some (ax, ay), Some (bx, by') =>
      let src_idx := default O (index_of src nodes) in
      let dst_idx := default O (index_of dst nodes) in
      if (src_idx <? dst_idx)%nat then
        Some (Line (ax + box_w) (ay + half box_h) bx (by' + half box_h) stroke)
      else if (dst_idx <? src_idx)%nat then
        Some (Line ax (ay + half box_h) (bx + box_w) (by' + half box_h) stroke)
      else
        Some (Line (ax + half box_w) (ay + box_h) (bx + half box_w) by' stroke)
  | _, _ => None
  end.

Definition xml_escape (ln : str) : str :=
  replace (py ">") (py "&gt;") (replace (py "<") (py "&lt;") (replace (py "&") (py "&amp;") ln)).

Definition font_size : Z := 34.
Definition line_h : Z := 40.

(** The strings appended for one node whose box is at [(x, y)]. *)
Definition node_elems (style : SvgFlowStyle) (name : str) (xy : Z * Z) : list svg_elem :=
  let '(x, y) := xy in
  let lines := _wrap_words name 18 in
  let block_h := len lines * line_h in
  let start_y := y + half (box_h - block_h) + font_size in
  [NodeRect x y box_w box_h corner (node_fill_rgb style) (node_line_rgb style);
   TextOpen (x + half box_w) start_y (text_rgb style) (font_family style) font_size]
  ++ List.map (fun '(i, ln) =>
                 Tspan (x + half box_w) (if (i =? 0)%nat then 0 else line_h) (xml_escape ln))
       (enumerate lines)
  ++ [TextClose].

(** The loop over the nodes; [pos[name]] cannot miss, since every name
    of [nodes] was inserted, and is modelled with its lookup. *)
Definition nodes_elems (style : SvgFlowStyle) (pos : gmap (list N) (Z * Z)) (nodes : list str)
  : list svg_elem :=
  flat_map (fun name =>
              match pos !! name with
              | Some xy => node_elems style name xy
              | None => []
              end) nodes.

(** The returned value is the list [svg], whose newline join is the
    document. [scale] is computed after [rows], which can raise, and is
    read only by the final [if], whose branch is [pass]. *)
Definition render_flow_svg (nodes : list str) (edges : list raw_edge)
    (style : option SvgFlowStyle) (width_px height_px : Z) : result (list svg_elem) :=
  let style := default default_style style in
  let node_count := len nodes in
  let mpr := max_per_row node_count in
  let cols := grid_cols node_count in
  let! rows := grid_rows node_count in
  let! scale := fit_scale width_px height_px (needed_w cols) (needed_h rows) in
  let view_w := needed_w cols in
  let view_h := needed_h rows in
  let pos := node_positions mpr nodes in
  let svg :=
    [SvgOpen width_px height_px (0, 0, view_w, view_h);
     Background view_w view_h (background_rgb style);
     ArrowDefs (node_line_rgb style)]
    ++ omap (edge_line nodes pos (node_line_rgb style)) (_iter_edges edges)
    ++ nodes_elems style pos nodes
    ++ [SvgClose] in
  if Qlt_le_dec scale 1 then Ok svg else Ok svg.

End SvgFlow.

(** ** [models.py], [prompt.py], [planner.py] *)

Module Planner.
Import SvgFlow.

Inductive SlideType : Type := intro | process | flow | summary.

#[global] Instance SlideType_eq_dec : EqDecision SlideType.
Proof. solve_decision. Defined.

Record DiagramSpec : Type := {
  nodes : list str;
  edges : list (str * str)
}.

Record SlideSpec : Type := {
  type : SlideType;
  title : str;
  content : str;
  keywords : list str;
  image_query : option str;
  image_alt : option str;
  image_subject : option str;
  image_setting : option str;
  image_style : option str;
  layout_preference : option str;
  emphasis : option str;
  diagram : option DiagramSpec
}.

(** [PresentationSpec]; its field [title] is [deck_title] here, the
    name [title] being taken by [SlideSpec]. *)
Record PresentationSpec : Type := {
  deck_title : str;
  slides : list SlideSpec
}.

(** [SlideSpec(type=.., title=.., content=.., keywords=..)]: the other
    fields take their defaults. *)
Definition mk_slide (ty : SlideType) (ti co : str) (kw : list str)
    (d : option DiagramSpec) : SlideSpec := {|
  type := ty; title := ti; content := co; keywords := kw;
  image_query := None; image_alt := None; image_subject := None;
  image_setting := None; image_style := None;
  layout_preference := None; emphasis := None;
  diagram := d
|}.

(** [s.model_copy(update={...})] for the updates of [planner.py]. *)
Definition with_type (ty : SlideType) (s : SlideSpec) : SlideSpec := {|
  type := ty; title := title s; content := content s; keywords := keywords s;
  image_query := image_query s; image_alt := image_alt s;
  image_subject := image_subject s; image_setting := image_setting s;
  image_style := image_style s;
  layout_preference := layout_preference s; emphasis := emphasis s;
  diagram := diagram s
|}.

Definition with_title (ti : str) (s : SlideSpec) : SlideSpec := {|
  type := type s; title := ti; content := content s; keywords := keywords s;
  image_query := image_query s; image_alt := image_alt s;
  image_subject := image_subject s; image_setting := image_setting s;
  image_style := image_style s;
  layout_preference := layout_preference s; emphasis := emphasis s;
  diagram := diagram s
|}.

Definition with_content (co : str) (s : SlideSpec) : SlideSpec := {|
  type := type s; title := title s; content := co; keywords := keywords s;
  image_query := image_query s; image_alt := image_alt s;
  image_subject := image_subject s; image_setting := image_setting s;
  image_style := image_style s;
  layout_preference := layout_preference s; emphasis := emphasis s;
  diagram := diagram s
|}.

Definition with_diagram (d : option DiagramSpec) (s : SlideSpec) : SlideSpec := {|
  type := type s; title := title s; content := content s; keywords := keywords s;
  image_query := image_query s; image_alt := image_alt s;
  image_subject := image_subject s; image_setting := image_setting s;
  image_style := image_style s;
  layout_preference := layout_preference s; emphasis := emphasis s;
  diagram := d
|}.

(** *** Validation

    [PresentationSpec.model_validate]: on values of these record types
    the constraints left to check are the two [Field(min_length=1)]. *)
Definition diagram_valid (d : DiagramSpec) : bool := truthy (nodes d).

Definition slide_valid (s : SlideSpec) : bool :=
  match diagram s with
  | None => true
  | Some d => diagram_valid d
  end.

Definition model_validate (p : PresentationSpec) : result PresentationSpec :=
  if truthy (slides p) && forallb slide_valid (slides p)
  then Ok p
  else Raise ValidationError.

(** *** List operations of the source *)

(** [l[:stop]] *)
Definition slice_to {A : Type} (stop : Z) (l : list A) : list A :=
  if stop <? 0 then take (Z.to_nat (Z.max 0 (len l + stop))) l
  else take (Z.to_nat stop) l.

(** [k] iterations of a loop body [l.append(mk(len(l)))]. *)
Fixpoint append_steps {A : Type} (k : nat) (mk : nat -> A) (l : list A) : list A :=
  match k with
  | O => l
  | S k' => append_steps k' mk (l ++ [mk (length l)])
  end.

(** [while len(l) < target: l.append(mk(len(l)))]: each iteration adds
    one element, so the loop runs [target - len(l)] times. *)
Definition while_shorter {A : Type} (target : Z) (mk : nat -> A) (l : list A) : list A :=
  append_steps (Z.to_nat (target - len l)) mk l.

(** *** [mock_presentation] *)

Definition mock_step (i : nat) : SlideSpec :=
  mk_slide process (py "Step " ++ str_of_nat i)
    (py "Explain one key step with a clear takeaway.")
    [py "step"; py "takeaway"] None.

(** The three slides that open the deck. *)
Definition mock_opening (topic : str) : list SlideSpec :=
  [mk_slide intro topic
     (py "An overview of " ++ topic ++ py " and why it matters.")
     [topic; py "overview"] None;
   mk_slide process (py "Core Components")
     (py "Identify inputs, steps, and outputs. Then connect them logically.")
     [py "inputs"; py "steps"; py "outputs"] None;
   mk_slide flow (py "End-to-End Flow")
     (py "A simple flow diagram showing how the process moves from start to finish.")
     [py "flow"; py "diagram"]
     (Some {| nodes := [py "Start"; py "Input"; py "Process"; py "Decision";
                        py "Output"; py "End"];
              edges := [(py "Start", py "Input"); (py "Input", py "Process");
                        (py "Process", py "Decision"); (py "Decision", py "Output");
                        (py "Output", py "End")] |})].

(** The slide appended after the loop. *)
Definition mock_closing : SlideSpec :=
  mk_slide summary (py "Summary") (py "Key takeaways and what to remember.")
    [py "summary"; py "recap"] None.

Definition mock_presentation (topic : str) (slide_count : Z) : PresentationSpec :=
  let slides := mock_opening topic in
  let slides := while_shorter (Z.max (slide_count - 1) 3) mock_step slides in
  let slides := slides ++ [mock_closing] in
  {| deck_title := topic; slides := slice_to slide_count slides |}.

(** *** [normalize_presentation_spec], statement by statement *)

Definition key_points : str :=
  py "- Key point" ++ [NL] ++ py "- Key point" ++ [NL]
  ++ py "- Key point" ++ [NL] ++ py "- Key point".

Definition pad_slide (topic : str) (i : nat) : SlideSpec :=
  mk_slide process (py "Step " ++ str_of_nat i) key_points
    [topic; py "steps"; py "process"; py "overview"] None.

(** Enforce the count by truncating or padding. *)
Definition enforce_count (topic : str) (slide_count : Z) (slides : list SlideSpec)
  : list SlideSpec :=
  let slides := if slide_count <? len slides then slice_to slide_count slides else slides in
  while_shorter slide_count (pad_slide topic) slides.

(** [if slides[0].type != "intro": slides[0] = ...] *)
Definition force_intro (slides : list SlideSpec) : result (list SlideSpec) :=
  match slides with
  | [] => Raise IndexError
  | s :: rest =>
      if decide (type s <> intro) then Ok (with_type intro s :: rest) else Ok slides
  end.

(** [if slides[-1].type != "summary": slides[-1] = ...] *)
Definition force_summary (slides : list SlideSpec) : result (list SlideSpec) :=
  match last slides with
  | None => Raise IndexError
  | Some s =>
      if decide (type s <> summary)
      then Ok (<[pred (length slides) := with_title (py "Summary") (with_type summary s)]> slides)
      else Ok slides
  end.

(** [if "\n" not in text:] a paragraph becomes sentence bullets. *)
Definition sentence_bullets (text : str) : str :=
  let parts :=
    List.filter nonempty
      (List.map strip (split_on DOT (replace [BULLET] [] text))) in
  if 2 <=? len parts
  then join [NL] (List.map (fun p => py "- " ++ p) (take 6 parts))
  else py "- " ++ text.

(** Body of the loop that fills [fixed]. *)
Definition fix_bullet (ln : str) : str :=
  if startswith (py "- ") ln || startswith (BULLET :: py " ") ln
  then replace (BULLET :: py " ") (py "- ") ln
  else py "- " ++ ln.

(** The list [fixed]: the first 8 non-blank lines, each with a bullet
    prefix. *)
Definition prefixed_lines (text : str) : list str :=
  let lines := List.filter nonempty (List.map strip (split_on NL text)) in
  List.map fix_bullet (take 8 lines).

(** The new [content] of a process or summary slide. *)
Definition bullet_text (content : str) : str :=
  let text := strip content in
  let text := if nonempty text then text else key_points in
  let text := if negb (contains NL text) then sentence_bullets text else text in
  join [NL] (prefixed_lines text).

Definition coerce_bullets (s : SlideSpec) : SlideSpec :=
  match type s with
  | process | summary => with_content (bullet_text (content s)) s
  | _ => s
  end.

Definition is_flow_with_diagram (s : SlideSpec) : bool :=
  bool_decide (type s = flow) && bool_decide (diagram s <> None).

Definition flow_nodes : list str :=
  [py "Input"; py "Step 1"; py "Step 2"; py "Output"; py "Result"].

(** [[(nodes[i], nodes[i + 1]) for i in range(len(nodes) - 1)]] *)
Fixpoint consecutive_pairs {A : Type} (l : list A) : list (A * A) :=
  match l with
  | a :: (b :: _) as l' => (a, b) :: consecutive_pairs l'
  | _ => []
  end.

Definition flow_template : DiagramSpec :=
  {| nodes := flow_nodes; edges := consecutive_pairs flow_nodes |}.

(** Ensure at least one flow slide with a diagram. *)
Definition ensure_flow (slides : list SlideSpec) : result (list SlideSpec) :=
  if existsb is_flow_with_diagram slides then Ok slides
  else
    let mid := Z.to_nat (Z.max 1 (Z.min (len slides - 2) (len slides / 2))) in
    match slides !! mid with
    | None => Raise IndexError
    | Some s =>
        Ok (<[mid := with_diagram (Some flow_template)
                       (with_title (py "Process Flow") (with_type flow s))]> slides)
    end.

Definition normalize_presentation_spec (spec : option PresentationSpec)
    (topic : str) (slide_count : Z) : result PresentationSpec :=
  match spec with
  | None => model_validate (mock_presentation topic slide_count)
  | Some spec =>
      let slides := slides spec in
      if negb (truthy slides) then model_validate (mock_presentation topic slide_count)
      else
        let slides := enforce_count topic slide_count slides in
        let! slides := force_intro slides in
        let! slides := force_summary slides in
        let slides := List.map coerce_bullets slides in
        let! slides := ensure_flow slides in
        match model_validate
                {| deck_title := if nonempty (deck_title spec) then deck_title spec else topic;
                   slides := slides |} with
        | Ok p => Ok p
        | Raise ValidationError => model_validate (mock_presentation topic slide_count)
        | Raise e => Raise e
        end
  end.

End Planner.

Import SvgFlow Planner.

(** ** Properties named by the specification *)

Module Spec.

(** Spec 4.2, greedy word wrap: [groups] cuts [words] into lines such
    that each line took words while the space-joined trial stayed
    within the budget (a line of one word is always accepted), and the
    first word of the next line would have exceeded it. *)
Inductive greedy_lines (budget : Z) : list str -> list (list str) -> Prop :=
| greedy_done : greedy_lines budget [] []
| greedy_line (cur rest : list str) (groups : list (list str)) :
    cur <> [] ->
    (length cur = 1%nat \/ len (join (py " ") cur) <= budget) ->
    (forall w rest', rest = w :: rest' -> budget < len (join (py " ") (cur ++ [w]))) ->
    greedy_lines budget rest groups ->
    greedy_lines budget (cur ++ rest) (cur :: groups).

(** A word as [str.split()] yields it: non-empty, without white space. *)
Definition inkword (w : str) : Prop :=
  w <> [] /\ Forall (fun c => isspace c = false) w.

(** A character that is not white space. *)
Definition ink (c : char) : Prop := isspace c = false.

(** Only white space. *)
Definition blank (s : str) : Prop := Forall (fun c => isspace c = true) s.

(** [words_of text ws]: the label [text] is the words [ws] in order,
    with white space before the first, between two neighbours and after
    the last; a word ends where the label ends or white space follows,
    so each word is a whole run of characters that are not white
    space. *)
Inductive words_of : str -> list str -> Prop :=
| words_none (gap : str) : blank gap -> words_of gap []
| words_more (gap w rest : str) (ws : list str) :
    blank gap -> inkword w ->
    (rest = [] \/ exists c t, rest = c :: t /\ isspace c = true) ->
    words_of rest ws ->
    words_of (gap ++ w ++ rest) (w :: ws).

(** Spec 4.3, anchor points of the box whose top-left corner is [p]. *)
Definition right_middle (p : Z * Z) : Z * Z := (p.1 + box_w, p.2 + half box_h).
Definition left_middle (p : Z * Z) : Z * Z := (p.1, p.2 + half box_h).
Definition bottom_middle (p : Z * Z) : Z * Z := (p.1 + half box_w, p.2 + box_h).
Definition top_middle (p : Z * Z) : Z * Z := (p.1 + half box_w, p.2).

Definition line_between (p q : Z * Z) (stroke : rgb) : svg_elem :=
  Line p.1 p.2 q.1 q.2 stroke.

(** Two [box_w] by [box_h] rectangles with top-left corners [p] and [q]
    share a point of positive area. *)
Definition boxes_overlap (p q : Z * Z) : bool :=
  (p.1 <? q.1 + box_w) && (q.1 <? p.1 + box_w)
  && (p.2 <? q.2 + box_h) && (q.2 <? p.2 + box_h).

Definition is_line (e : svg_elem) : bool :=
  match e with Line _ _ _ _ _ => true | _ => false end.

(** The [<line>] elements of a document, in order. *)
Definition line_elements (doc : list svg_elem) : list svg_elem :=
  List.filter is_line doc.

Definition is_node_rect (e : svg_elem) : bool :=
  match e with NodeRect _ _ _ _ _ _ _ => true | _ => false end.

(** Both labels of an edge are node labels. *)
Definition both_present (nodes : list str) (e : str * str) : bool :=
  bool_decide (e.1 ∈ nodes) && bool_decide (e.2 ∈ nodes).

(** The source and destination labels of an edge of the input, which
    is a tuple or a list of two labels. *)
Definition endpoints (e : raw_edge) : option (str * str) :=
  match e with
  | EdgeTuple [src; dst] | EdgeList [src; dst] => Some (src, dst)
  | _ => None
  end.

(** An edge of the input whose source and destination labels are both
    node labels. *)
Definition resolved (nodes : list str) (e : raw_edge) : bool :=
  match endpoints e with
  | Some p => both_present nodes p
  | None => false
  end.

(** A requested width or height below [2^1024] in absolute value:
    divided by a needed width or height, which is at least 330, it has
    a finite double. *)
Definition float_sized (v : Z) : Prop := Z.abs v < 2 ^ 1024.

(** Spec 3, the five invariants of a normalised deck. *)
Definition has_count (n : Z) (p : PresentationSpec) : bool := len (slides p) =? n.

Definition first_is_intro (p : PresentationSpec) : bool :=
  match head (slides p) with
  | Some s => bool_decide (type s = intro)
  | None => false
  end.

Definition last_is_summary (p : PresentationSpec) : bool :=
  match last (slides p) with
  | Some s => bool_decide (type s = summary)
  | None => false
  end.

Definition has_flow_diagram (p : PresentationSpec) : bool :=
  existsb (fun s => bool_decide (type s = flow) && bool_decide (diagram s <> None))
    (slides p).

(** A newline-delimited list of at most 8 bullets, each starting with
    hyphen and space and accepted by [line_ok]. *)
Definition bullet_list (line_ok : str -> bool) (content : str) : bool :=
  let bullets := split_on NL content in
  (len bullets <=? 8)
  && forallb (fun b => startswith (py "- ") b && line_ok b) bullets.

Definition at_most_120 (b : str) : bool := len b <=? 120.
Definition any_length (b : str) : bool := true.

Definition bullets_everywhere (line_ok : str -> bool) (p : PresentationSpec) : bool :=
  forallb
    (fun s =>
       match type s with
       | process | summary => bullet_list line_ok (content s)
       | _ => true
       end)
    (slides p).

Definition five_invariants (n : Z) (p : PresentationSpec) : bool :=
  has_count n p && first_is_intro p && last_is_summary p && has_flow_diagram p
  && bullets_everywhere at_most_120 p.

(** The same five without the bound on the length of a bullet. *)
Definition repaired (n : Z) (p : PresentationSpec) : bool :=
  has_count n p && first_is_intro p && last_is_summary p && has_flow_diagram p
  && bullets_everywhere any_length p.

(** What pydantic guarantees of a [PresentationSpec] instance. *)
Definition well_formed (p : PresentationSpec) : bool :=
  truthy (slides p) && forallb slide_valid (slides p).

(** Every diagram of the list has a node, as pydantic demands. *)
Definition valid_slides (l : list SlideSpec) : Prop :=
  Forall (fun s => slide_valid s = true) l.

(** A process or summary slide holds a hyphen-bulleted list. *)
Definition bulleted (s : SlideSpec) : Prop :=
  type s = process \/ type s = summary -> bullet_list any_length (content s) = true.

(** Every field but [type] agrees. *)
Definition same_but_type (s s' : SlideSpec) : Prop :=
  title s' = title s /\ content s' = content s /\ keywords s' = keywords s
  /\ image_query s' = image_query s /\ image_alt s' = image_alt s
  /\ image_subject s' = image_subject s /\ image_setting s' = image_setting s
  /\ image_style s' = image_style s
  /\ layout_preference s' = layout_preference s /\ emphasis s' = emphasis s
  /\ diagram s' = diagram s.

(** The fields of a slide that say which picture goes with it and how
    it is laid out: keywords, the five image fields, layout preference
    and emphasis. *)
Definition media (s : SlideSpec)
  : list str * option str * option str * option str * option str * option str
    * option str * option str :=
  (keywords s, Planner.image_query s, image_alt s, image_subject s, image_setting s,
   image_style s, layout_preference s, emphasis s).

(** These eight fields agree. *)
Definition same_media (s s' : SlideSpec) : Prop := media s' = media s.

End Spec.
Import Spec.

(** ** Decks and diagrams used as concrete inputs *)

Module Examples.

Definition two_nodes : list str := [py "A"; py "B"].

Definition chain : DiagramSpec :=
  {| nodes := [py "A"; py "B"]; edges := [(py "A", py "B")] |}.

(** A valid four-slide deck whose process slide has one line of text. *)
Definition one_point_deck : PresentationSpec :=
  {| deck_title := py "Deck";
     slides :=
       [mk_slide intro (py "Welcome") (py "What this deck covers.") [py "intro"] None;
        mk_slide process (py "Plan") (py "Only one point") [py "plan"] None;
        mk_slide flow (py "Flow") (py "How it moves.") [py "flow"] (Some chain);
        mk_slide summary (py "Summary") (py "- First" ++ [NL] ++ py "- Second")
          [py "recap"] None] |}.

(** A valid three-slide deck whose summary is one sentence of 130
    characters. *)
Definition long_bullet_deck : PresentationSpec :=
  {| deck_title := py "Deck";
     slides :=
       [mk_slide intro (py "Welcome") (py "What this deck covers.") [py "intro"] None;
        mk_slide flow (py "Flow") (py "How it moves.") [py "flow"] (Some chain);
        mk_slide summary (py "Summary") (repeat 97%N 130) [py "recap"] None] |}.

(** A deck of two process slides. *)
Definition drifted_deck : PresentationSpec :=
  {| deck_title := py "Deck";
     slides :=
       [mk_slide process (py "First") (py "Step one. Step two. Step three.") [py "a"] None;
        mk_slide process (py "Last") (py "Done") [py "b"] None] |}.

End Examples.
Import Examples.

(** ** More of the Python string library *)

Module PyStrMore.

(** [s.endswith(p)] *)
Definition endswith (p s : str) : bool := startswith (rev p) (rev s).

(** [s.find(c)] for a one-character needle: the first index, or -1. *)
Fixpoint find_from (c : char) (i : Z) (s : str) : Z :=
  match s with
  | [] => -1
  | x :: s' => if (x =? c)%N then i else find_from c (i + 1) s'
  end.

Definition find (c : char) (s : str) : Z := find_from c 0 s.

(** [s.rfind(c)]: the last index, or -1. *)
Definition rfind (c : char) (s : str) : Z :=
  let k := find c (rev s) in
  if k =? -1 then -1 else len s - 1 - k.

(** [s[start:stop]] for [0 <= start <= stop]. *)
Definition slice (start stop : Z) (s : str) : str :=
  take (Z.to_nat (stop - start)) (drop (Z.to_nat start) s).

(** [s.lstrip(chars)], [s.strip(chars)] for a set of characters. *)
Fixpoint lstrip_by (p : char -> bool) (s : str) : str :=
  match s with
  | [] => []
  | c :: s' => if p c then lstrip_by p s' else s
  end.

Definition strip_by (p : char -> bool) (s : str) : str :=
  rev (lstrip_by p (rev (lstrip_by p s))).


(** ASCII letters, digits. *)
Definition is_upper (c : char) : bool := ((65 <=? c) && (c <=? 90))%N.
Definition is_lower (c : char) : bool := ((97 <=? c) && (c <=? 122))%N.
Definition is_digit (c : char) : bool := ((48 <=? c) && (c <=? 57))%N.

(** [x in l] for a list of strings. *)
Definition mem (x : str) (l : list str) : bool := bool_decide (x ∈ l).

End PyStrMore.
Import PyStrMore.

(** ** [layouts.py]: the paragraphs of [_add_bullets] *)

Module Layouts.







End Layouts.

(** ** [builder.py]: [_safe_filename] *)

Module Builder.

(** The class [[A-Za-z0-9._-]]. *)
Definition allowed (c : char) : bool :=
  is_upper c || is_lower c || is_digit c
  || (c =? 46)%N || (c =? 95)%N || (c =? 45)%N.

Definition UNDERSCORE : char := 95%N.

(** [re.sub(r"[^A-Za-z0-9._-]+", "_", name)]: every maximal run of
    characters outside the class becomes one underscore. [in_run] tells
    that the previous character was outside the class. *)
Fixpoint sub_runs (in_run : bool) (name : str) : str :=
  match name with
  | [] => []
  | c :: rest =>
      if allowed c then c :: sub_runs false rest
      else if in_run then sub_runs true rest
      else UNDERSCORE :: sub_runs true rest
  end.

Definition _safe_filename (name : str) : str :=
  let cleaned := strip_by (fun c => (c =? UNDERSCORE)%N) (sub_runs false name) in
  if nonempty cleaned then cleaned else py "deck".

End Builder.

(** ** [openai_client.py]: [_extract_json_object_text] *)

Module OpenAIClient.

Definition LBRACE : char := 123%N.
Definition RBRACE : char := 125%N.

(** [None] is [raise ValueError("No JSON object found in model output")]. *)
Definition _extract_json_object_text (text : str) : option str :=
  let text := strip text in
  if startswith [LBRACE] text && endswith [RBRACE] text then Some text
  else
    let start := find LBRACE text in
    let end_ := rfind RBRACE text in
    if (start =? -1) || (end_ =? -1) || (end_ <=? start) then None
    else Some (slice start (end_ + 1) text).

End OpenAIClient.

(** ** [planner.py]: [_image_query_for_slide] and [plan_slides] *)

Module SlidePlan.

Record t : Type := {
  layout : str;
  image_query : option str;
  slide : SlideSpec
}.

End SlidePlan.

Module Plans.

(** [getattr(slide, name, None) or ""] *)
Definition or_empty (o : option str) : str := default [] o.

Section WithLower.

(** [str.lower], whose Unicode tables are not modelled: the code below
    is read for any such function. *)
Variable lower : list N -> list N.

(** Body of the loop that collects [terms]; the state is
    [(terms, seen)]. *)
Definition add_term (st : list str * gset (list N)) (t : str)
  : list str * gset (list N) :=
  let '(terms, seen) := st in
  let t := strip t in
  if negb (nonempty t) then st
  else
    let key := lower t in
    if bool_decide (key ∈ seen) then st
    else (terms ++ [t], {[key]} ∪ seen).

Definition _image_query_for_slide (slide : SlideSpec) (deck_title : str) : str :=
  let explicit := strip (or_empty (Planner.image_query slide)) in
  if nonempty explicit then explicit
  else
    let subject := strip (or_empty (image_subject slide)) in
    let setting := strip (or_empty (image_setting slide)) in
    let style := strip (or_empty (image_style slide)) in
    let structured :=
      strip (join (py " ") (List.filter nonempty [subject; setting; style])) in
    if nonempty structured then structured
    else
      let base_terms := title slide :: keywords slide in
      let terms := (fold_left add_term base_terms ([], ∅)).1 in
      let base := strip (join (py " ") (take 6 terms)) in
      match type slide with
      | flow => strip (base ++ py " workflow")
      | process => strip (base ++ py " business workflow")
      | intro => strip (base ++ py " abstract background")
      | summary => base
      end.

(** Body of the loop of [plan_slides]. *)
Definition plan_slide (deck_title : str) (slide : SlideSpec) : SlidePlan.t :=
  match type slide with
  | intro =>
      {| SlidePlan.layout := py "title_full_image";
         SlidePlan.image_query := Some (_image_query_for_slide slide deck_title);
         SlidePlan.slide := slide |}
  | process =>
      {| SlidePlan.layout := py "image_left_text_right";
         SlidePlan.image_query := Some (_image_query_for_slide slide deck_title);
         SlidePlan.slide := slide |}
  | flow =>
      {| SlidePlan.layout := py "diagram_center";
         SlidePlan.image_query := None;
         SlidePlan.slide := slide |}
  | summary =>
      let requested := strip (or_empty (Planner.image_query slide)) in
      if nonempty requested
      then {| SlidePlan.layout := py "image_left_text_right";
              SlidePlan.image_query := Some requested;
              SlidePlan.slide := slide |}
      else {| SlidePlan.layout := py "bullets";
              SlidePlan.image_query := None;
              SlidePlan.slide := slide |}
  end.

Definition plan_slides (spec : PresentationSpec) : list SlidePlan.t :=
  List.map (plan_slide (deck_title spec)) (slides spec).

(** [pipeline.py]: [slide_count or settings.default_slide_count]. *)
Definition slide_count_final (slide_count : option Z) (default_slide_count : Z) : Z :=
  match slide_count with
  | Some n => if n =? 0 then default_slide_count else n
  | None => default_slide_count
  end.

(** [pipeline.py], [generate_pptx_for_topic] up to [plans]: the deck
    [spec_raw] is the one [generate_presentation_spec] returned. *)
Definition plans_for_topic (spec_raw : PresentationSpec) (topic : str)
    (slide_count : option Z) (default_slide_count : Z) : result (list SlidePlan.t) :=
  let n := slide_count_final slide_count default_slide_count in
  let! spec := normalize_presentation_spec (Some spec_raw) topic n in
  Ok (plan_slides spec).

End WithLower.

(** [models.py]: the constraints of [GenerateRequest]. *)
Definition request_valid (topic : str) (slide_count : option Z) : bool :=
  (2 <=? len topic)
  && match slide_count with
     | None => true
     | Some n => (3 <=? n) && (n <=? 15)
     end.

End Plans.

(** ** [unsplash.py]: [_candidate_queries] *)

Module Unsplash.

Definition is_letter (c : char) : bool := is_upper c || is_lower c.

(** The run of letters that starts at the head of [s] and the runs
    after it. *)
Fixpoint runs_from (s : str) : str * list str :=
  match s with
  | [] => ([], [])
  | c :: s' =>
      let '(w, ws) := runs_from s' in
      if is_letter c then (c :: w, ws) else ([], cons_word w ws)
  end.

(** [re.findall(r"[a-zA-Z]{3,}", s)]: the maximal runs of ASCII letters
    that have at least three letters. *)
Definition findall_words (s : str) : list str :=
  let '(w, ws) := runs_from s in
  List.filter (fun t => 3 <=? len t) (cons_word w ws).

Definition stop : list str :=
  [py "deck"; py "slide"; py "presentation"; py "overview"; py "diagram";
   py "labeled"; py "high"; py "quality"; py "illustration"; py "wide"; py "photo"].

(** Body of the loop that fills [uniq]; the state is [(uniq, seen)]. *)
Definition add_uniq (st : list str * gset (list N)) (t : str)
  : list str * gset (list N) :=
  let '(uniq, seen) := st in
  if bool_decide (t ∈ seen) then st else (uniq ++ [t], {[t]} ∪ seen).

(** The local function [add_terms], with [candidates] passed and
    returned. *)
Definition add_terms (ts : list str) (candidates : list str) : list str :=
  let qq := strip (join (py " ") ts) in
  if nonempty qq && negb (mem qq candidates) then candidates ++ [qq] else candidates.

(** [literal_set & token_set] is non-empty. *)
Definition meets (words uniq : list str) : bool :=
  existsb (fun w => mem w uniq) words.

Section WithLower.

Variable lower : list N -> list N.

Definition _candidate_queries (query : str) : list str :=
  let q := strip query in
  if negb (nonempty q) then []
  else
    let candidates := [q] in
    let tokens := findall_words (lower q) in
    let tokens := List.filter (fun t => negb (mem t stop)) tokens in
    let uniq := (fold_left add_uniq tokens ([], ∅)).1 in
    let candidates := add_terms (take 6 uniq) candidates in
    let candidates := add_terms (take 4 uniq) candidates in
    let candidates := add_terms (take 3 uniq) candidates in
    let candidates :=
      if meets [py "onboarding"; py "signup"; py "sign"; py "registration";
                py "account"; py "verify"; py "verification"] uniq
      then add_terms [py "office"; py "team"]
             (add_terms [py "team"; py "onboarding"]
                (add_terms [py "business"; py "onboarding"] candidates))
      else candidates in
    let candidates :=
      if meets [py "process"; py "workflow"; py "flow"; py "steps"; py "journey"] uniq
      then add_terms [py "business"; py "process"]
             (add_terms [py "workflow"]
                (add_terms [py "business"; py "workflow"] candidates))
      else candidates in
    add_terms [py "abstract"; py "background"] candidates.

End WithLower.

End Unsplash.

(** ** [svg_flow.py]: [_rgb_to_hex] *)

Module SvgColors.

(** [format(n, "x")] for [n >= 0]. *)
Definition hex (n : Z) : str :=
  py (HexadecimalString.NilZero.string_of_uint (N.to_hex_uint (Z.to_N n))).

(** [f"{v:02x}"]: lowercase hexadecimal, zero-padded to two characters,
    the sign counting as one of them. *)
Definition format_02x (v : Z) : str :=
  if v <? 0 then py "-" ++ hex (- v)
  else if v <? 16 then py "0" ++ hex v
  else hex v.

Definition _rgb_to_hex (rgb : Z * Z * Z) : str :=
  let '(r, g, b) := rgb in
  py "#" ++ format_02x r ++ format_02x g ++ format_02x b.

End SvgColors.

(** ** Properties of the further code *)

Module SpecMore.

(** Neither end of [s] is a character that [p] accepts. *)
Definition trimmed (p : char -> bool) (s : str) : Prop :=
  (forall c t, s = c :: t -> p c = false) /\ (forall t c, s = t ++ [c] -> p c = false).

(** [str.lower] restricted to ASCII, used where a lowering function is
    needed to run the code. *)
Definition ascii_lower (s : str) : str :=
  List.map (fun c => if is_upper c then (c + 32)%N else c) s.

(** The XML entity of one character. *)
Definition escape_char (c : char) : str :=
  if (c =? 38)%N then py "&amp;"
  else if (c =? 60)%N then py "&lt;"
  else if (c =? 62)%N then py "&gt;"
  else [c].

(** A bullet line that bullet coercion leaves alone. *)
Definition stable_line (l : str) : Prop :=
  startswith (py "- ") l = true /\ (NL ∉ l) /\ (BULLET ∉ l) /\ trimmed isspace l.

(** A content of two to eight such lines. *)
Definition stable_bullets (c : str) : Prop :=
  exists ls, c = join [NL] ls /\ (2 <= length ls <= 8)%nat /\ Forall stable_line ls.

(** A deck that already has the shape the normaliser enforces. *)
Definition stable_deck (n : Z) (d : PresentationSpec) : Prop :=
  well_formed d = true /\ deck_title d <> []
  /\ has_count n d && first_is_intro d && last_is_summary d && has_flow_diagram d = true
  /\ Forall (fun s => type s = process \/ type s = summary -> stable_bullets (content s))
       (slides d).

(** Value of a lowercase hexadecimal digit, -1 for another character. *)
Definition hex_value (c : char) : Z :=
  if is_digit c then Z.of_N c - 48
  else if ((97 <=? c) && (c <=? 102))%N then Z.of_N c - 87
  else -1.

(** The colour that a string ["#rrggbb"] denotes. *)
Definition decode_rgb (s : str) : option (Z * Z * Z) :=
  match s with
  | [h; r1; r2; g1; g2; b1; b2] =>
      if (h =? 35)%N
         && forallb (fun c => 0 <=? hex_value c) [r1; r2; g1; g2; b1; b2]
      then Some (16 * hex_value r1 + hex_value r2,
                 16 * hex_value g1 + hex_value g2,
                 16 * hex_value b1 + hex_value b2)
      else None
  | _ => None
  end.

(** What the list [candidates] of [_candidate_queries] keeps through
    every [add_terms]: it starts with [q], has no repetition, at most
    [n] entries, and only non-empty stripped entries. *)
Definition candidates_ok (q : str) (n : nat) (l : list str) : Prop :=
  (exists rest, l = q :: rest) /\ NoDup l /\ (length l <= n)%nat
  /\ Forall (fun c => c <> [] /\ strip c = c) l.

End SpecMore.
Import SpecMore.

Module MoreExamples.

(** A valid three-slide deck that ends with a process slide of one
    line. *)
Definition unfinished_deck : PresentationSpec :=
  {| deck_title := py "Deck";
     slides :=
       [mk_slide process (py "Welcome") (py "What this deck covers.") [py "intro"] None;
        mk_slide flow (py "Flow") (py "How it moves.") [py "flow"] (Some chain);
        mk_slide process (py "Last") (py "Done") [py "b"] None] |}.

(** A four-slide deck in the shape the normaliser enforces. *)
Definition settled_deck : PresentationSpec :=
  {| deck_title := py "Deck";
     slides :=
       [mk_slide intro (py "Welcome") (py "What this deck covers.") [py "intro"] None;
        mk_slide process (py "Plan") (py "- Collect" ++ [NL] ++ py "- Sort") [py "plan"] None;
        mk_slide flow (py "Flow") (py "How it moves.") [py "flow"] (Some chain);
        mk_slide summary (py "Summary") (py "- First" ++ [NL] ++ py "- Second")
          [py "recap"] None] |}.

End MoreExamples.
Import MoreExamples.

(** * Facts about Python strings *)

Section StringFacts.

Lemma words_from_spec (s : str) :
  Forall (fun c => isspace c = false) (words_from s).1 /\
  Forall inkword (words_from s).2.
Proof.
  induction s as [|c s [IHw IHws]]; simpl.
  - split; constructor.
  - destruct (words_from s) as [w ws]; simpl in *.
    destruct (isspace c) eqn:Hc; simpl.
    + split; [constructor|].
      destruct w; simpl; [assumption|].
      constructor; [split; [discriminate | assumption] | assumption].
    + split; [constructor; assumption | assumption].
Qed.

Lemma split_ws_words (s : str) : Forall inkword (split_ws s).
Proof.
  unfold split_ws. pose proof (words_from_spec s) as [Hw Hws].
  destruct (words_from s) as [w ws]; simpl in *.
  destruct w; simpl; [assumption|].
  constructor; [split; [discriminate | assumption] | assumption].
Qed.

Lemma filter_nonempty_words (ws : list str) :
  Forall inkword ws -> List.filter nonempty ws = ws.
Proof.
  induction 1 as [|w ws [Hne _] _ IH]; simpl; [reflexivity|].
  destruct w; [congruence|]. simpl. by rewrite IH.
Qed.

Lemma split_ws_blank (s : str) : forallb isspace s = true -> split_ws s = [].
Proof.
  unfold split_ws. intros H.
  assert (words_from s = ([], [])) as ->; [|reflexivity].
  induction s as [|c s IH]; simpl in *; [reflexivity|].
  apply andb_true_iff in H as [Hc Hs]. rewrite (IH Hs), Hc. reflexivity.
Qed.

Lemma words_of_space (c : char) (s : str) (ws : list str) :
  isspace c = true -> words_of s ws -> words_of (c :: s) ws.
Proof.
  intros Hc [gap Hgap | gap w rest ws' Hgap Hw Hend Hrest].
  - apply words_none. by constructor.
  - apply (words_more (c :: gap)); [by constructor | assumption..].
Qed.

Lemma words_from_words_of (s : str) :
  exists rest,
    s = (words_from s).1 ++ rest /\
    (rest = [] \/ exists c t, rest = c :: t /\ isspace c = true) /\
    words_of rest (words_from s).2.
Proof.
  induction s as [|c s (rest & Hs & Hend & Hrest)]; simpl.
  - exists []. split; [reflexivity|]. split; [by left|]. apply words_none. constructor.
  - pose proof (words_from_spec s) as [Hink _].
    destruct (words_from s) as [w ws]; simpl in *.
    destruct (isspace c) eqn:Hc; simpl.
    + exists (c :: s). split; [reflexivity|]. split; [right; eauto|].
      apply words_of_space; [assumption|]. rewrite Hs.
      destruct w as [|a w]; simpl; [assumption|].
      apply (words_more [] (a :: w) rest ws);
        [constructor | split; [discriminate | assumption] | assumption | assumption].
    + exists rest. split; [by f_equal|]. split; assumption.
Qed.

(** The words that [str.split()] returns are the words of the text. *)
Lemma split_ws_words_of (s : str) : words_of s (split_ws s).
Proof.
  unfold split_ws. destruct (words_from_words_of s) as (rest & Hs & Hend & Hrest).
  pose proof (words_from_spec s) as [Hink _].
  destruct (words_from s) as [w ws]; simpl in *. rewrite Hs.
  destruct w as [|a w]; simpl; [assumption|].
  apply (words_more [] (a :: w) rest ws);
    [constructor | split; [discriminate | assumption] | assumption | assumption].
Qed.

Lemma split_ws_space (c : char) (s : str) :
  isspace c = true -> split_ws (c :: s) = split_ws s.
Proof.
  intros Hc. unfold split_ws. simpl. destruct (words_from s) as [w ws].
  by rewrite Hc.
Qed.

Lemma split_ws_gap (gap s : str) : blank gap -> split_ws (gap ++ s) = split_ws s.
Proof.
  induction 1 as [|c gap Hc _ IH]; [reflexivity|].
  cbn [app]. by rewrite split_ws_space.
Qed.

Lemma words_from_word (w rest : str) :
  Forall (fun c => isspace c = false) w ->
  (rest = [] \/ exists c t, rest = c :: t /\ isspace c = true) ->
  words_from (w ++ rest) = (w, split_ws rest).
Proof.
  intros Hw Hend.
  assert (Hrest : words_from rest = ([], split_ws rest)).
  { destruct Hend as [->|(c & t & -> & Hc)]; [reflexivity|].
    unfold split_ws. simpl. destruct (words_from t) as [w' ws']. by rewrite Hc. }
  induction Hw as [|a w Ha _ IH]; [exact Hrest|].
  cbn [app words_from]. by rewrite IH, Ha.
Qed.

(** A text has one list of words. *)
Lemma words_of_split_ws (s : str) (ws : list str) : words_of s ws -> split_ws s = ws.
Proof.
  induction 1 as [gap Hgap | gap w rest ws Hgap [Hne Hink] Hend _ IH].
  - rewrite <- (app_nil_r gap). by rewrite split_ws_gap.
  - rewrite split_ws_gap by assumption.
    unfold split_ws. rewrite words_from_word by assumption.
    destruct w; [congruence|]. simpl. by rewrite IH.
Qed.

Lemma blank_forallb (s : str) : blank s -> forallb isspace s = true.
Proof. induction 1 as [|c s Hc _ IH]; [reflexivity|]. simpl. by rewrite Hc, IH. Qed.

Lemma lstrip_ink (c : char) (s : str) : isspace c = false -> lstrip (c :: s) = c :: s.
Proof. intros H. simpl. by rewrite H. Qed.

Lemma strip_ink_ends (s : str) (a b : char) (m m' : str) :
  s = a :: m -> s = m' ++ [b] -> isspace a = false -> isspace b = false -> strip s = s.
Proof.
  intros Ha Hb Hsa Hsb. unfold strip, rstrip.
  rewrite Ha, (lstrip_ink _ _ Hsa), <- Ha, Hb, rev_app_distr. simpl.
  rewrite Hsb. simpl. by rewrite rev_involutive.
Qed.

Lemma join_cons2 (sep x y : str) (l : list str) :
  join sep (x :: y :: l) = x ++ sep ++ join sep (y :: l).
Proof. reflexivity. Qed.

Lemma join_words_ends (sep : str) (ws : list str) :
  ws <> [] -> Forall inkword ws ->
  exists a m b m', join sep ws = a :: m /\ join sep ws = m' ++ [b]
              /\ isspace a = false /\ isspace b = false.
Proof.
  induction ws as [|w ws IH]; [congruence|]. intros _ Hok.
  apply Forall_cons in Hok as [[Hne Hink] Hws].
  destruct ws as [|w' ws].
  - simpl. destruct w as [|a m]; [congruence|].
    destruct (exists_last Hne) as (m' & b & Hlast).
    exists a, m, b, m'. split; [reflexivity|]. split; [assumption|].
    split; [by inversion Hink|].
    rewrite Hlast in Hink. apply Forall_app in Hink as [_ Hb]. by inversion Hb.
  - destruct IH as (a' & m1 & b & m' & _ & Hr & _ & Hb); [discriminate | assumption |].
    rewrite join_cons2. destruct w as [|a m]; [congruence|].
    exists a, (m ++ sep ++ join sep (w' :: ws)), b, ((a :: m) ++ sep ++ m').
    split; [reflexivity|]. split; [by rewrite Hr, <- !app_assoc|].
    split; [by inversion Hink | assumption].
Qed.

Lemma strip_join_words (ws : list str) :
  ws <> [] -> Forall inkword ws -> strip (join (py " ") ws) = join (py " ") ws.
Proof.
  intros Hne Hok.
  destruct (join_words_ends (py " ") ws Hne Hok) as (a & m & b & m' & Ha & Hb & Hsa & Hsb).
  eapply strip_ink_ends; eassumption.
Qed.

Lemma len_join_ge (sep : str) (g : list str) (w : str) :
  w ∈ g -> len w <= len (join sep g).
Proof.
  unfold len. induction g as [|x g IH]; intros Hin; [by apply elem_of_nil in Hin|].
  destruct g as [|y g].
  - apply list_elem_of_singleton in Hin as ->. simpl. lia.
  - rewrite join_cons2, !length_app.
    apply elem_of_cons in Hin as [->|Hin]; [lia|]. specialize (IH Hin). lia.
Qed.

End StringFacts.

(** * [_wrap_words] *)

Section WrapFacts.
Variable max_chars : Z.

Lemma wrap_step_eq (lines cur : list str) (w : str) :
  wrap_step max_chars (lines, cur) w
  = if truthy cur && (max_chars <? len (strip (join (py " ") (cur ++ [w]))))
    then (lines ++ [join (py " ") cur], [w])
    else (lines, cur ++ [w]).
Proof. reflexivity. Qed.

(** Loop invariant: from a state whose current line is non-empty and
    acceptable, the loop and the final flush emit the greedy lines of
    the words still to place, the current line first. *)
Lemma wrap_loop_greedy (ws : list str) :
  forall (lines cur : list str),
    cur <> [] ->
    (length cur = 1%nat \/ len (join (py " ") cur) <= max_chars) ->
    Forall inkword (cur ++ ws) ->
    exists groups,
      greedy_lines max_chars (cur ++ ws) groups /\
      wrap_flush (fold_left (wrap_step max_chars) ws (lines, cur))
      = lines ++ List.map (join (py " ")) groups.
Proof.
  induction ws as [|w ws IH]; intros lines cur Hne Hfit Hok.
  - exists [cur]. split.
    + apply greedy_line; [assumption | assumption | discriminate | constructor].
    + simpl. destruct cur; [congruence | reflexivity].
  - cbn [fold_left]. rewrite wrap_step_eq.
    assert (Hcw : Forall inkword (cur ++ [w])).
    { apply Forall_app in Hok as [Hc Hw]. apply Forall_app. split; [assumption|].
      constructor; [by inversion Hw | constructor]. }
    rewrite strip_join_words; [| by destruct cur | assumption].
    assert (Htruthy : truthy cur = true) by (by destruct cur).
    rewrite Htruthy. simpl andb.
    destruct (max_chars <? len (join (py " ") (cur ++ [w]))) eqn:Hlt.
    + apply Z.ltb_lt in Hlt.
      destruct (IH (lines ++ [join (py " ") cur]) [w]) as (groups & Hg & Hflush).
      * discriminate.
      * by left.
      * apply Forall_app in Hok as [_ Hw]. assumption.
      * exists (cur :: groups). split.
        -- apply greedy_line; [assumption | assumption | | assumption].
           intros w0 rest' Heq. injection Heq as <- _. assumption.
        -- rewrite Hflush. simpl. by rewrite <- app_assoc.
    + apply Z.ltb_ge in Hlt.
      destruct (IH lines (cur ++ [w])) as (groups & Hg & Hflush).
      * by destruct cur.
      * by right.
      * by rewrite <- app_assoc.
      * exists groups. rewrite <- app_assoc in Hg. split; assumption.
Qed.

Lemma wrap_words_groups (text : str) :
  exists groups,
    greedy_lines max_chars (split_ws text) groups /\
    _wrap_words text max_chars
    = if truthy (split_ws text) then take 3 (List.map (join (py " ")) groups) else [[]].
Proof.
  unfold _wrap_words.
  rewrite (filter_nonempty_words _ (split_ws_words text)).
  pose proof (split_ws_words text) as Hok.
  destruct (split_ws text) as [|w ws].
  - exists []. split; [constructor | reflexivity].
  - simpl truthy. cbv iota.
    destruct (wrap_loop_greedy ws [] [w]) as (groups & Hg & Hflush);
      [discriminate | by left | assumption |].
    exists groups. split; [assumption|].
    cbn [fold_left]. rewrite wrap_step_eq. cbn [truthy andb app].
    by rewrite Hflush.
Qed.

Lemma greedy_lines_nonempty (ws : list str) (groups : list (list str)) :
  greedy_lines max_chars ws groups -> ws <> [] -> groups <> [].
Proof. destruct 1; [congruence | discriminate]. Qed.

Lemma greedy_lines_concat (ws : list str) (groups : list (list str)) :
  greedy_lines max_chars ws groups -> concat groups = ws.
Proof. induction 1; simpl; [reflexivity | by f_equal]. Qed.

Lemma greedy_lines_groups (ws : list str) (groups : list (list str)) :
  greedy_lines max_chars ws groups ->
  Forall (fun g => g <> [] /\ (length g = 1%nat \/ len (join (py " ") g) <= max_chars))
    groups.
Proof. induction 1; constructor; auto. Qed.

Lemma join_prefix_len (sep : str) (a b : list str) :
  len (join sep a) <= len (join sep (a ++ b)).
Proof.
  unfold len. induction a as [|x a IH]; [simpl; lia|].
  destruct a as [|y a].
  - destruct b as [|z b]; [simpl; lia|].
    cbn [app]. rewrite join_cons2, length_app. simpl. lia.
  - cbn [app] in *. rewrite !join_cons2, !length_app. lia.
Qed.

(** The greedy cut of a list of words is unique. *)
Lemma greedy_lines_unique (ws : list str) (g1 g2 : list (list str)) :
  greedy_lines max_chars ws g1 -> greedy_lines max_chars ws g2 -> g1 = g2.
Proof.
  intros H1. revert g2.
  induction H1 as [|cur1 rest1 groups1 Hne1 Hfit1 Hnext1 Hrest1 IH]; intros g2 H2.
  - inversion H2 as [|cur2 rest2 groups2 Hne2 _ _ _ Heq]; [reflexivity|].
    destruct cur2; [congruence | discriminate].
  - inversion H2 as [Heq|cur2 rest2 groups2 Hne2 Hfit2 Hnext2 Hrest2 Heq].
    { destruct cur1; [congruence | discriminate]. }
    subst g2.
    assert (Hlong : forall (c c' r r' : list str) (w : str) (more : list str),
               c <> [] ->
               (forall w0 r0, r = w0 :: r0 -> max_chars < len (join (py " ") (c ++ [w0]))) ->
               (length c' = 1%nat \/ len (join (py " ") c') <= max_chars) ->
               c' = c ++ w :: more -> r = (w :: more) ++ r' -> False).
    { intros c c' r r' w more Hc Hnext Hfit -> ->.
      specialize (Hnext w (more ++ r') eq_refl).
      pose proof (join_prefix_len (py " ") (c ++ [w]) more) as Hpre.
      rewrite <- app_assoc in Hpre. cbn [app] in Hpre.
      destruct Hfit as [Hone|Hfit]; [|lia].
      rewrite length_app in Hone. destruct c; [congruence|]. simpl in Hone. lia. }
    apply app_eq_app in Heq as [l [[Hc Hr]|[Hc Hr]]].
    + destruct l as [|w more].
      * rewrite app_nil_r in Hc. cbn [app] in Hr. subst cur2 rest1.
        f_equal. by apply IH.
      * exfalso. by apply (Hlong cur1 cur2 rest1 rest2 w more).
    + destruct l as [|w more].
      * rewrite app_nil_r in Hc. cbn [app] in Hr. subst cur1 rest2.
        f_equal. by apply IH.
      * exfalso. by apply (Hlong cur2 cur1 rest2 rest1 w more).
Qed.

End WrapFacts.

Section WrapTheorems.

Lemma elem_of_take_list {A : Type} (x : A) (n : nat) (l : list A) :
  x ∈ take n l -> x ∈ l.
Proof. intros (i & Hi & _)%elem_of_take. by eapply list_elem_of_lookup_2. Qed.

Lemma elem_of_concat {A : Type} (x : A) (l : list A) (ls : list (list A)) :
  x ∈ l -> l ∈ ls -> x ∈ concat ls.
Proof.
  intros Hx Hl. apply list_elem_of_In, in_concat. exists l.
  split; by apply list_elem_of_In.
Qed.

Lemma take_map_join (n : nat) (groups : list (list str)) :
  take n (List.map (join (py " ")) groups) = List.map (join (py " ")) (take n groups).
Proof.
  revert n. induction groups as [|g groups IH]; intros [|n]; simpl; try reflexivity.
  by rewrite IH.
Qed.

(** C7. The words of a label are its runs of characters that are not
    white space, in order. [_wrap_words] returns at most three lines
    and never zero lines; on a label with words the lines are the first
    three lines of the greedy wrap of its words (a word joins the
    current line while the space-joined trial stays within the budget,
    and the word that would exceed it opens the next line; there is one
    such wrap), later lines being dropped; an empty or white-space-only
    label yields the single line [""]. *)
Theorem wrap_words_greedy_three_lines (text : str) (max_chars : Z) :
  exists words groups,
    words_of text words /\
    (forall words', words_of text words' -> words' = words) /\
    greedy_lines max_chars words groups /\
    (forall groups', greedy_lines max_chars words groups' -> groups' = groups) /\
    concat groups = words /\
    _wrap_words text max_chars
    = (if truthy words then take 3 (List.map (join (py " ")) groups) else [[]]) /\
    (1 <= length (_wrap_words text max_chars) <= 3)%nat /\
    (blank text -> _wrap_words text max_chars = [[]]).
Proof.
  destruct (wrap_words_groups max_chars text) as (groups & Hg & Heq).
  exists (split_ws text), groups.
  split; [apply split_ws_words_of|].
  split; [intros words' Hw; symmetry; by apply words_of_split_ws|].
  split; [assumption|].
  split; [intros groups' Hg'; by apply (greedy_lines_unique max_chars (split_ws text))|].
  split; [by apply (greedy_lines_concat max_chars)|].
  split; [assumption|]. split.
  - rewrite Heq. destruct (split_ws text) as [|w ws] eqn:Hws; simpl truthy; cbv iota.
    + simpl. lia.
    + pose proof (greedy_lines_nonempty _ _ _ Hg) as Hne.
      destruct groups as [|g groups]; [by exfalso; apply Hne|].
      rewrite length_take, List.length_map. cbn [length]. lia.
  - intros Hblank. unfold _wrap_words.
    by rewrite (split_ws_blank _ (blank_forallb _ Hblank)).
Qed.

Lemma wrap_words_greedy_three_lines_witness :
  _wrap_words (py "a b  cc dd e") 3 = [py "a b"; py "cc"; py "dd"] /\
  _wrap_words (py "  ") 18 = [[]].
Proof.
  assert (Hspace : isspace 32 = true) by reflexivity.
  assert (Hword : forall w, forallb (fun c => negb (isspace c)) w = true ->
                            w <> [] -> inkword w).
  { intros w Hw Hne. split; [assumption|]. apply Forall_forall. intros c Hc.
    apply list_elem_of_In in Hc. rewrite forallb_forall in Hw.
    by apply negb_true_iff, Hw. }
  split.
  - destruct (wrap_words_greedy_three_lines (py "a b  cc dd e") 3)
      as (words & groups & _ & Hwords & _ & Hgroups & _ & Heq & _).
    assert (Hw : words_of (py "a b  cc dd e")
                   [py "a"; py "b"; py "cc"; py "dd"; py "e"]).
    { apply (words_more [] (py "a") (py " b  cc dd e"));
        [constructor | by apply Hword | right; by eexists _, _ |].
      apply (words_more (py " ") (py "b") (py "  cc dd e"));
        [by repeat constructor | by apply Hword | right; by eexists _, _ |].
      apply (words_more (py "  ") (py "cc") (py " dd e"));
        [by repeat constructor | by apply Hword | right; by eexists _, _ |].
      apply (words_more (py " ") (py "dd") (py " e"));
        [by repeat constructor | by apply Hword | right; by eexists _, _ |].
      apply (words_more (py " ") (py "e") []);
        [by repeat constructor | by apply Hword | by left |].
      apply words_none. constructor. }
    apply Hwords in Hw. subst words.
    assert (Hg : greedy_lines 3 [py "a"; py "b"; py "cc"; py "dd"; py "e"]
                   [[py "a"; py "b"]; [py "cc"]; [py "dd"]; [py "e"]]).
    { apply (greedy_line 3 [py "a"; py "b"] [py "cc"; py "dd"; py "e"]);
        [discriminate | right; vm_compute; discriminate
        | intros w rest' [= <- _]; reflexivity |].
      apply (greedy_line 3 [py "cc"] [py "dd"; py "e"]);
        [discriminate | by left | intros w rest' [= <- _]; reflexivity |].
      apply (greedy_line 3 [py "dd"] [py "e"]);
        [discriminate | by left | intros w rest' [= <- _]; reflexivity |].
      apply (greedy_line 3 [py "e"] []);
        [discriminate | by left | intros w rest' [=] |].
      constructor. }
    apply Hgroups in Hg. subst groups.
    rewrite Heq. reflexivity.
  - destruct (wrap_words_greedy_three_lines (py "  ") 18) as (_ & _ & _ & _ & _ & _ & _ & _ & H).
    apply H. by repeat constructor.
Defined.

(** C10, the claim as stated fails: a label can contain a word longer
    than the budget and still yield only lines within the budget,
    because the line of that word is the fourth and is dropped. *)
Lemma wrap_words_long_word_dropped :
  py "dddd" ∈ split_ws (py "a b c dddd") /\ 1 < len (py "dddd") /\
  _wrap_words (py "a b c dddd") 1 = [py "a"; py "b"; py "c"] /\
  ~ (exists ln, ln ∈ _wrap_words (py "a b c dddd") 1 /\ 1 < len ln).
Proof.
  split; [|split; [|split]].
  - vm_compute. do 3 apply list_elem_of_further. apply list_elem_of_here.
  - reflexivity.
  - reflexivity.
  - intros (ln & Hin & Hlen). vm_compute in Hin.
    repeat (apply elem_of_cons in Hin as [->|Hin]; [vm_compute in Hlen; discriminate|]).
    by apply elem_of_nil in Hin.
Qed.

(** C10 as amended. The returned lines are space-joins of groups of
    whole consecutive words (the first three groups of the greedy
    wrap); a word longer than the budget that lies in one of these
    groups is alone in it, so it is returned unbroken as a line longer
    than the budget; if every word fits the budget so does every
    returned line; and a returned line within the budget has only words
    that fit. *)
Theorem wrap_words_whole_words (text : str) (max_chars : Z) :
  exists groups,
    greedy_lines max_chars (split_ws text) groups /\
    concat groups = split_ws text /\
    (split_ws text <> [] ->
     _wrap_words text max_chars = List.map (join (py " ")) (take 3 groups)) /\
    (forall g w, g ∈ take 3 groups -> w ∈ g -> max_chars < len w ->
                 g = [w] /\ w ∈ _wrap_words text max_chars) /\
    (0 <= max_chars ->
     Forall (fun w => len w <= max_chars) (split_ws text) ->
     Forall (fun ln => len ln <= max_chars) (_wrap_words text max_chars)) /\
    (forall g w, g ∈ take 3 groups -> w ∈ g ->
                 len (join (py " ") g) <= max_chars -> len w <= max_chars).
Proof.
  destruct (wrap_words_groups max_chars text) as (groups & Hg & Heq).
  pose proof (greedy_lines_concat _ _ _ Hg) as Hcat.
  pose proof (greedy_lines_groups _ _ _ Hg) as Hgroups.
  rewrite Forall_forall in Hgroups.
  assert (Hwords : split_ws text <> [] ->
                   _wrap_words text max_chars = List.map (join (py " ")) (take 3 groups)).
  { intros Hne. rewrite Heq. destruct (split_ws text); [congruence|].
    simpl truthy. cbv iota. apply take_map_join. }
  assert (Halone : forall g w, g ∈ groups -> w ∈ g -> max_chars < len w -> g = [w]).
  { intros g w Hin Hw Hlong.
    destruct (Hgroups g Hin) as [Hne [Hone|Hfit]].
    - destruct g as [|x [|y g]]; simpl in Hone; try discriminate.
      by apply list_elem_of_singleton in Hw as ->.
    - pose proof (len_join_ge (py " ") g w Hw). lia. }
  exists groups.
  split; [assumption|]. split; [assumption|]. split; [assumption|].
  split; [|split].
  - intros g w Hg3 Hw Hlong.
    assert (Hin : g ∈ groups) by (eapply elem_of_take_list; eassumption).
    pose proof (Halone g w Hin Hw Hlong) as Hgw. split; [assumption|].
    rewrite Hwords.
    + apply list_elem_of_In, in_map_iff. exists g.
      split; [by rewrite Hgw | by apply list_elem_of_In].
    + rewrite <- Hcat. intros Hnil.
      assert (Hwc : w ∈ concat groups) by (eapply elem_of_concat; eassumption).
      rewrite Hnil in Hwc. by apply elem_of_nil in Hwc.
  - intros Hpos Hfits. rewrite Heq.
    destruct (split_ws text) as [|w0 ws] eqn:Hws; simpl truthy; cbv iota.
    + constructor; [|constructor]. unfold len. simpl. lia.
    + rewrite take_map_join. apply Forall_forall. intros ln Hln.
      apply list_elem_of_In, in_map_iff in Hln as (g & <- & Hg3).
      assert (Hin : g ∈ groups).
      { eapply elem_of_take_list. apply list_elem_of_In. eassumption. }
      destruct (Hgroups g Hin) as [Hne [Hone|Hfit]]; [|assumption].
      destruct g as [|x [|y g]]; simpl in Hone; try discriminate. simpl.
      rewrite Forall_forall in Hfits. apply Hfits. rewrite <- Hcat.
      apply (elem_of_concat x [x]); [apply list_elem_of_here | assumption].
  - intros g w _ Hw Hfit. pose proof (len_join_ge (py " ") g w Hw). lia.
Qed.

Lemma wrap_words_whole_words_witness :
  0 <= 18 /\
  Forall (fun w => len w <= 18) (split_ws (py "Input data set")) /\
  Forall (fun ln => len ln <= 18) (_wrap_words (py "Input data set") 18).
Proof.
  assert (Hfits : Forall (fun w => len w <= 18) (split_ws (py "Input data set"))).
  { apply (bool_decide_unpack _). vm_compute. exact I. }
  split; [lia|]. split; [exact Hfits|].
  destruct (wrap_words_whole_words (py "Input data set") 18) as (groups & _ & _ & _ & _ & H & _).
  apply H; [lia | exact Hfits].
Defined.

End WrapTheorems.

(** * [render_flow_svg]: the grid *)

Section LayoutFacts.
Variable mpr : Z.

Lemma node_positions_fold (nodes : list str) :
  node_positions mpr nodes = fold_left (place mpr) (enumerate nodes) ∅.
Proof. reflexivity. Qed.

Lemma place_absent (l : list str) :
  forall (i : nat) (m : gmap (list N) (Z * Z)) (k : str),
    k ∉ l -> fold_left (place mpr) (enumerate_from i l) m !! k = m !! k.
Proof.
  induction l as [|x l IH]; intros i m k Hk; [reflexivity|].
  apply not_elem_of_cons in Hk as [Hkx Hkl].
  cbn [enumerate_from fold_left]. rewrite IH by assumption.
  unfold place. by rewrite lookup_insert_ne.
Qed.

Lemma place_present (l : list str) :
  forall (i : nat) (m : gmap (list N) (Z * Z)) (k : str),
    k ∈ l -> is_Some (fold_left (place mpr) (enumerate_from i l) m !! k).
Proof.
  induction l as [|x l IH]; intros i m k Hk; [by apply elem_of_nil in Hk|].
  cbn [enumerate_from fold_left].
  destruct (decide (k ∈ l)) as [Hin|Hout]; [by apply IH|].
  apply elem_of_cons in Hk as [->|Hk]; [|contradiction].
  rewrite place_absent by assumption.
  unfold place. rewrite lookup_insert_eq. by eexists.
Qed.

Lemma place_distinct (l : list str) :
  forall (i j : nat) (m : gmap (list N) (Z * Z)) (k : str),
    NoDup l -> l !! j = Some k ->
    fold_left (place mpr) (enumerate_from i l) m !! k = Some (cell mpr (i + j)).
Proof.
  induction l as [|x l IH]; intros i j m k Hnd Hj; [discriminate|].
  apply NoDup_cons in Hnd as [Hx Hnd].
  cbn [enumerate_from fold_left]. destruct j as [|j].
  - injection Hj as ->. rewrite place_absent by assumption.
    unfold place. rewrite lookup_insert_eq. do 2 f_equal. lia.
  - rewrite (IH (S i) j) by assumption. do 2 f_equal. lia.
Qed.

Lemma node_positions_dom (nodes : list str) (k : str) :
  is_Some (node_positions mpr nodes !! k) <-> k ∈ nodes.
Proof.
  rewrite node_positions_fold. split.
  - intros Hsome. destruct (decide (k ∈ nodes)) as [Hin|Hout]; [assumption|].
    unfold enumerate in Hsome. rewrite place_absent in Hsome by assumption.
    rewrite lookup_empty in Hsome. by destruct Hsome.
  - apply place_present.
Qed.

Lemma node_positions_cell (nodes : list str) (i : nat) (k : str) :
  NoDup nodes -> nodes !! i = Some k ->
  node_positions mpr nodes !! k = Some (cell mpr i).
Proof.
  intros Hnd Hi. rewrite node_positions_fold. unfold enumerate.
  by rewrite (place_distinct nodes 0 i).
Qed.

(** Two different grid cells hold disjoint boxes: the column pitch
    [box_w + hgap] exceeds [box_w], the row pitch exceeds [box_h]. *)
Lemma cells_disjoint (i j : nat) :
  1 <= mpr -> i <> j -> boxes_overlap (cell mpr i) (cell mpr j) = false.
Proof.
  intros Hm Hij. unfold boxes_overlap, cell. cbn [fst snd].
  unfold pad_x, pad_y, box_w, box_h, hgap, vgap.
  pose proof (Z.div_mod (Z.of_nat i) mpr ltac:(lia)) as Hi.
  pose proof (Z.div_mod (Z.of_nat j) mpr ltac:(lia)) as Hj.
  pose proof (Z.mod_pos_bound (Z.of_nat i) mpr ltac:(lia)) as Hbi.
  pose proof (Z.mod_pos_bound (Z.of_nat j) mpr ltac:(lia)) as Hbj.
  set (ci := Z.of_nat i mod mpr) in *. set (cj := Z.of_nat j mod mpr) in *.
  set (ri := Z.of_nat i / mpr) in *. set (rj := Z.of_nat j / mpr) in *.
  destruct (Z.eq_dec ci cj) as [Hc|Hc].
  - assert (ri <> rj) by (intros Hr; rewrite Hc, Hr in Hi; lia).
    apply andb_false_iff.
    destruct (Z.lt_ge_cases ri rj).
    + right. apply Z.ltb_ge. lia.
    + left. apply andb_false_iff. right. apply Z.ltb_ge. lia.
  - apply andb_false_iff. left. apply andb_false_iff. left. apply andb_false_iff.
    destruct (Z.lt_ge_cases ci cj).
    + right. apply Z.ltb_ge. lia.
    + left. apply Z.ltb_ge. lia.
Qed.

End LayoutFacts.

Section EdgeFacts.

Lemma index_of_lookup (x : str) (nodes : list str) (i : nat) :
  index_of x nodes = Some i -> nodes !! i = Some x.
Proof.
  revert i. induction nodes as [|y nodes IH]; intros i; simpl; [discriminate|].
  destruct (decide (y = x)) as [->|Hne].
  - by intros [= <-].
  - destruct (index_of x nodes) as [k|]; simpl; [|discriminate].
    intros [= <-]. by apply IH.
Qed.

Lemma index_of_first (x : str) (nodes : list str) (i j : nat) :
  index_of x nodes = Some i -> (j < i)%nat -> nodes !! j <> Some x.
Proof.
  revert i j. induction nodes as [|y nodes IH]; intros i j; simpl; [discriminate|].
  destruct (decide (y = x)) as [->|Hne].
  - intros [= <-]. lia.
  - destruct (index_of x nodes) as [k|] eqn:Hk; simpl; [|discriminate].
    intros [= <-] Hj. destruct j as [|j]; simpl; [congruence|].
    apply (IH k); [reflexivity | lia].
Qed.

Lemma index_of_elem (x : str) (nodes : list str) :
  is_Some (index_of x nodes) <-> x ∈ nodes.
Proof.
  induction nodes as [|y nodes IH]; simpl.
  - split; [by intros [? ?] | by intros ?%elem_of_nil].
  - destruct (decide (y = x)) as [->|Hne].
    + split; [intros _; apply list_elem_of_here | by eexists].
    + rewrite elem_of_cons, <- IH, fmap_is_Some.
      split; [by right | intros [->|?]; [congruence | assumption]].
Qed.

Lemma edge_line_is_line (nodes : list str) (pos : gmap (list N) (Z * Z)) (stroke : rgb)
    (e : str * str) (el : svg_elem) :
  edge_line nodes pos stroke e = Some el -> is_line el = true.
Proof.
  destruct e as [src dst]. unfold edge_line.
  destruct (pos !! src) as [[ax ay]|]; [|discriminate].
  destruct (pos !! dst) as [[bx by']|]; [|discriminate].
  repeat case_match; by intros [= <-].
Qed.

Lemma edge_line_present (nodes : list str) (stroke : rgb) (e : str * str) :
  is_Some (edge_line nodes (node_positions (max_per_row (len nodes)) nodes) stroke e)
  <-> both_present nodes e = true.
Proof.
  destruct e as [src dst]. unfold both_present, edge_line. cbn [fst snd].
  rewrite andb_true_iff, !bool_decide_eq_true.
  pose proof (node_positions_dom (max_per_row (len nodes)) nodes src) as Hsrc.
  pose proof (node_positions_dom (max_per_row (len nodes)) nodes dst) as Hdst.
  destruct (node_positions _ nodes !! src) as [[ax ay]|];
    destruct (node_positions _ nodes !! dst) as [[bx by']|].
  - split.
    + intros _. split; [apply Hsrc | apply Hdst]; by eexists.
    + intros _. repeat case_match; by eexists.
  - split; [by intros [? ?] | intros [_ H]; by apply Hdst in H as [? ?]].
  - split; [by intros [? ?] | intros [H _]; by apply Hsrc in H as [? ?]].
  - split; [by intros [? ?] | intros [H _]; by apply Hsrc in H as [? ?]].
Qed.

Lemma filter_lines_omap (nodes : list str) (pos : gmap (list N) (Z * Z)) (stroke : rgb)
    (es : list (str * str)) :
  List.filter is_line (omap (edge_line nodes pos stroke) es)
  = omap (edge_line nodes pos stroke) es.
Proof.
  induction es as [|e es IH]; [reflexivity|]. cbn [omap list_omap].
  destruct (edge_line nodes pos stroke e) as [el|] eqn:He; [|assumption].
  cbn [List.filter]. rewrite (edge_line_is_line _ _ _ _ _ He). by f_equal.
Qed.

Lemma filter_lines_node_elems (style : SvgFlowStyle) (name : str) (xy : Z * Z) :
  List.filter is_line (node_elems style name xy) = [].
Proof.
  destruct xy as [x y]. unfold node_elems. cbn [app List.filter is_line].
  rewrite List.filter_app. cbn [List.filter is_line]. rewrite app_nil_r.
  induction (enumerate (_wrap_words name 18)) as [|[i ln] l IH]; [reflexivity|].
  cbn [List.map List.filter is_line]. assumption.
Qed.

Lemma filter_lines_nodes_elems (style : SvgFlowStyle) (pos : gmap (list N) (Z * Z))
    (nodes : list str) :
  List.filter is_line (nodes_elems style pos nodes) = [].
Proof.
  unfold nodes_elems. induction nodes as [|name nodes IH]; [reflexivity|].
  cbn [flat_map]. rewrite List.filter_app, IH, app_nil_r.
  destruct (pos !! name); [apply filter_lines_node_elems | reflexivity].
Qed.

End EdgeFacts.

Section RenderFacts.

Lemma max_per_row_pos (n : Z) : 1 <= n -> 1 <= max_per_row n.
Proof. intros Hn. unfold max_per_row. repeat case_match; lia. Qed.

Lemma grid_rows_ok (n : Z) :
  1 <= n -> grid_rows n = Ok (Z.max 1 (- (- n / max_per_row n))).
Proof.
  intros Hn. unfold grid_rows, ceil_div.
  pose proof (max_per_row_pos n Hn).
  destruct (max_per_row n =? 0) eqn:Hz; [apply Z.eqb_eq in Hz; lia | reflexivity].
Qed.

Lemma len_nonempty {A : Type} (l : list A) : l <> [] -> 1 <= len l.
Proof. destruct l; [congruence|]. unfold len. simpl. lia. Qed.

Lemma max_per_row_le (n : Z) : 1 <= n -> max_per_row n <= n /\ max_per_row n <= 4.
Proof. intros Hn. unfold max_per_row. repeat case_match; lia. Qed.

Lemma grid_cols_nonempty (n : Z) : 1 <= n -> grid_cols n = max_per_row n.
Proof. intros Hn. unfold grid_cols. pose proof (max_per_row_le n Hn). lia. Qed.

Lemma needed_w_ge (n : Z) : 1 <= n -> 2 <= needed_w (grid_cols n).
Proof.
  intros Hn. rewrite (grid_cols_nonempty n Hn). pose proof (max_per_row_pos n Hn).
  unfold needed_w, pad_x, box_w, hgap. lia.
Qed.

Lemma needed_h_ge (rows : Z) : 1 <= rows -> 2 <= needed_h rows.
Proof. intros Hr. unfold needed_h, pad_y, box_h, vgap. lia. Qed.

(** An integer below [2^1024] divided by one that is at least 2 has a
    finite double. *)
Lemma true_div_float_sized (a b : Z) :
  float_sized a -> 2 <= b -> exists q, true_div a b = Ok q.
Proof.
  unfold float_sized, true_div. intros Ha Hb.
  destruct (b =? 0) eqn:Hz; [apply Z.eqb_eq in Hz; lia|].
  destruct (float_limit * Z.abs b <=? Z.abs a) eqn:Hover; [|by eexists].
  exfalso. apply Z.leb_le in Hover.
  assert (Hlimit : 2 ^ 1024 < float_limit * 2) by reflexivity.
  assert (Hpos : 0 <= float_limit) by (vm_compute; discriminate).
  pose proof (Z.mul_le_mono_nonneg_l 2 (Z.abs b) float_limit Hpos ltac:(lia)).
  lia.
Qed.

Lemma true_div_raises (a b : Z) (e : exn) :
  1 <= b -> true_div a b = Raise e -> e = OverflowError /\ float_limit * b <= Z.abs a.
Proof.
  unfold true_div. intros Hb.
  destruct (b =? 0) eqn:Hz; [apply Z.eqb_eq in Hz; lia|].
  destruct (float_limit * Z.abs b <=? Z.abs a) eqn:Hover; [|discriminate].
  intros [= <-]. apply Z.leb_le in Hover. rewrite Z.abs_eq in Hover by lia. by split.
Qed.

Lemma true_div_overflow (a b : Z) :
  1 <= b -> float_limit * b <= Z.abs a -> true_div a b = Raise OverflowError.
Proof.
  unfold true_div. intros Hb Hover.
  destruct (b =? 0) eqn:Hz; [apply Z.eqb_eq in Hz; lia|].
  rewrite Z.abs_eq by lia. by rewrite (proj2 (Z.leb_le _ _) Hover).
Qed.

Lemma fit_scale_overflow (width_px height_px nw nh : Z) :
  1 <= nw -> 1 <= nh ->
  float_limit * nw <= Z.abs width_px \/ float_limit * nh <= Z.abs height_px ->
  fit_scale width_px height_px nw nh = Raise OverflowError.
Proof.
  intros Hnw Hnh Hover. unfold fit_scale.
  destruct (true_div width_px nw) as [sw|e] eqn:Hsw.
  - destruct Hover as [Hover|Hover].
    + rewrite (true_div_overflow _ _ Hnw Hover) in Hsw. discriminate.
    + cbn [bind]. by rewrite (true_div_overflow _ _ Hnh Hover).
  - cbn [bind]. by apply true_div_raises in Hsw as [-> _].
Qed.

Lemma fit_scale_float_sized (width_px height_px nw nh : Z) :
  float_sized width_px -> float_sized height_px -> 2 <= nw -> 2 <= nh ->
  exists scale, fit_scale width_px height_px nw nh = Ok scale.
Proof.
  intros Hw Hh Hnw Hnh. unfold fit_scale.
  destruct (true_div_float_sized width_px nw Hw Hnw) as [sw ->].
  destruct (true_div_float_sized height_px nh Hh Hnh) as [sh ->].
  by eexists.
Qed.

(** The call on a non-empty node list: the scale is computed, which can
    raise, and the list [svg] is returned whatever its value is. *)
Lemma render_flow_svg_nonempty (nodes : list str) (edges : list raw_edge)
    (style : option SvgFlowStyle) (width_px height_px : Z) :
  nodes <> [] ->
  exists rows,
    grid_rows (len nodes) = Ok rows /\ 1 <= rows /\
    render_flow_svg nodes edges style width_px height_px
    = let! _ := fit_scale width_px height_px
                  (needed_w (grid_cols (len nodes))) (needed_h rows) in
      Ok (SvgOpen width_px height_px
            (0, 0, needed_w (grid_cols (len nodes)), needed_h rows)
          :: [Background (needed_w (grid_cols (len nodes))) (needed_h rows)
                (background_rgb (default default_style style));
              ArrowDefs (node_line_rgb (default default_style style))]
          ++ omap (edge_line nodes (node_positions (max_per_row (len nodes)) nodes)
                     (node_line_rgb (default default_style style)))
               (_iter_edges edges)
          ++ nodes_elems (default default_style style)
               (node_positions (max_per_row (len nodes)) nodes) nodes
          ++ [SvgClose]).
Proof.
  intros Hne. eexists. split; [apply grid_rows_ok, len_nonempty, Hne|].
  split; [lia|].
  unfold render_flow_svg. rewrite (grid_rows_ok _ (len_nonempty _ Hne)). cbn [bind].
  destruct (fit_scale _ _ _ _) as [scale|e]; cbn [bind]; [|reflexivity].
  by destruct (Qlt_le_dec scale 1).
Qed.

(** It returns for every requested size below [2^1024]. *)
Lemma render_flow_svg_sized (nodes : list str) (edges : list raw_edge)
    (style : option SvgFlowStyle) (width_px height_px : Z) :
  nodes <> [] -> float_sized width_px -> float_sized height_px ->
  exists doc, render_flow_svg nodes edges style width_px height_px = Ok doc.
Proof.
  intros Hne Hw Hh.
  destruct (render_flow_svg_nonempty nodes edges style width_px height_px Hne)
    as (rows & _ & Hrows & ->).
  destruct (fit_scale_float_sized width_px height_px
              (needed_w (grid_cols (len nodes))) (needed_h rows) Hw Hh) as [scale ->];
    [apply needed_w_ge, len_nonempty, Hne | by apply needed_h_ge |].
  by eexists.
Qed.

(** The list [svg] of a call that returns, after [SvgOpen]. *)
Lemma render_flow_svg_returns (nodes : list str) (edges : list raw_edge)
    (style : option SvgFlowStyle) (width_px height_px : Z) (doc : list svg_elem) :
  render_flow_svg nodes edges style width_px height_px = Ok doc ->
  nodes <> [] /\
  exists rows,
    grid_rows (len nodes) = Ok rows /\
    doc = SvgOpen width_px height_px
            (0, 0, needed_w (grid_cols (len nodes)), needed_h rows)
          :: [Background (needed_w (grid_cols (len nodes))) (needed_h rows)
                (background_rgb (default default_style style));
              ArrowDefs (node_line_rgb (default default_style style))]
          ++ omap (edge_line nodes (node_positions (max_per_row (len nodes)) nodes)
                     (node_line_rgb (default default_style style)))
               (_iter_edges edges)
          ++ nodes_elems (default default_style style)
               (node_positions (max_per_row (len nodes)) nodes) nodes
          ++ [SvgClose].
Proof.
  intros Hdoc.
  assert (Hne : nodes <> []) by (intros ->; discriminate Hdoc).
  split; [assumption|].
  destruct (render_flow_svg_nonempty nodes edges style width_px height_px Hne)
    as (rows & Hrows & _ & Heq).
  exists rows. split; [assumption|]. rewrite Heq in Hdoc.
  destruct (fit_scale _ _ _ _) as [scale|e]; cbn [bind] in Hdoc; [|discriminate].
  by injection Hdoc as <-.
Qed.

Lemma iter_edges_tuple (edges : list raw_edge) (src dst : str) :
  EdgeTuple [src; dst] ∈ edges \/ EdgeList [src; dst] ∈ edges ->
  (src, dst) ∈ _iter_edges edges.
Proof.
  intros Hin. unfold _iter_edges. apply list_elem_of_In, in_flat_map.
  destruct Hin as [Hin|Hin]; eexists; (split; [apply list_elem_of_In, Hin|]); by left.
Qed.

Lemma elem_of_omap_edge (f : str * str -> option svg_elem) (es : list (str * str))
    (e : str * str) (el : svg_elem) :
  e ∈ es -> f e = Some el -> el ∈ omap f es.
Proof. intros He Hf. apply list_elem_of_omap. eauto. Qed.

Lemma filter_rects_omap (nodes : list str) (pos : gmap (list N) (Z * Z)) (stroke : rgb)
    (es : list (str * str)) :
  List.filter is_node_rect (omap (edge_line nodes pos stroke) es) = [].
Proof.
  induction es as [|e es IH]; [reflexivity|]. cbn [omap list_omap].
  destruct (edge_line nodes pos stroke e) as [el|] eqn:He; [|assumption].
  pose proof (edge_line_is_line _ _ _ _ _ He). cbn [List.filter].
  destruct el; try discriminate. assumption.
Qed.

Lemma filter_rects_node_elems (style : SvgFlowStyle) (name : str) (xy : Z * Z) :
  length (List.filter is_node_rect (node_elems style name xy)) = 1%nat.
Proof.
  destruct xy as [x y]. unfold node_elems. cbn [app List.filter is_node_rect].
  rewrite List.filter_app. cbn [List.filter is_node_rect]. rewrite app_nil_r.
  induction (enumerate (_wrap_words name 18)) as [|[i ln] l IH]; [reflexivity|].
  cbn [List.map List.filter is_node_rect]. assumption.
Qed.

Lemma filter_rects_nodes_elems (style : SvgFlowStyle) (pos : gmap (list N) (Z * Z))
    (nodes : list str) :
  Forall (fun name => is_Some (pos !! name)) nodes ->
  length (List.filter is_node_rect (nodes_elems style pos nodes)) = length nodes.
Proof.
  unfold nodes_elems. induction 1 as [|name nodes [xy Hxy] _ IH]; [reflexivity|].
  cbn [flat_map]. rewrite List.filter_app, length_app, IH, Hxy, filter_rects_node_elems.
  reflexivity.
Qed.

(** On a non-empty list of distinct labels the layout is the grid of
    spec 4.1: one box per node, node [i] in cell [i], and no two
    boxes overlap. *)
Lemma grid_layout_nonempty (nodes : list str) (edges : list raw_edge)
    (style : option SvgFlowStyle) (width_px height_px : Z) :
  nodes <> [] -> NoDup nodes -> float_sized width_px -> float_sized height_px ->
  (exists doc,
      render_flow_svg nodes edges style width_px height_px = Ok doc /\
      length (List.filter is_node_rect doc) = length nodes) /\
  (forall i name, nodes !! i = Some name ->
                  node_positions (max_per_row (len nodes)) nodes !! name
                  = Some (cell (max_per_row (len nodes)) i)) /\
  (forall i j, i <> j ->
               boxes_overlap (cell (max_per_row (len nodes)) i)
                 (cell (max_per_row (len nodes)) j) = false).
Proof.
  intros Hne Hnd Hw Hh. split; [|split].
  - destruct (render_flow_svg_sized nodes edges style width_px height_px Hne Hw Hh)
      as (doc & Hdoc).
    exists doc. split; [assumption|].
    apply render_flow_svg_returns in Hdoc as (_ & rows & _ & ->).
    cbn [List.filter is_node_rect app].
    rewrite !List.filter_app, filter_rects_omap. cbn [List.filter is_node_rect app].
    rewrite app_nil_r. apply filter_rects_nodes_elems.
    apply Forall_forall. intros name Hin. by apply node_positions_dom.
  - intros i name Hi. by apply node_positions_cell.
  - intros i j Hij. apply cells_disjoint; [|assumption].
    apply max_per_row_pos, len_nonempty, Hne.
Qed.

End RenderFacts.

Section RenderTheorems.

(** C3, the failing input. With no nodes [max_per_row] is 0 and
    [math.ceil(node_count / max_per_row)] divides by zero: the call
    raises instead of laying out zero boxes. *)
Theorem render_flow_svg_no_nodes (edges : list raw_edge) (style : option SvgFlowStyle)
    (width_px height_px : Z) :
  render_flow_svg [] edges style width_px height_px = Raise ZeroDivisionError.
Proof. reflexivity. Qed.

(** C4. For an edge whose labels are both node labels, with [src_idx]
    and [dst_idx] their positions in the node list, the line goes from
    the right-middle of the source box to the left-middle of the
    destination box when [dst_idx > src_idx], from the left-middle to
    the right-middle when [dst_idx < src_idx], and from the
    bottom-middle to the top-middle when they are equal; the boxes are
    those drawn for the two labels (their grid cells when labels are
    distinct), and the line is in the document of every call that
    returns, which every call with a requested width and height below
    [2^1024] does. *)
Theorem edge_anchor_rule (nodes : list str) (src dst : str) (src_idx dst_idx : nat) :
  index_of src nodes = Some src_idx ->
  index_of dst nodes = Some dst_idx ->
  exists a b,
    nodes !! src_idx = Some src /\ nodes !! dst_idx = Some dst /\
    node_positions (max_per_row (len nodes)) nodes !! src = Some a /\
    node_positions (max_per_row (len nodes)) nodes !! dst = Some b /\
    (NoDup nodes ->
     a = cell (max_per_row (len nodes)) src_idx /\
     b = cell (max_per_row (len nodes)) dst_idx) /\
    forall stroke,
    exists ln,
      edge_line nodes (node_positions (max_per_row (len nodes)) nodes) stroke (src, dst)
      = Some ln /\
      ((dst_idx > src_idx)%nat ->
       ln = line_between (right_middle a) (left_middle b) stroke) /\
      ((dst_idx < src_idx)%nat ->
       ln = line_between (left_middle a) (right_middle b) stroke) /\
      (dst_idx = src_idx ->
       ln = line_between (bottom_middle a) (top_middle b) stroke) /\
      forall edges style width_px height_px,
        stroke = node_line_rgb (default default_style style) ->
        EdgeTuple [src; dst] ∈ edges \/ EdgeList [src; dst] ∈ edges ->
        (forall doc,
            render_flow_svg nodes edges style width_px height_px = Ok doc -> ln ∈ doc) /\
        (float_sized width_px -> float_sized height_px ->
         exists doc, render_flow_svg nodes edges style width_px height_px = Ok doc).
Proof.
  intros Hsrc Hdst.
  pose proof (index_of_lookup _ _ _ Hsrc) as Hls.
  pose proof (index_of_lookup _ _ _ Hdst) as Hld.
  assert (Hins : src ∈ nodes) by (eapply list_elem_of_lookup_2; eassumption).
  assert (Hind : dst ∈ nodes) by (eapply list_elem_of_lookup_2; eassumption).
  destruct (proj2 (node_positions_dom (max_per_row (len nodes)) nodes src) Hins)
    as [[ax ay] Ha].
  destruct (proj2 (node_positions_dom (max_per_row (len nodes)) nodes dst) Hind)
    as [[bx by'] Hb].
  exists (ax, ay), (bx, by').
  split; [assumption|]. split; [assumption|]. split; [assumption|]. split; [assumption|].
  split.
  { intros Hnd.
    rewrite (node_positions_cell _ _ _ _ Hnd Hls) in Ha.
    rewrite (node_positions_cell _ _ _ _ Hnd Hld) in Hb.
    split; congruence. }
  intros stroke.
  assert (Hline : exists ln,
             edge_line nodes (node_positions (max_per_row (len nodes)) nodes) stroke
               (src, dst) = Some ln /\
             ((dst_idx > src_idx)%nat ->
              ln = line_between (right_middle (ax, ay)) (left_middle (bx, by')) stroke) /\
             ((dst_idx < src_idx)%nat ->
              ln = line_between (left_middle (ax, ay)) (right_middle (bx, by')) stroke) /\
             (dst_idx = src_idx ->
              ln = line_between (bottom_middle (ax, ay)) (top_middle (bx, by')) stroke)).
  { unfold edge_line. rewrite Ha, Hb, Hsrc, Hdst. cbn [default from_option]. unfold id.
    destruct (src_idx <? dst_idx)%nat eqn:Hfwd;
      [apply Nat.ltb_lt in Hfwd | apply Nat.ltb_ge in Hfwd].
    - eexists. split; [reflexivity|]. split; [reflexivity | split; lia].
    - destruct (dst_idx <? src_idx)%nat eqn:Hbwd;
        [apply Nat.ltb_lt in Hbwd | apply Nat.ltb_ge in Hbwd].
      + eexists. split; [reflexivity|]. split; [lia | split; [reflexivity | lia]].
      + eexists. split; [reflexivity|]. split; [lia | split; [lia | reflexivity]]. }
  destruct Hline as (ln & Hln & Hfwd & Hbwd & Hself).
  exists ln. split; [assumption|]. split; [assumption|]. split; [assumption|].
  split; [assumption|].
  intros edges style width_px height_px -> Hedge. split.
  - intros doc (_ & rows & _ & ->)%render_flow_svg_returns.
    do 3 apply list_elem_of_further. apply elem_of_app. left.
    eapply elem_of_omap_edge; [apply iter_edges_tuple, Hedge | exact Hln].
  - apply render_flow_svg_sized. by intros ->; apply elem_of_nil in Hins.
Qed.

Lemma edge_anchor_rule_witness :
  index_of (py "A") [py "A"; py "B"] = Some 0%nat /\
  index_of (py "B") [py "A"; py "B"] = Some 1%nat /\
  edge_line [py "A"; py "B"] (node_positions 2 [py "A"; py "B"]) (79, 129, 189)
    (py "A", py "B")
  = Some (Line 420 165 500 165 (79, 129, 189)) /\
  exists doc,
    render_flow_svg [py "A"; py "B"] [EdgeTuple [py "A"; py "B"]] None 1600 900 = Ok doc /\
    Line 420 165 500 165 (79, 129, 189) ∈ doc.
Proof.
  split; [reflexivity|]. split; [reflexivity|].
  destruct (edge_anchor_rule [py "A"; py "B"] (py "A") (py "B") 0 1 eq_refl eq_refl)
    as (a & b & _ & _ & _ & _ & Hcell & Hline).
  destruct (Hline (79, 129, 189)) as (ln & Hln & Hfwd & _ & _ & Hdoc).
  destruct Hcell as [-> ->]; [by apply (bool_decide_unpack _)|].
  change (max_per_row (len [py "A"; py "B"])) with 2 in Hln.
  assert (Hval : ln = Line 420 165 500 165 (79, 129, 189)).
  { rewrite Hfwd by lia. reflexivity. }
  subst ln. split; [exact Hln|].
  destruct (Hdoc [EdgeTuple [py "A"; py "B"]] None 1600 900 eq_refl
              ltac:(left; apply list_elem_of_here)) as [Hin Hreturns].
  destruct Hreturns as [doc Hrun]; [reflexivity | reflexivity |].
  exists doc. split; [exact Hrun | exact (Hin doc Hrun)].
Defined.

(** C5, with the failing input. On a non-empty node list every call
    that returns (every call with a requested width and height below
    [2^1024] does) has, in order, exactly one line element for each
    edge of the input that is a pair of two node labels, the line that
    the loop draws for it, and none for any other edge. On the empty
    node list no edge has its labels among the nodes and the call
    raises [ZeroDivisionError] instead of returning a document without
    lines. *)
Theorem one_line_per_resolved_edge (nodes : list str) (edges : list raw_edge)
    (style : option SvgFlowStyle) (width_px height_px : Z) :
  (nodes = [] ->
   Forall (fun e => resolved nodes e = false) edges /\
   render_flow_svg nodes edges style width_px height_px = Raise ZeroDivisionError) /\
  (nodes <> [] ->
   (float_sized width_px -> float_sized height_px ->
    exists doc, render_flow_svg nodes edges style width_px height_px = Ok doc) /\
   forall doc,
     render_flow_svg nodes edges style width_px height_px = Ok doc ->
     Forall2
       (fun e ln =>
          exists p,
            endpoints e = Some p /\
            edge_line nodes (node_positions (max_per_row (len nodes)) nodes)
              (node_line_rgb (default default_style style)) p = Some ln)
       (List.filter (resolved nodes) edges) (line_elements doc) /\
     length (line_elements doc) = length (List.filter (resolved nodes) edges)).
Proof.
  split.
  - intros ->. split; [|reflexivity].
    apply Forall_forall. intros e _. unfold resolved, both_present.
    destruct (endpoints e) as [[src dst]|]; [|reflexivity]. cbn [fst].
    rewrite bool_decide_eq_false_2; [reflexivity | apply not_elem_of_nil].
  - intros Hne. split; [by apply render_flow_svg_sized|].
    intros doc (_ & rows & _ & ->)%render_flow_svg_returns.
    set (pos := node_positions (max_per_row (len nodes)) nodes).
    set (stroke := node_line_rgb (default default_style style)).
    assert (Hlines :
      line_elements
        (SvgOpen width_px height_px (0, 0, needed_w (grid_cols (len nodes)), needed_h rows)
         :: [Background (needed_w (grid_cols (len nodes))) (needed_h rows)
               (background_rgb (default default_style style));
             ArrowDefs stroke]
         ++ omap (edge_line nodes pos stroke) (_iter_edges edges)
         ++ nodes_elems (default default_style style) pos nodes
         ++ [SvgClose])
      = omap (edge_line nodes pos stroke) (_iter_edges edges)).
    { unfold line_elements. cbn [List.filter is_line app].
      rewrite !List.filter_app, filter_lines_omap, filter_lines_nodes_elems.
      cbn [List.filter is_line]. by rewrite !app_nil_r. }
    rewrite Hlines. clear Hlines.
    assert (Hall :
      Forall2
        (fun e ln => exists p, endpoints e = Some p /\ edge_line nodes pos stroke p = Some ln)
        (List.filter (resolved nodes) edges)
        (omap (edge_line nodes pos stroke) (_iter_edges edges))).
    { induction edges as [|e edges IH]; [constructor|].
      assert (Hpair : forall src dst,
                 endpoints e = Some (src, dst) ->
                 _iter_edges (e :: edges) = (src, dst) :: _iter_edges edges ->
                 Forall2
                   (fun e ln =>
                      exists p, endpoints e = Some p /\ edge_line nodes pos stroke p = Some ln)
                   (List.filter (resolved nodes) (e :: edges))
                   (omap (edge_line nodes pos stroke) (_iter_edges (e :: edges)))).
      { intros src dst Hp ->. cbn [List.filter omap list_omap].
        unfold resolved at 1. rewrite Hp.
        pose proof (edge_line_present nodes stroke (src, dst)) as Hpresent. fold pos in Hpresent.
        destruct (edge_line nodes pos stroke (src, dst)) as [ln|] eqn:Hln;
          destruct (both_present nodes (src, dst)) eqn:Hboth.
        - constructor; [by exists (src, dst) | exact IH].
        - destruct Hpresent as [Hpresent _]. by specialize (Hpresent ltac:(by eexists)).
        - destruct Hpresent as [_ Hpresent]. by destruct (Hpresent eq_refl).
        - exact IH. }
      assert (Hdrop : endpoints e = None -> _iter_edges (e :: edges) = _iter_edges edges ->
                      Forall2
                        (fun e ln =>
                           exists p, endpoints e = Some p
                                     /\ edge_line nodes pos stroke p = Some ln)
                        (List.filter (resolved nodes) (e :: edges))
                        (omap (edge_line nodes pos stroke) (_iter_edges (e :: edges)))).
      { intros Hp ->. cbn [List.filter]. unfold resolved at 1. by rewrite Hp. }
      destruct e as [[|a [|b [|c t]]] | [|a [|b [|c t]]] | ];
        first [by apply Hdrop | by eapply Hpair]. }
    split; [exact Hall|]. symmetry. by eapply Forall2_length.
Qed.

Lemma one_line_per_resolved_edge_witness :
  exists doc,
    render_flow_svg [py "A"; py "B"]
      [EdgeTuple [py "A"; py "B"]; EdgeList [py "B"; py "C"]; EdgeOther;
       EdgeList [py "B"; py "A"]] None 1600 900
    = Ok doc /\
    line_elements doc
    = [Line 420 165 500 165 (79, 129, 189); Line 500 165 420 165 (79, 129, 189)].
Proof.
  destruct (proj2 (one_line_per_resolved_edge [py "A"; py "B"]
                     [EdgeTuple [py "A"; py "B"]; EdgeList [py "B"; py "C"]; EdgeOther;
                      EdgeList [py "B"; py "A"]]
                     None 1600 900) ltac:(discriminate))
    as [Hreturns Hlines].
  destruct Hreturns as [doc Hdoc]; [reflexivity | reflexivity |].
  exists doc. split; [exact Hdoc|].
  destruct (Hlines doc Hdoc) as [Hall _].
  change (List.filter _ _)
    with [EdgeTuple [py "A"; py "B"]; EdgeList [py "B"; py "A"]] in Hall.
  inversion Hall as [|e1 ln1 es1 lns1 (p1 & Hp1 & Hl1) Hall1 He1 Hd1]. subst.
  inversion Hall1 as [|e2 ln2 es2 lns2 (p2 & Hp2 & Hl2) Hall2 He2 Hd2]. subst.
  inversion Hall2. subst.
  injection Hp1 as <-. injection Hp2 as <-.
  vm_compute in Hl1. vm_compute in Hl2. congruence.
Defined.

(** C8, the claim as stated fails: the scale is a float, and for a
    requested width beyond the range of a float its computation raises
    [OverflowError], so no document is returned. *)
Lemma render_flow_svg_overflow :
  render_flow_svg [py "A"] [] None (10 ^ 400) 900 = Raise OverflowError.
Proof. vm_compute. reflexivity. Qed.

(** C8 as amended. On a non-empty node list the fit scale is
    [min(width_px / needed_w, height_px / needed_h, 1.0)] in floats,
    hence at most 1; computing it raises [OverflowError] exactly when
    a quotient is beyond the range of a float, which no requested size
    below [2^1024] is, and raises nothing else; and its value never
    reaches the document: when it is computed the view box is [0 0
    needed_w needed_h], and apart from the requested width and height
    echoed in the opening tag the document is the same for every
    requested size, so for every value of the scale. *)
Theorem fit_scale_never_applied (nodes : list str) (edges : list raw_edge)
    (style : option SvgFlowStyle) :
  nodes <> [] ->
  exists rows rest,
    grid_rows (len nodes) = Ok rows /\
    forall width_px height_px,
      render_flow_svg nodes edges style width_px height_px
      = (let! _ := fit_scale width_px height_px
                     (needed_w (grid_cols (len nodes))) (needed_h rows) in
         Ok (SvgOpen width_px height_px
               (0, 0, needed_w (grid_cols (len nodes)), needed_h rows) :: rest)) /\
      (forall scale,
          fit_scale width_px height_px (needed_w (grid_cols (len nodes))) (needed_h rows)
          = Ok scale ->
          (scale <= 1)%Q /\
          exists sw sh,
            true_div width_px (needed_w (grid_cols (len nodes))) = Ok sw /\
            true_div height_px (needed_h rows) = Ok sh /\
            scale = Qmin (Qmin sw sh) 1) /\
      (forall e,
          fit_scale width_px height_px (needed_w (grid_cols (len nodes))) (needed_h rows)
          = Raise e ->
          e = OverflowError /\
          (float_limit * needed_w (grid_cols (len nodes)) <= Z.abs width_px
           \/ float_limit * needed_h rows <= Z.abs height_px)) /\
      (float_limit * needed_w (grid_cols (len nodes)) <= Z.abs width_px
       \/ float_limit * needed_h rows <= Z.abs height_px ->
       fit_scale width_px height_px (needed_w (grid_cols (len nodes))) (needed_h rows)
       = Raise OverflowError) /\
      (float_sized width_px -> float_sized height_px ->
       exists scale,
         fit_scale width_px height_px (needed_w (grid_cols (len nodes))) (needed_h rows)
         = Ok scale).
Proof.
  intros Hne.
  destruct (render_flow_svg_nonempty nodes edges style 0 0 Hne) as (rows & Hrows & Hpos & _).
  pose proof (needed_w_ge _ (len_nonempty _ Hne)) as Hnw.
  pose proof (needed_h_ge _ Hpos) as Hnh.
  eexists rows, _. split; [exact Hrows|].
  intros width_px height_px.
  split; [|split; [|split; [|split]]].
  - destruct (render_flow_svg_nonempty nodes edges style width_px height_px Hne)
      as (rows' & Hrows' & _ & ->).
    rewrite Hrows in Hrows'. injection Hrows' as <-. reflexivity.
  - intros scale Hscale. unfold fit_scale in Hscale.
    destruct (true_div width_px _) as [sw|]; [|discriminate].
    destruct (true_div height_px _) as [sh|]; [|discriminate].
    injection Hscale as <-. split; [apply Q.le_min_r|]. by exists sw, sh.
  - intros e He. unfold fit_scale in He.
    destruct (true_div width_px _) as [sw|e1] eqn:Hsw.
    + destruct (true_div height_px _) as [sh|e2] eqn:Hsh; [discriminate|].
      injection He as <-.
      apply true_div_raises in Hsh as [-> Hover]; [|lia]. by split; [|right].
    + injection He as <-.
      apply true_div_raises in Hsw as [-> Hover]; [|lia]. by split; [|left].
  - apply fit_scale_overflow; lia.
  - intros Hw Hh. by apply fit_scale_float_sized.
Qed.

Lemma fit_scale_never_applied_witness :
  exists rest,
    render_flow_svg [py "A"; py "B"] [] None 460 900
    = Ok (SvgOpen 460 900 (0, 0, 920, 330) :: rest) /\
    fit_scale 460 900 920 330 = Ok (1 # 2)%Q /\
    render_flow_svg [py "A"; py "B"] [] None 1600 900
    = Ok (SvgOpen 1600 900 (0, 0, 920, 330) :: rest) /\
    fit_scale 1600 900 920 330 = Ok 1%Q.
Proof.
  destruct (fit_scale_never_applied [py "A"; py "B"] [] None ltac:(discriminate))
    as (rows & rest & Hrows & Hany).
  injection Hrows as <-.
  assert (Hhalf : fit_scale 460 900 920 330 = Ok (1 # 2)%Q) by (vm_compute; reflexivity).
  assert (Hone : fit_scale 1600 900 920 330 = Ok 1%Q) by (vm_compute; reflexivity).
  exists rest. split; [|split; [exact Hhalf|split; [|exact Hone]]].
  - destruct (Hany 460 900) as [-> _].
    transitivity (let! _ := fit_scale 460 900 920 330 in
                  Ok (SvgOpen 460 900 (0, 0, 920, 330) :: rest)); [reflexivity|].
    by rewrite Hhalf.
  - destruct (Hany 1600 900) as [-> _].
    transitivity (let! _ := fit_scale 1600 900 920 330 in
                  Ok (SvgOpen 1600 900 (0, 0, 920, 330) :: rest)); [reflexivity|].
    by rewrite Hone.
Defined.

End RenderTheorems.

(** * Bullet coercion *)

Section BulletFacts.

Lemma lstrip_nonempty (s : str) : Exists ink s -> lstrip s <> [].
Proof.
  induction 1 as [c s Hc|c s _ IH]; simpl.
  - unfold ink in Hc. by rewrite Hc.
  - by destruct (isspace c).
Qed.

Lemma lstrip_ink_kept (s : str) : Exists ink s -> Exists ink (lstrip s).
Proof.
  induction 1 as [c s Hc|c s H IH]; simpl.
  - pose proof Hc as Hc'. unfold ink in Hc'. rewrite Hc'. by constructor.
  - destruct (isspace c) eqn:Hc; [assumption|]. by apply Exists_cons_tl.
Qed.

Lemma lstrip_elem (x : char) (s : str) : x ∈ lstrip s -> x ∈ s.
Proof.
  induction s as [|c s IH]; simpl; [done|].
  destruct (isspace c); [|done]. intros H. by apply list_elem_of_further, IH.
Qed.

Lemma Exists_rev_ink (s : str) : Exists ink s -> Exists ink (rev s).
Proof.
  intros H. apply Exists_exists in H as (c & Hin & Hc).
  apply Exists_exists. exists c. split; [|assumption].
  apply list_elem_of_In, in_rev. rewrite rev_involutive. by apply list_elem_of_In.
Qed.

Lemma strip_ink_kept (s : str) : Exists ink s -> Exists ink (strip s).
Proof.
  intros H. unfold strip, rstrip.
  by apply Exists_rev_ink, lstrip_ink_kept, Exists_rev_ink, lstrip_ink_kept.
Qed.

Lemma strip_nonempty (s : str) : Exists ink s -> strip s <> [].
Proof.
  intros H Hnil. apply strip_ink_kept in H. rewrite Hnil in H. inversion H.
Qed.

Lemma strip_elem (x : char) (s : str) : x ∈ strip s -> x ∈ s.
Proof.
  unfold strip, rstrip. intros H.
  apply list_elem_of_In, in_rev, list_elem_of_In, lstrip_elem in H.
  apply list_elem_of_In, in_rev, list_elem_of_In in H.
  by apply lstrip_elem.
Qed.

(** A non-empty result of [strip] has a non-space character, hence so
    has the string it came from. *)
Lemma strip_result_ink (s : str) : strip s <> [] -> Exists ink (strip s).
Proof.
  unfold strip, rstrip. intros Hne.
  destruct (lstrip (rev (lstrip s))) as [|c t] eqn:Hl; [by simpl in Hne|].
  assert (Hc : ink c).
  { clear Hne. revert Hl. generalize (rev (lstrip s)). intros u.
    induction u as [|a u IH]; simpl; [discriminate|].
    destruct (isspace a) eqn:Ha; [apply IH|]. by intros [= <- _]. }
  apply Exists_rev_ink. by constructor.
Qed.

Lemma split_on_nonempty (c : char) (s : str) : split_on c s <> [].
Proof.
  induction s as [|x s IH]; simpl; [discriminate|].
  destruct (x =? c)%N; [discriminate|]. by destruct (split_on c s).
Qed.

Lemma split_on_no_sep (c : char) (s : str) : Forall (fun f => c ∉ f) (split_on c s).
Proof.
  induction s as [|x s IH]; simpl.
  - constructor; [apply not_elem_of_nil | constructor].
  - destruct (x =? c)%N eqn:Hx.
    + constructor; [apply not_elem_of_nil | assumption].
    + destruct (split_on c s) as [|f fs]; inversion IH; subst.
      * constructor; [|constructor]. apply N.eqb_neq in Hx.
        intros ->%list_elem_of_singleton. congruence.
      * constructor; [|assumption]. apply N.eqb_neq in Hx.
        apply not_elem_of_cons. split; [congruence | assumption].
Qed.

Lemma split_on_ink (c : char) (s : str) :
  isspace c = true -> Exists ink s -> Exists (Exists ink) (split_on c s).
Proof.
  intros Hc. induction s as [|x s IH]; intros H; [inversion H|]. simpl.
  destruct (x =? c)%N eqn:Hx.
  - apply N.eqb_eq in Hx as ->. apply Exists_cons_tl, IH.
    inversion H as [? ? Hi|]; subst; [unfold ink in Hi; congruence | assumption].
  - pose proof (split_on_nonempty c s) as Hne.
    destruct (split_on c s) as [|f fs]; [congruence|].
    inversion H as [? ? Hi|? ? Hs]; subst.
    + apply Exists_cons_hd. by constructor.
    + specialize (IH Hs). inversion IH as [? ? Hf|? ? Hfs]; subst.
      * apply Exists_cons_hd. by apply Exists_cons_tl.
      * by apply Exists_cons_tl.
Qed.

Lemma split_on_join (c : char) (ls : list str) :
  ls <> [] -> Forall (fun f => c ∉ f) ls -> split_on c (join [c] ls) = ls.
Proof.
  induction ls as [|l ls IH]; [congruence|]. intros _ Hall.
  apply Forall_cons in Hall as [Hl Hls].
  destruct ls as [|l' ls].
  - simpl. clear IH Hls. induction l as [|x l IH]; [reflexivity|]. simpl.
    apply not_elem_of_cons in Hl as [Hx Hl].
    destruct (x =? c)%N eqn:Hxc; [apply N.eqb_eq in Hxc; congruence|].
    by rewrite (IH Hl).
  - rewrite join_cons2. specialize (IH ltac:(discriminate) Hls).
    clear Hls. induction l as [|x l IHl].
    + cbn [app split_on]. rewrite N.eqb_refl. by rewrite IH.
    + apply not_elem_of_cons in Hl as [Hx Hl]. cbn [app split_on].
      destruct (x =? c)%N eqn:Hxc; [apply N.eqb_eq in Hxc; congruence|].
      cbn [app] in IHl. by rewrite (IHl Hl).
Qed.

Lemma replace_from_elem (old new : str) (x : char) (s : str) :
  forall k, x ∈ replace_from old new k s -> x ∈ new \/ x ∈ s.
Proof.
  induction s as [|c s IH]; intros k; simpl; [by right|].
  destruct k as [|k].
  - destruct (startswith old (c :: s)).
    + intros [H|H]%elem_of_app; [by left|].
      destruct (IH _ H); [by left | right; by apply list_elem_of_further].
    + intros [->|H]%elem_of_cons; [right; apply list_elem_of_here|].
      destruct (IH _ H); [by left | right; by apply list_elem_of_further].
  - intros H. destruct (IH _ H); [by left | right; by apply list_elem_of_further].
Qed.

Lemma startswith_two (x y : char) (ln : str) :
  startswith [x; y] ln = true -> exists t, ln = x :: y :: t.
Proof.
  destruct ln as [|a [|b t]]; cbn [startswith];
    rewrite ?andb_false_r, ?andb_true_r; try discriminate.
  intros [Ha Hb]%andb_true_iff. apply N.eqb_eq in Ha as <-, Hb as <-. by eexists.
Qed.

Lemma fix_bullet_prefix (ln : str) : startswith (py "- ") (fix_bullet ln) = true.
Proof.
  unfold fix_bullet.
  destruct (startswith (py "- ") ln) eqn:Hh; cbn [orb].
  - apply (startswith_two 45 32) in Hh as [t ->]. reflexivity.
  - destruct (startswith (BULLET :: py " ") ln) eqn:Hb; [|reflexivity].
    apply (startswith_two 8226 32) in Hb as [t ->]. reflexivity.
Qed.

Lemma fix_bullet_no_newline (ln : str) : NL ∉ ln -> NL ∉ fix_bullet ln.
Proof.
  intros Hln. unfold fix_bullet.
  destruct (startswith (py "- ") ln || startswith (BULLET :: py " ") ln).
  - intros [H|H]%replace_from_elem; [|contradiction].
    vm_compute in H. repeat (apply elem_of_cons in H as [H|H]; [discriminate|]).
    by apply elem_of_nil in H.
  - intros [H|H]%elem_of_app; [|contradiction].
    vm_compute in H. repeat (apply elem_of_cons in H as [H|H]; [discriminate|]).
    by apply elem_of_nil in H.
Qed.

Lemma nonblank_lines (text : str) :
  Exists ink text ->
  List.filter nonempty (List.map strip (split_on NL text)) <> [].
Proof.
  intros H. apply (split_on_ink NL) in H; [|reflexivity].
  induction H as [f fs Hf|f fs _ IH]; simpl.
  - pose proof (strip_nonempty f Hf). by destruct (strip f).
  - by destruct (nonempty (strip f)).
Qed.

Lemma lines_no_newline (text : str) :
  Forall (fun ln => NL ∉ ln) (List.filter nonempty (List.map strip (split_on NL text))).
Proof.
  pose proof (split_on_no_sep NL text) as H.
  induction H as [|f fs Hf _ IH]; simpl; [constructor|].
  destruct (nonempty (strip f)); [|assumption].
  constructor; [|assumption]. intros Hin. by apply Hf, strip_elem.
Qed.

Lemma prefixed_lines_spec (text : str) :
  Exists ink text ->
  prefixed_lines text <> [] /\
  (length (prefixed_lines text) <= 8)%nat /\
  Forall (fun ln => NL ∉ ln) (prefixed_lines text) /\
  Forall (fun ln => startswith (py "- ") ln = true) (prefixed_lines text).
Proof.
  intros Hink. unfold prefixed_lines.
  pose proof (nonblank_lines text Hink) as Hne.
  pose proof (lines_no_newline text) as Hnl.
  set (lines := List.filter nonempty (List.map strip (split_on NL text))) in *.
  split; [|split; [|split]].
  - destruct lines; [congruence | discriminate].
  - rewrite List.length_map, length_take. lia.
  - apply Forall_forall. intros ln (l0 & <- & Hin)%list_elem_of_In%in_map_iff.
    apply fix_bullet_no_newline.
    rewrite Forall_forall in Hnl. apply Hnl.
    eapply elem_of_take_list, list_elem_of_In, Hin.
  - apply Forall_forall. intros ln (l0 & <- & Hin)%list_elem_of_In%in_map_iff.
    apply fix_bullet_prefix.
Qed.

Lemma key_points_ink : Exists ink key_points.
Proof. by apply Exists_cons_hd. Qed.

Lemma hyphen_head_ink (s : str) : Exists ink (py "- " ++ s).
Proof. by apply Exists_cons_hd. Qed.

Lemma sentence_bullets_ink (text : str) : Exists ink (sentence_bullets text).
Proof.
  unfold sentence_bullets.
  set (parts := List.filter nonempty _).
  destruct (2 <=? len parts) eqn:Hlen; [|apply hyphen_head_ink].
  apply Z.leb_le in Hlen. destruct parts as [|p [|q parts]]; unfold len in Hlen;
    simpl in Hlen; try lia.
  cbn [take List.map]. rewrite join_cons2. apply hyphen_head_ink.
Qed.

(** The content written by [coerce_bullets] is a newline-delimited list
    of at most 8 lines, each starting with hyphen and space. *)
Lemma bullet_text_bullets (content : str) :
  bullet_list any_length (bullet_text content) = true.
Proof.
  unfold bullet_text.
  set (text0 := if nonempty (strip content) then strip content else key_points).
  assert (H0 : Exists ink text0).
  { subst text0. destruct (strip content) as [|c t] eqn:Hs; simpl nonempty; cbv iota.
    - apply key_points_ink.
    - rewrite <- Hs. apply strip_result_ink. by rewrite Hs. }
  set (text := if negb (contains NL text0) then sentence_bullets text0 else text0).
  assert (H1 : Exists ink text).
  { subst text. destruct (negb (contains NL text0)); [apply sentence_bullets_ink | done]. }
  destruct (prefixed_lines_spec text H1) as (Hne & Hlen & Hnl & Hpre).
  unfold bullet_list. rewrite (split_on_join NL _ Hne Hnl).
  apply andb_true_iff. split.
  - apply Z.leb_le. unfold len. lia.
  - apply forallb_forall. intros b Hb. rewrite Forall_forall in Hpre.
    rewrite (Hpre b) by (by apply list_elem_of_In). reflexivity.
Qed.

End BulletFacts.

(** * [normalize_presentation_spec], step by step *)

Section PlannerFacts.

Lemma map_fmap {A B : Type} (f : A -> B) (l : list A) : List.map f l = f <$> l.
Proof. induction l as [|x l IH]; [reflexivity|]. simpl. by rewrite IH. Qed.

Lemma truthy_nonempty {A : Type} (l : list A) : truthy l = true <-> l <> [].
Proof. destruct l; simpl; split; congruence. Qed.

Lemma append_steps_length {A : Type} (mk : nat -> A) (k : nat) :
  forall l, length (append_steps k mk l) = (length l + k)%nat.
Proof.
  induction k as [|k IH]; intros l; simpl; [lia|].
  rewrite IH, length_app. simpl. lia.
Qed.

Lemma append_steps_Forall {A : Type} (P : A -> Prop) (mk : nat -> A) (k : nat) :
  (forall i, P (mk i)) -> forall l, Forall P l -> Forall P (append_steps k mk l).
Proof.
  intros Hmk. induction k as [|k IH]; intros l Hl; simpl; [assumption|].
  apply IH, Forall_app. split; [assumption|]. constructor; [apply Hmk | constructor].
Qed.

Lemma append_steps_lookup {A : Type} (mk : nat -> A) (k : nat) :
  forall l i, (i < length l)%nat -> append_steps k mk l !! i = l !! i.
Proof.
  induction k as [|k IH]; intros l i Hi; simpl; [reflexivity|].
  rewrite IH by (rewrite length_app; lia). by rewrite lookup_app_l.
Qed.

Lemma enforce_count_length (topic : str) (n : Z) (l : list SlideSpec) :
  0 <= n -> length (enforce_count topic n l) = Z.to_nat n.
Proof.
  intros Hn. unfold enforce_count, while_shorter, slice_to.
  rewrite append_steps_length.
  destruct (n <? len l) eqn:Hlt; unfold len in *.
  - apply Z.ltb_lt in Hlt. destruct (n <? 0) eqn:Hneg; [apply Z.ltb_lt in Hneg; lia|].
    rewrite length_take. lia.
  - apply Z.ltb_ge in Hlt. lia.
Qed.

Lemma append_steps_lookup_new {A : Type} (mk : nat -> A) (k : nat) :
  forall l i, (length l <= i < length l + k)%nat -> append_steps k mk l !! i = Some (mk i).
Proof.
  induction k as [|k IH]; intros l i Hi; [lia|]. cbn [append_steps].
  destruct (decide (i = length l)) as [->|Hne].
  - rewrite append_steps_lookup by (rewrite length_app; simpl; lia).
    rewrite lookup_app_r by lia. by rewrite Nat.sub_diag.
  - apply IH. rewrite length_app. simpl. lia.
Qed.

Lemma enforce_count_lookup (topic : str) (n : Z) (l : list SlideSpec) (i : nat) :
  (i < Z.to_nat n)%nat ->
  enforce_count topic n l !! i = Some (default (pad_slide topic i) (l !! i)).
Proof.
  intros Hi. unfold enforce_count, while_shorter, slice_to, len.
  destruct (n <? Z.of_nat (length l)) eqn:Hlt.
  - apply Z.ltb_lt in Hlt.
    destruct (n <? 0) eqn:Hneg; [apply Z.ltb_lt in Hneg; lia|].
    rewrite append_steps_lookup by (rewrite length_take; lia).
    rewrite lookup_take_lt by lia.
    destruct (lookup_lt_is_Some_2 l i ltac:(lia)) as [s Hs]. by rewrite Hs.
  - apply Z.ltb_ge in Hlt.
    destruct (l !! i) as [s|] eqn:Hs.
    + rewrite append_steps_lookup by (by eapply lookup_lt_Some). by rewrite Hs.
    + apply lookup_ge_None in Hs. rewrite append_steps_lookup_new by lia. reflexivity.
Qed.

Lemma pad_slide_valid (topic : str) (i : nat) : slide_valid (pad_slide topic i) = true.
Proof. reflexivity. Qed.

Lemma enforce_count_valid (topic : str) (n : Z) (l : list SlideSpec) :
  valid_slides l -> valid_slides (enforce_count topic n l).
Proof.
  intros Hl. unfold enforce_count, while_shorter, valid_slides.
  apply append_steps_Forall; [apply pad_slide_valid|].
  destruct (n <? len l); [|assumption].
  unfold slice_to. destruct (n <? 0); by apply Forall_take.
Qed.

Lemma force_intro_spec (l : list SlideSpec) :
  l <> [] ->
  exists l',
    force_intro l = Ok l' /\ length l' = length l /\
    (exists s, l' !! 0%nat = Some s /\ type s = intro) /\
    (valid_slides l -> valid_slides l') /\
    (forall i, i <> 0%nat -> l' !! i = l !! i).
Proof.
  destruct l as [|s rest]; [congruence|]. intros _. unfold force_intro.
  destruct (decide (type s <> intro)) as [Hne|Heq].
  - eexists. split; [reflexivity|]. split; [reflexivity|].
    split; [by eexists|]. split.
    + intros [Hs Hr]%Forall_cons. by constructor.
    + by intros [|i].
  - eexists. split; [reflexivity|]. split; [reflexivity|].
    split; [|done]. exists s. split; [reflexivity|].
    by destruct (decide (type s = intro)).
Qed.

Lemma force_summary_spec (l : list SlideSpec) :
  l <> [] ->
  exists l',
    force_summary l = Ok l' /\ length l' = length l /\
    (exists s, l' !! pred (length l) = Some s /\ type s = summary) /\
    (valid_slides l -> valid_slides l') /\
    (forall i, i <> pred (length l) -> l' !! i = l !! i).
Proof.
  intros Hne. unfold force_summary. rewrite last_lookup.
  assert (Hlt : (pred (length l) < length l)%nat) by (destruct l; [congruence | simpl; lia]).
  destruct (lookup_lt_is_Some_2 l _ Hlt) as [s Hs]. rewrite Hs.
  destruct (decide (type s <> summary)) as [Hns|Heq].
  - eexists. split; [reflexivity|]. split; [apply length_insert|].
    split; [|split].
    + eexists. split; [by apply list_lookup_insert_eq | reflexivity].
    + intros Hv. apply Forall_insert; [assumption|].
      unfold valid_slides in Hv. rewrite Forall_forall in Hv.
      apply (Hv s). eapply list_elem_of_lookup_2, Hs.
    + intros i Hi. by apply list_lookup_insert_ne.
  - eexists. split; [reflexivity|]. split; [reflexivity|].
    split; [|done]. exists s. split; [assumption|].
    by destruct (decide (type s = summary)).
Qed.

(** What the two forcing statements leave at each position. *)
Lemma force_intro_lookup (l l' : list SlideSpec) :
  force_intro l = Ok l' ->
  length l' = length l /\
  l' !! 0%nat
  = (fun s => if decide (type s <> intro) then with_type intro s else s) <$> l !! 0%nat /\
  (forall i, i <> 0%nat -> l' !! i = l !! i).
Proof.
  unfold force_intro. destruct l as [|s rest]; [discriminate|].
  destruct (decide (type s <> intro)) as [Hne|Heq]; intros [= <-].
  - split; [reflexivity|]. split; [|by intros [|i]].
    cbn [lookup list_lookup fmap option_fmap option_map].
    by destruct (decide (type s <> intro)).
  - split; [reflexivity|]. split; [|done].
    cbn [lookup list_lookup fmap option_fmap option_map].
    by destruct (decide (type s <> intro)).
Qed.

Lemma force_summary_lookup (l l' : list SlideSpec) :
  force_summary l = Ok l' ->
  length l' = length l /\
  l' !! pred (length l)
  = (fun s => if decide (type s <> summary)
              then with_title (py "Summary") (with_type summary s) else s)
      <$> l !! pred (length l) /\
  (forall i, i <> pred (length l) -> l' !! i = l !! i).
Proof.
  unfold force_summary. rewrite last_lookup.
  destruct (l !! pred (length l)) as [s|] eqn:Hs; [|discriminate].
  cbn [fmap option_fmap option_map].
  destruct (decide (type s <> summary)) as [Hne|Heq]; intros [= <-].
  - split; [apply length_insert|]. split.
    + apply list_lookup_insert_eq. by eapply lookup_lt_Some.
    + intros i Hi. by apply list_lookup_insert_ne.
  - split; [reflexivity|]. split; [assumption | done].
Qed.

Lemma coerce_bullets_type (s : SlideSpec) : type (coerce_bullets s) = type s.
Proof. unfold coerce_bullets. destruct (type s) eqn:Ht; simpl; congruence. Qed.

Lemma coerce_bullets_diagram (s : SlideSpec) : diagram (coerce_bullets s) = diagram s.
Proof. unfold coerce_bullets. destruct (type s); reflexivity. Qed.

Lemma coerce_bullets_bulleted (s : SlideSpec) : bulleted (coerce_bullets s).
Proof.
  unfold bulleted, coerce_bullets.
  destruct (type s) eqn:Ht; simpl; rewrite ?Ht;
    try (intros [?|?]; discriminate); intros _; apply bullet_text_bullets.
Qed.

Lemma coerce_all_valid (l : list SlideSpec) :
  valid_slides l -> valid_slides (List.map coerce_bullets l).
Proof.
  unfold valid_slides. induction 1 as [|s l Hs _ IH]; simpl; constructor; [|assumption].
  unfold slide_valid in *. by rewrite coerce_bullets_diagram.
Qed.

Lemma coerce_all_bulleted (l : list SlideSpec) : Forall bulleted (List.map coerce_bullets l).
Proof. induction l; simpl; constructor; [apply coerce_bullets_bulleted | assumption]. Qed.

Lemma coerce_all_type (l : list SlideSpec) (i : nat) (ty : SlideType) :
  (exists s, l !! i = Some s /\ type s = ty) ->
  exists s, List.map coerce_bullets l !! i = Some s /\ type s = ty.
Proof.
  intros (s & Hs & Ht). exists (coerce_bullets s).
  rewrite map_fmap, list_lookup_fmap, Hs. split; [reflexivity|].
  by rewrite coerce_bullets_type.
Qed.

(** The index [mid] of [ensure_flow] is an interior position. *)
Lemma mid_interior (n : nat) :
  (3 <= n)%nat ->
  (1 <= Z.to_nat (Z.max 1 (Z.min (Z.of_nat n - 2) (Z.of_nat n / 2))) <= n - 2)%nat.
Proof.
  intros Hn. pose proof (Z.div_pos (Z.of_nat n) 2 ltac:(lia) ltac:(lia)). lia.
Qed.

Lemma mid_in_range (n : nat) :
  (2 <= n)%nat ->
  (Z.to_nat (Z.max 1 (Z.min (Z.of_nat n - 2) (Z.of_nat n / 2))) < n)%nat.
Proof. intros Hn. lia. Qed.

Lemma existsb_insert {A : Type} (f : A -> bool) (l : list A) (i : nat) (x : A) :
  (i < length l)%nat -> f x = true -> existsb f (<[i := x]> l) = true.
Proof.
  intros Hi Hx. apply existsb_exists. exists x. split; [|assumption].
  apply list_elem_of_In. eapply list_elem_of_lookup_2.
  by apply list_lookup_insert_eq.
Qed.

Lemma ensure_flow_spec (l : list SlideSpec) :
  (2 <= length l)%nat ->
  exists l',
    ensure_flow l = Ok l' /\ length l' = length l /\
    existsb is_flow_with_diagram l' = true /\
    (valid_slides l -> valid_slides l') /\
    (Forall bulleted l -> Forall bulleted l') /\
    ((3 <= length l)%nat ->
     l' !! 0%nat = l !! 0%nat /\ l' !! pred (length l) = l !! pred (length l)).
Proof.
  intros Hlen. unfold ensure_flow.
  destruct (existsb is_flow_with_diagram l) eqn:Hflow.
  - exists l. repeat split; done.
  - unfold len. set (mid := Z.to_nat _).
    pose proof (mid_in_range _ Hlen) as Hmid. fold mid in Hmid.
    destruct (lookup_lt_is_Some_2 l mid Hmid) as [s Hs]. rewrite Hs.
    eexists. split; [reflexivity|]. split; [apply length_insert|].
    split; [by apply existsb_insert|]. split; [|split].
    + intros Hv. by apply Forall_insert.
    + intros Hb. apply Forall_insert; [assumption|].
      intros [?|?]; discriminate.
    + intros H3. pose proof (mid_interior _ H3) as Hint. fold mid in Hint.
      split; apply list_lookup_insert_ne; lia.
Qed.

Lemma model_validate_ok (p : PresentationSpec) :
  slides p <> [] -> valid_slides (slides p) -> model_validate p = Ok p.
Proof.
  intros Hne Hv. unfold model_validate.
  rewrite (proj2 (truthy_nonempty _) Hne).
  unfold valid_slides in Hv. rewrite Forall_forall in Hv.
  rewrite (proj2 (forallb_forall _ _)); [reflexivity|].
  intros s Hs. by apply Hv, list_elem_of_In.
Qed.

Lemma model_validate_same (p q : PresentationSpec) : model_validate p = Ok q -> q = p.
Proof. unfold model_validate. case_match; [by intros [= <-] | discriminate]. Qed.

Lemma model_validate_error (p : PresentationSpec) (e : exn) :
  model_validate p = Raise e -> e = ValidationError.
Proof. unfold model_validate. case_match; [discriminate | by intros [= <-]]. Qed.

End PlannerFacts.

Section MockFacts.
Variable topic : str.

Lemma mock_presentation_slides (n : Z) :
  slides (mock_presentation topic n)
  = slice_to n (while_shorter (Z.max (n - 1) 3) mock_step (mock_opening topic) ++ [mock_closing]).
Proof. reflexivity. Qed.

Lemma mock_before_slice_valid (n : Z) :
  valid_slides (while_shorter (Z.max (n - 1) 3) mock_step (mock_opening topic) ++ [mock_closing]).
Proof.
  apply Forall_app. split; [|by constructor].
  unfold while_shorter. apply append_steps_Forall; [done|].
  by repeat constructor.
Qed.

Lemma mock_presentation_valid (n : Z) :
  1 <= n -> model_validate (mock_presentation topic n) = Ok (mock_presentation topic n).
Proof.
  intros Hn. apply model_validate_ok; rewrite mock_presentation_slides.
  - unfold slice_to. destruct (n <? 0) eqn:Hneg; [apply Z.ltb_lt in Hneg; lia|].
    unfold while_shorter.
    intros Hnil. apply (f_equal (@length _)) in Hnil.
    rewrite length_take, length_app, append_steps_length in Hnil. simpl in Hnil. lia.
  - pose proof (mock_before_slice_valid n) as Hv.
    unfold slice_to. destruct (n <? 0); by apply Forall_take.
Qed.

Lemma mock_presentation_deck (n : Z) :
  4 <= n ->
  length (slides (mock_presentation topic n)) = Z.to_nat n /\
  (exists s, slides (mock_presentation topic n) !! 0%nat = Some s /\ type s = intro) /\
  (exists s, slides (mock_presentation topic n) !! pred (Z.to_nat n) = Some s
             /\ type s = summary) /\
  (exists s, slides (mock_presentation topic n) !! 2%nat = Some s
             /\ is_flow_with_diagram s = true).
Proof.
  intros Hn. rewrite mock_presentation_slides.
  unfold slice_to. destruct (n <? 0) eqn:Hneg; [apply Z.ltb_lt in Hneg; lia|].
  unfold while_shorter.
  set (k := Z.to_nat (Z.max (n - 1) 3 - len (mock_opening topic))).
  assert (Hk : (length (append_steps k mock_step (mock_opening topic)) = Z.to_nat n - 1)%nat).
  { rewrite append_steps_length. subst k. unfold len. simpl. lia. }
  rewrite take_ge by (rewrite length_app, Hk; simpl; lia).
  split; [rewrite length_app, Hk; simpl; lia|].
  split; [|split].
  - eexists. split; [|shelve].
    rewrite lookup_app_l by lia. rewrite append_steps_lookup by (simpl; lia).
    reflexivity.
    Unshelve. reflexivity.
  - exists mock_closing. split; [|reflexivity].
    rewrite lookup_app_r by lia.
    replace (pred (Z.to_nat n) - length (append_steps k mock_step (mock_opening topic)))%nat
      with 0%nat by lia.
    reflexivity.
  - eexists. split; [|shelve].
    rewrite lookup_app_l by lia. rewrite append_steps_lookup by (simpl; lia).
    reflexivity.
    Unshelve. reflexivity.
Qed.

End MockFacts.

Section NormalizeTheorems.

Lemma bulleted_forallb (l : list SlideSpec) :
  Forall bulleted l ->
  forallb (fun s => match type s with
                    | process | summary => bullet_list any_length (content s)
                    | _ => true
                    end) l = true.
Proof.
  intros H. apply forallb_forall. intros s Hs.
  rewrite Forall_forall in H. specialize (H s (proj2 (list_elem_of_In _ _) Hs)).
  unfold bulleted in H. destruct (type s); auto.
Qed.

(** The path of [normalize_presentation_spec] on a deck with slides, up
    to the final validation. *)
Lemma normalize_stages (topic : str) (n : Z) (l : list SlideSpec) :
  2 <= n ->
  exists l1 l2 l3,
    force_intro (enforce_count topic n l) = Ok l1 /\
    force_summary l1 = Ok l2 /\
    ensure_flow (List.map coerce_bullets l2) = Ok l3 /\
    length l3 = Z.to_nat n /\
    existsb is_flow_with_diagram l3 = true /\
    Forall bulleted l3 /\
    (valid_slides l -> valid_slides l3) /\
    (3 <= n ->
     (exists s, l3 !! 0%nat = Some s /\ type s = intro) /\
     (exists s, l3 !! pred (length l3) = Some s /\ type s = summary)).
Proof.
  intros Hn.
  pose proof (enforce_count_length topic n l ltac:(lia)) as Hlen0.
  destruct (force_intro_spec (enforce_count topic n l)) as (l1 & Hi & Hlen1 & Hfirst1 & Hv1 & Hrest1).
  { intros Hnil. rewrite Hnil in Hlen0. simpl in Hlen0. lia. }
  destruct (force_summary_spec l1) as (l2 & Hs & Hlen2 & Hlast2 & Hv2 & Hrest2).
  { intros Hnil. rewrite Hnil in Hlen1. simpl in Hlen1. lia. }
  destruct (ensure_flow_spec (List.map coerce_bullets l2))
    as (l3 & Hf & Hlen3 & Hflow & Hv3 & Hb3 & Hends).
  { rewrite List.length_map. lia. }
  rewrite List.length_map in Hlen3.
  exists l1, l2, l3.
  split; [assumption|]. split; [assumption|]. split; [assumption|].
  split; [lia|]. split; [assumption|].
  split; [apply Hb3, coerce_all_bulleted|].
  split.
  - intros Hv. by apply Hv3, coerce_all_valid, Hv2, Hv1, enforce_count_valid.
  - intros H3. destruct Hends as [Hhead Hlast]; [rewrite List.length_map; lia|].
    rewrite List.length_map in Hlast.
    split.
    + rewrite Hhead. apply coerce_all_type.
      rewrite Hrest2 by lia. exact Hfirst1.
    + replace (pred (length l3)) with (pred (length l2)) by lia.
      rewrite Hlast, Hlen2. apply coerce_all_type. exact Hlast2.
Qed.

Lemma normalize_with_slides (spec : PresentationSpec) (topic : str) (n : Z) :
  slides spec <> [] -> 2 <= n ->
  exists l3,
    length l3 = Z.to_nat n /\
    existsb is_flow_with_diagram l3 = true /\
    Forall bulleted l3 /\
    (valid_slides (slides spec) -> valid_slides l3) /\
    (3 <= n ->
     (exists s, l3 !! 0%nat = Some s /\ type s = intro) /\
     (exists s, l3 !! pred (length l3) = Some s /\ type s = summary)) /\
    normalize_presentation_spec (Some spec) topic n
    = match model_validate
              {| deck_title := if nonempty (deck_title spec) then deck_title spec else topic;
                 slides := l3 |} with
      | Ok p => Ok p
      | Raise ValidationError => model_validate (mock_presentation topic n)
      | Raise e => Raise e
      end.
Proof.
  intros Hne Hn.
  destruct (normalize_stages topic n (slides spec) Hn)
    as (l1 & l2 & l3 & Hi & Hs & Hf & Hlen & Hflow & Hb & Hv & Hends).
  exists l3. repeat (split; [assumption|]).
  unfold normalize_presentation_spec.
  rewrite (proj2 (truthy_nonempty _) Hne). cbn [negb].
  rewrite Hi. cbn [bind]. rewrite Hs. cbn [bind]. rewrite Hf. reflexivity.
Qed.

(** C1, the claim as stated fails: a valid deck whose summary is one
    sentence of 130 characters is returned with a bullet of 132
    characters. Nothing in [normalize_presentation_spec] bounds the
    length of a bullet. *)
Lemma normalize_keeps_long_bullet :
  well_formed long_bullet_deck = true /\
  exists d,
    normalize_presentation_spec (Some long_bullet_deck) (py "Topic") 3 = Ok d /\
    content <$> last (slides d) = Some (py "- " ++ repeat 97%N 130) /\
    five_invariants 3 d = false /\
    repaired 3 d = true.
Proof.
  split; [reflexivity|]. eexists. split; [vm_compute; reflexivity|].
  split; [vm_compute; reflexivity|]. split; vm_compute; reflexivity.
Qed.

(** C1 as amended. For a deck that pydantic accepts and a slide count
    of at least 3, the result has exactly [slide_count] slides, starts
    with an intro slide, ends with a summary slide, has a flow slide
    with a diagram, and every process or summary slide holds a
    newline-delimited list of at most 8 bullets, each starting with
    hyphen and space (of any length). For a null deck or a deck without
    slides and a slide count of at least 4, the result is the synthetic
    deck, which has the first four properties. *)
Theorem normalize_repairs (topic : str) (slide_count : Z) :
  (forall spec,
      well_formed spec = true -> 3 <= slide_count ->
      exists d,
        normalize_presentation_spec (Some spec) topic slide_count = Ok d /\
        repaired slide_count d = true) /\
  (forall spec,
      spec = None \/ (exists p, spec = Some p /\ slides p = []) ->
      4 <= slide_count ->
      exists d,
        normalize_presentation_spec spec topic slide_count = Ok d /\
        has_count slide_count d && first_is_intro d && last_is_summary d
        && has_flow_diagram d = true).
Proof.
  split.
  - intros spec Hwf Hn.
    apply andb_true_iff in Hwf as [Hne Hvalid].
    apply truthy_nonempty in Hne.
    assert (Hv : valid_slides (slides spec)).
    { apply Forall_forall. intros s Hs.
      apply (proj1 (forallb_forall _ _) Hvalid), list_elem_of_In, Hs. }
    destruct (normalize_with_slides spec topic slide_count Hne ltac:(lia))
      as (l3 & Hlen & Hflow & Hb & Hv3 & Hends & ->).
    destruct (Hends Hn) as [(s0 & Hs0 & Ht0) (sz & Hsz & Htz)].
    rewrite model_validate_ok; cbn [slides].
    + eexists. split; [reflexivity|].
      unfold repaired, has_count, first_is_intro, last_is_summary, has_flow_diagram,
        bullets_everywhere. cbn [slides].
      rewrite head_lookup, Hs0, last_lookup, Hsz, Ht0, Htz.
      rewrite (bulleted_forallb _ Hb).
      change (existsb _ l3) with (existsb is_flow_with_diagram l3). rewrite Hflow.
      rewrite !andb_true_r. apply Z.eqb_eq. unfold len. lia.
    + intros Hnil. rewrite Hnil in Hlen. simpl in Hlen. lia.
    + by apply Hv3.
  - intros spec Hspec Hn.
    assert (Hmock : normalize_presentation_spec spec topic slide_count
                    = model_validate (mock_presentation topic slide_count)).
    { destruct Hspec as [->|(p & -> & Hnil)]; [reflexivity|].
      unfold normalize_presentation_spec. by rewrite Hnil. }
    rewrite Hmock, mock_presentation_valid by lia.
    eexists. split; [reflexivity|].
    destruct (mock_presentation_deck topic slide_count Hn)
      as (Hlen & (s0 & Hs0 & Ht0) & (sz & Hsz & Htz) & (sf & Hsf & Htf)).
    unfold has_count, first_is_intro, last_is_summary, has_flow_diagram.
    rewrite head_lookup, Hs0, last_lookup, Hlen, Hsz, Ht0, Htz.
    assert (Hex : existsb is_flow_with_diagram (slides (mock_presentation topic slide_count))
                  = true).
    { apply existsb_exists. exists sf. split; [|assumption].
      eapply list_elem_of_In, list_elem_of_lookup_2, Hsf. }
    change (existsb _ (slides (mock_presentation topic slide_count)))
      with (existsb is_flow_with_diagram (slides (mock_presentation topic slide_count))).
    rewrite Hex, !andb_true_r. apply Z.eqb_eq. unfold len. lia.
Qed.

Lemma normalize_repairs_witness :
  well_formed drifted_deck = true /\ 3 <= 5 /\
  exists d,
    normalize_presentation_spec (Some drifted_deck) (py "Topic") 5 = Ok d /\
    repaired 5 d = true.
Proof.
  split; [reflexivity|]. split; [lia|].
  apply (proj1 (normalize_repairs (py "Topic") 5) drifted_deck); [reflexivity | lia].
Defined.

(** C2, the claim as stated fails: with a slide count of 0 the
    synthetic deck has no slides and its validation raises, and a deck
    with slides is cut to no slides, so [slides[0]] raises. *)
Lemma normalize_raises_on_zero :
  normalize_presentation_spec None (py "Topic") 0 = Raise ValidationError /\
  normalize_presentation_spec (Some drifted_deck) (py "Topic") 0 = Raise IndexError.
Proof. split; reflexivity. Qed.

(** C2 as amended. For every deck, null, without slides or rejected by
    pydantic included, every topic and every slide count of at least 2,
    [normalize_presentation_spec] returns a deck and raises nothing. *)
Theorem normalize_total_from_two (spec : option PresentationSpec) (topic : str)
    (slide_count : Z) :
  2 <= slide_count ->
  exists d, normalize_presentation_spec spec topic slide_count = Ok d.
Proof.
  intros Hn.
  destruct spec as [p|]; [|eexists; apply mock_presentation_valid; lia].
  destruct (slides p) as [|s0 rest] eqn:Hsl.
  - eexists. unfold normalize_presentation_spec. rewrite Hsl.
    apply mock_presentation_valid. lia.
  - destruct (normalize_with_slides p topic slide_count) as (l3 & _ & _ & _ & _ & _ & ->);
      [by rewrite Hsl | assumption |].
    destruct (model_validate _) as [q|e] eqn:Hval; [by eexists|].
    apply model_validate_error in Hval as ->.
    eexists. apply mock_presentation_valid. lia.
Qed.

Lemma normalize_total_from_two_witness :
  2 <= 3 /\ exists d, normalize_presentation_spec None (py "Topic") 3 = Ok d.
Proof. split; [lia|]. apply normalize_total_from_two. lia. Defined.

(** C6, the failing inputs. A process slide with one line of text gets
    a bullet prefix at each pass, so normalising the normalised deck
    changes it; and the synthetic deck returned for a null deck is not
    bullet-coerced, so normalising it again changes it. *)
Theorem normalize_not_idempotent :
  (exists d1 d2,
      normalize_presentation_spec (Some one_point_deck) (py "Deck") 4 = Ok d1 /\
      normalize_presentation_spec (Some d1) (py "Deck") 4 = Ok d2 /\
      content <$> slides d1 !! 1%nat = Some (py "- Only one point") /\
      content <$> slides d2 !! 1%nat = Some (py "- - Only one point") /\
      d2 <> d1) /\
  (exists d1 d2,
      normalize_presentation_spec None (py "Deck") 4 = Ok d1 /\
      normalize_presentation_spec (Some d1) (py "Deck") 4 = Ok d2 /\
      content <$> slides d1 !! 1%nat
      = Some (py "Identify inputs, steps, and outputs. Then connect them logically.") /\
      content <$> slides d2 !! 1%nat
      = Some (py "- Identify inputs, steps, and outputs" ++ [NL]
              ++ py "- Then connect them logically") /\
      d2 <> d1).
Proof.
  split.
  - eexists. eexists. split; [vm_compute; reflexivity|].
    split; [vm_compute; reflexivity|].
    split; [vm_compute; reflexivity|]. split; [vm_compute; reflexivity|].
    intros Heq. apply (f_equal (fun d => content <$> slides d !! 1%nat)) in Heq.
    vm_compute in Heq. discriminate Heq.
  - eexists. eexists. split; [vm_compute; reflexivity|].
    split; [vm_compute; reflexivity|].
    split; [vm_compute; reflexivity|]. split; [vm_compute; reflexivity|].
    intros Heq. apply (f_equal (fun d => content <$> slides d !! 1%nat)) in Heq.
    vm_compute in Heq. discriminate Heq.
Qed.

(** C9, the claim as stated fails: the last slide of this deck is a
    process slide with the content ["Done"]; in the deck that
    [normalize_presentation_spec] returns it has role summary and title
    ["Summary"], but its content is ["- Done"]: the bullet coercion that
    follows rewrites the content of the slide that was just made a
    summary slide. *)
Lemma normalize_rewrites_forced_summary :
  well_formed unfinished_deck = true /\
  exists d last',
    normalize_presentation_spec (Some unfinished_deck) (py "Topic") 3 = Ok d /\
    (type <$> slides unfinished_deck !! 2%nat) = Some process /\
    (content <$> slides unfinished_deck !! 2%nat) = Some (py "Done") /\
    slides d !! 2%nat = Some last' /\
    type last' = summary /\ title last' = py "Summary" /\
    content last' = py "- Done".
Proof.
  split; [reflexivity|]. eexists _, _. split; [vm_compute; reflexivity|].
  repeat (split; [reflexivity|]). reflexivity.
Qed.

(** C9 as amended. For a deck that pydantic accepts and a slide count
    of at least 3, in the deck that [normalize_presentation_spec]
    returns: when slide 0 of the input is not an intro slide, slide 0
    is a copy of it with role intro and every other field as before;
    when the last slide after truncation or padding is not a summary
    slide, the last slide is a copy of it with role summary, title
    ["Summary"], the bullet coercion of its content as content, and
    every other field (keywords, image fields, layout preference,
    emphasis, diagram) as before. *)
Theorem forced_roles_frame (spec : PresentationSpec) (topic : str) (slide_count : Z) :
  well_formed spec = true -> 3 <= slide_count ->
  exists d first last first' last',
    normalize_presentation_spec (Some spec) topic slide_count = Ok d /\
    slides spec !! 0%nat = Some first /\
    last = default (pad_slide topic (Z.to_nat slide_count - 1))
             (slides spec !! (Z.to_nat slide_count - 1)%nat) /\
    slides d !! 0%nat = Some first' /\
    slides d !! (Z.to_nat slide_count - 1)%nat = Some last' /\
    (type first <> intro -> type first' = intro /\ same_but_type first first') /\
    (type last <> summary ->
     type last' = summary /\ title last' = py "Summary" /\
     content last' = bullet_text (content last) /\
     diagram last' = diagram last /\ same_media last last').
Proof.
  intros Hwf Hn.
  apply andb_true_iff in Hwf as [Hne Hvalid].
  assert (Hv : valid_slides (slides spec)).
  { apply Forall_forall. intros s Hs.
    apply (proj1 (forallb_forall _ _) Hvalid), list_elem_of_In, Hs. }
  destruct (normalize_stages topic slide_count (slides spec) ltac:(lia))
    as (l1 & l2 & l3 & Hi & Hs & Hf & Hlen & _ & _ & Hv3 & _).
  assert (Hfirst : exists first, slides spec !! 0%nat = Some first).
  { destruct (slides spec) as [|s0 rest]; [discriminate | by exists s0]. }
  destruct Hfirst as [first Hfirst].
  set (n := Z.to_nat slide_count) in *.
  set (last := default (pad_slide topic (n - 1)) (slides spec !! (n - 1)%nat)).
  set (l0 := enforce_count topic slide_count (slides spec)) in *.
  assert (Hlen0 : length l0 = n) by (apply enforce_count_length; lia).
  assert (H00 : l0 !! 0%nat = Some first).
  { unfold l0. rewrite enforce_count_lookup by lia. by rewrite Hfirst. }
  assert (H0z : l0 !! (n - 1)%nat = Some last).
  { unfold l0. by rewrite enforce_count_lookup by lia. }
  destruct (force_intro_lookup _ _ Hi) as (Hlen1 & H10 & H1i).
  destruct (force_summary_lookup _ _ Hs) as (Hlen2 & H2z & H2i).
  destruct (ensure_flow_spec (List.map coerce_bullets l2))
    as (l3' & Hf' & _ & _ & _ & _ & Hends); [rewrite List.length_map; lia|].
  rewrite Hf in Hf'. injection Hf' as <-.
  destruct Hends as [H30 H3z]; [rewrite List.length_map; lia|].
  rewrite List.length_map in H3z.
  rewrite map_fmap, list_lookup_fmap in H30, H3z.
  replace (pred (length l2)) with (n - 1)%nat in H3z by lia.
  replace (pred (length l1)) with (n - 1)%nat in H2z, H2i by lia.
  rewrite H2i, H10, H00 in H30 by lia.
  rewrite H2z, H1i, H0z in H3z by lia.
  cbn [fmap option_fmap option_map] in H30, H3z.
  eexists {| deck_title := if nonempty (deck_title spec) then deck_title spec else topic;
             slides := l3 |}, first, last, _, _.
  split.
  { unfold normalize_presentation_spec. rewrite Hne. cbn [negb].
    fold l0. rewrite Hi. cbn [bind]. rewrite Hs. cbn [bind]. rewrite Hf. cbn [bind].
    rewrite model_validate_ok; [reflexivity | | by apply Hv3].
    cbn [slides]. intros Hnil. rewrite Hnil in Hlen. simpl in Hlen. lia. }
  split; [exact Hfirst|]. split; [reflexivity|].
  cbn [slides]. split; [exact H30|]. split; [exact H3z|]. split.
  - intros Hty. destruct (decide (type first <> intro)); [|contradiction].
    unfold coerce_bullets. cbn [type with_type]. split; [reflexivity|]. by repeat split.
  - intros Hty. destruct (decide (type last <> summary)); [|contradiction].
    unfold coerce_bullets. cbn [type with_type with_title]. by repeat split.
Qed.

Lemma forced_roles_frame_witness :
  exists d first' last',
    normalize_presentation_spec (Some unfinished_deck) (py "Topic") 3 = Ok d /\
    slides d !! 0%nat = Some first' /\ slides d !! 2%nat = Some last' /\
    type first' = intro /\ title first' = py "Welcome" /\
    content first' = py "What this deck covers." /\
    type last' = summary /\ title last' = py "Summary" /\
    content last' = bullet_text (py "Done") /\ keywords last' = [py "b"].
Proof.
  destruct (forced_roles_frame unfinished_deck (py "Topic") 3 eq_refl ltac:(lia))
    as (d & first & last & first' & last' & Hrun & Hfirst & Hlast & Hf' & Hl' & Hintro & Hsum).
  injection Hfirst as <-. cbn in Hlast. subst last.
  destruct Hintro as (Hty & Hti & Hco & _); [discriminate|].
  destruct Hsum as (Hty' & Hti' & Hco' & _ & Hmedia); [discriminate|].
  exists d, first', last'.
  split; [exact Hrun|]. split; [exact Hf'|]. split; [exact Hl'|].
  split; [exact Hty|]. split; [exact Hti|]. split; [exact Hco|].
  split; [exact Hty'|]. split; [exact Hti'|]. split; [exact Hco'|].
  by injection Hmedia.
Defined.

End NormalizeTheorems.

(** * Further string facts *)

Section StripFacts.
Variable p : char -> bool.

Lemma lstrip_by_head (s : str) (c : char) (t : str) :
  lstrip_by p s = c :: t -> p c = false.
Proof.
  induction s as [|x s IH]; simpl; [discriminate|].
  destruct (p x) eqn:Hx; [assumption|]. by intros [= <- _].
Qed.

Lemma lstrip_by_id (s : str) :
  (forall c t, s = c :: t -> p c = false) -> lstrip_by p s = s.
Proof.
  destruct s as [|x s]; [reflexivity|]. intros H. simpl.
  by rewrite (H x s eq_refl).
Qed.

Lemma lstrip_by_suffix (s : str) : exists pre, s = pre ++ lstrip_by p s.
Proof.
  induction s as [|x s [pre IH]]; [by exists []|]. simpl.
  destruct (p x); [exists (x :: pre); simpl; congruence | by exists []].
Qed.

Lemma lstrip_by_last (s t : str) (c : char) :
  lstrip_by p s = t ++ [c] -> exists t', s = t' ++ [c].
Proof.
  intros H. destruct (lstrip_by_suffix s) as [pre Hpre].
  exists (pre ++ t). by rewrite Hpre at 1; rewrite H, app_assoc.
Qed.

Lemma trimmed_rev (s : str) : trimmed p s -> trimmed p (rev s).
Proof.
  intros [Hh Hl]. split.
  - intros c t Hr. apply (Hl (rev t) c).
    by rewrite <- (rev_involutive s), Hr.
  - intros t c Hr. apply (Hh c (rev t)).
    by rewrite <- (rev_involutive s), Hr, rev_app_distr.
Qed.

Lemma strip_by_trimmed (s : str) : trimmed p (strip_by p s).
Proof.
  unfold strip_by. split.
  - intros c t Hr.
    apply (f_equal (@rev _)) in Hr. rewrite rev_involutive in Hr. simpl in Hr.
    apply lstrip_by_last in Hr as [t' Hr].
    apply (f_equal (@rev _)) in Hr. rewrite rev_involutive, rev_app_distr in Hr.
    simpl in Hr. by apply lstrip_by_head in Hr.
  - intros t c Hr.
    apply (f_equal (@rev _)) in Hr. rewrite rev_involutive, rev_app_distr in Hr.
    simpl in Hr. by apply lstrip_by_head in Hr.
Qed.

Lemma strip_by_id (s : str) : trimmed p s -> strip_by p s = s.
Proof.
  intros Ht. unfold strip_by. rewrite (lstrip_by_id s) by apply Ht.
  rewrite lstrip_by_id by apply (trimmed_rev _ Ht). apply rev_involutive.
Qed.

Lemma strip_by_idempotent (s : str) : strip_by p (strip_by p s) = strip_by p s.
Proof. apply strip_by_id, strip_by_trimmed. Qed.

Lemma lstrip_by_Forall (P : char -> Prop) (s : str) :
  Forall P s -> Forall P (lstrip_by p s).
Proof.
  induction 1 as [|x s Hx Hs IH]; simpl; [constructor|].
  destruct (p x); [assumption | by constructor].
Qed.

Lemma strip_by_Forall (P : char -> Prop) (s : str) :
  Forall P s -> Forall P (strip_by p s).
Proof.
  intros H. unfold strip_by.
  by apply Forall_rev, lstrip_by_Forall, Forall_rev, lstrip_by_Forall.
Qed.

End StripFacts.

Section StripIsStripBy.

Lemma lstrip_lstrip_by (s : str) : lstrip s = lstrip_by isspace s.
Proof. induction s as [|x s IH]; simpl; [reflexivity|]. by rewrite IH. Qed.

Lemma strip_strip_by (s : str) : strip s = strip_by isspace s.
Proof. unfold strip, rstrip, strip_by. by rewrite !lstrip_lstrip_by. Qed.

Lemma strip_trimmed (s : str) : trimmed isspace (strip s).
Proof. rewrite strip_strip_by. apply strip_by_trimmed. Qed.

Lemma strip_id (s : str) : trimmed isspace s -> strip s = s.
Proof. rewrite strip_strip_by. apply strip_by_id. Qed.

Lemma strip_idempotent (s : str) : strip (strip s) = strip s.
Proof. apply strip_id, strip_trimmed. Qed.

End StripIsStripBy.

(** * [_safe_filename] *)

Section SafeFilename.
Import Builder.

Lemma sub_runs_allowed (name : str) (in_run : bool) :
  Forall (fun c => allowed c = true) (sub_runs in_run name).
Proof.
  revert in_run. induction name as [|c rest IH]; intros in_run; simpl; [constructor|].
  destruct (allowed c) eqn:Hc; [by constructor|].
  destruct in_run; [apply IH | constructor; [reflexivity | apply IH]].
Qed.

Lemma sub_runs_id (name : str) (in_run : bool) :
  Forall (fun c => allowed c = true) name -> sub_runs in_run name = name.
Proof.
  intros H. revert in_run. induction H as [|c rest Hc _ IH]; intros in_run; simpl;
    [reflexivity|].
  by rewrite Hc, IH.
Qed.

Lemma safe_filename_fixed (s : str) :
  s <> [] -> Forall (fun c => allowed c = true) s ->
  trimmed (fun c => (c =? UNDERSCORE)%N) s -> _safe_filename s = s.
Proof.
  intros Hne Hs Ht. unfold _safe_filename.
  rewrite (sub_runs_id _ _ Hs), (strip_by_id _ _ Ht). by destruct s.
Qed.

Lemma safe_filename_shape (name : str) :
  _safe_filename name <> [] /\
  Forall (fun c => allowed c = true) (_safe_filename name) /\
  trimmed (fun c => (c =? UNDERSCORE)%N) (_safe_filename name).
Proof.
  unfold _safe_filename.
  pose proof (strip_by_Forall (fun c => (c =? UNDERSCORE)%N) _ _
                (sub_runs_allowed name false)) as Hall.
  pose proof (strip_by_trimmed (fun c => (c =? UNDERSCORE)%N) (sub_runs false name))
    as Htrim.
  destruct (strip_by _ (sub_runs false name)) as [|c t]; simpl nonempty; cbv iota.
  - split; [discriminate|]. split; [by apply (bool_decide_unpack _)|].
    split; [intros c t [= <- _]; reflexivity|].
    intros t c H. apply (f_equal (@rev _)) in H. rewrite rev_app_distr in H.
    by injection H as <- _.
  - split; [discriminate|]. by split.
Qed.

(** X1. [_safe_filename] never returns the empty string; every
    character of its result is a letter, a digit, a dot, an underscore
    or a hyphen; the result neither starts nor ends with an underscore;
    and applying it to its own result changes nothing. *)
Theorem safe_filename_safe (name : str) :
  _safe_filename name <> [] /\
  Forall (fun c => allowed c = true) (_safe_filename name) /\
  trimmed (fun c => (c =? UNDERSCORE)%N) (_safe_filename name) /\
  _safe_filename (_safe_filename name) = _safe_filename name.
Proof.
  destruct (safe_filename_shape name) as (Hne & Hall & Htrim).
  repeat (split; [assumption|]). by apply safe_filename_fixed.
Qed.

End SafeFilename.

(** * [_extract_json_object_text] *)

Section ExtractJson.
Import OpenAIClient.

Lemma find_from_spec (c : char) (s : str) :
  forall i,
    (find_from c i s = -1 /\ (c ∉ s)) \/
    (exists pre post, s = pre ++ c :: post /\ (c ∉ pre) /\ find_from c i s = i + len pre).
Proof.
  induction s as [|x s IH]; intros i; simpl.
  - left. split; [reflexivity | apply not_elem_of_nil].
  - destruct (x =? c)%N eqn:Hx.
    + apply N.eqb_eq in Hx as ->. right. exists [], s.
      split; [reflexivity|]. split; [apply not_elem_of_nil|]. unfold len. simpl. lia.
    + apply N.eqb_neq in Hx. destruct (IH (i + 1)) as [[Hf Hn]|(pre & post & -> & Hn & Hf)].
      * left. split; [assumption|]. apply not_elem_of_cons. split; [congruence | assumption].
      * right. exists (x :: pre), post. split; [reflexivity|].
        split; [apply not_elem_of_cons; split; [congruence | assumption]|].
        rewrite Hf. unfold len. simpl. lia.
Qed.

Lemma find_spec (c : char) (s : str) :
  (find c s = -1 /\ (c ∉ s)) \/
  (exists pre post, s = pre ++ c :: post /\ (c ∉ pre) /\ find c s = len pre).
Proof.
  unfold find. destruct (find_from_spec c s 0) as [?|(pre & post & ? & ? & ?)];
    [by left | right; eauto 6].
Qed.

Lemma rfind_spec (c : char) (s : str) :
  (rfind c s = -1 /\ (c ∉ s)) \/
  (exists pre post, s = pre ++ c :: post /\ (c ∉ post) /\ rfind c s = len pre).
Proof.
  unfold rfind. destruct (find_spec c (rev s)) as [[Hf Hn]|(pre & post & Hs & Hn & Hf)].
  - left. rewrite Hf. split; [reflexivity|]. intros Hin. apply Hn.
    by apply list_elem_of_In, in_rev; rewrite rev_involutive; apply list_elem_of_In.
  - right. exists (rev post), (rev pre).
    assert (Hs' : s = rev post ++ c :: rev pre).
    { rewrite <- (rev_involutive s), Hs, rev_app_distr. simpl. by rewrite <- app_assoc. }
    split; [assumption|]. split.
    + intros Hin. apply Hn. by apply list_elem_of_In, in_rev, list_elem_of_In.
    + rewrite Hf. assert (len pre <> -1) by (unfold len; lia).
      destruct (len pre =? -1) eqn:He; [apply Z.eqb_eq in He; lia|].
      rewrite Hs' at 1. unfold len. rewrite length_app, length_rev. simpl.
      rewrite length_rev. lia.
Qed.

Lemma first_occurrence_le (c : char) (pre post a r : str) :
  c ∉ pre -> pre ++ c :: post = a ++ c :: r -> (length pre <= length a)%nat.
Proof.
  intros Hn Heq. destruct (decide (length pre <= length a)%nat) as [?|Hgt]; [assumption|].
  exfalso. apply Hn. apply (f_equal (fun l => l !! length a)) in Heq.
  rewrite lookup_app_l in Heq by lia.
  rewrite list_lookup_middle in Heq by reflexivity.
  by eapply list_elem_of_lookup_2.
Qed.

Lemma last_occurrence_ge (c : char) (pre post a r : str) :
  c ∉ post -> pre ++ c :: post = a ++ c :: r -> (length a <= length pre)%nat.
Proof.
  intros Hn Heq. destruct (decide (length a <= length pre)%nat) as [?|Hgt]; [assumption|].
  exfalso. apply Hn. apply (f_equal (fun l => l !! length a)) in Heq.
  rewrite lookup_app_r in Heq by lia.
  rewrite list_lookup_middle in Heq by reflexivity.
  replace (length a - length pre)%nat with (S (length a - length pre - 1)) in Heq by lia.
  simpl in Heq. by eapply list_elem_of_lookup_2.
Qed.

Lemma startswith_one (c : char) (s : str) :
  startswith [c] s = true <-> exists t, s = c :: t.
Proof.
  destruct s as [|x s]; simpl.
  - split; [discriminate | by intros [? ?]].
  - rewrite andb_true_r, N.eqb_eq. split; [intros <-; eauto | by intros [? [= ->]]].
Qed.

Lemma endswith_one (c : char) (s : str) :
  endswith [c] s = true <-> exists t, s = t ++ [c].
Proof.
  unfold endswith. change (rev [c]) with [c]. rewrite startswith_one. split.
  - intros [t Ht]. exists (rev t). by rewrite <- (rev_involutive s), Ht.
  - intros [t ->]. exists (rev t). by rewrite rev_app_distr.
Qed.

Lemma braces_trimmed (m : str) : strip (LBRACE :: m ++ [RBRACE]) = LBRACE :: m ++ [RBRACE].
Proof.
  eapply (strip_ink_ends _ LBRACE RBRACE (m ++ [RBRACE]) (LBRACE :: m));
    [reflexivity | reflexivity | reflexivity | reflexivity].
Qed.

Lemma extract_braced (m : str) :
  _extract_json_object_text (LBRACE :: m ++ [RBRACE]) = Some (LBRACE :: m ++ [RBRACE]).
Proof.
  unfold _extract_json_object_text. rewrite braces_trimmed.
  assert (H1 : startswith [LBRACE] (LBRACE :: m ++ [RBRACE]) = true)
    by (apply startswith_one; eauto).
  assert (H2 : endswith [RBRACE] (LBRACE :: m ++ [RBRACE]) = true).
  { apply endswith_one. by exists (LBRACE :: m). }
  by rewrite H1, H2.
Qed.

(** The three outcomes of [_extract_json_object_text] on a stripped
    text. *)
Lemma extract_cases (text : str) :
  (_extract_json_object_text text = None /\
   ~ exists a b c, strip text = a ++ LBRACE :: b ++ RBRACE :: c) \/
  (exists pre m post,
      strip text = pre ++ (LBRACE :: m ++ [RBRACE]) ++ post /\
      (LBRACE ∉ pre) /\ (RBRACE ∉ post) /\
      _extract_json_object_text text = Some (LBRACE :: m ++ [RBRACE])).
Proof.
  unfold _extract_json_object_text. set (t := strip text).
  destruct (startswith [LBRACE] t && endswith [RBRACE] t) eqn:Hfast.
  - right. apply andb_true_iff in Hfast as [Hs He].
    apply startswith_one in Hs as [t1 Ht1]. apply endswith_one in He as [t2 Ht2].
    destruct t2 as [|x t2].
    { rewrite Ht1 in Ht2. discriminate Ht2. }
    rewrite Ht2 in Ht1. injection Ht1 as -> Ht1.
    exists [], t2, []. rewrite app_nil_r. simpl.
    split; [assumption|]. split; [apply not_elem_of_nil|].
    split; [apply not_elem_of_nil|]. by rewrite Ht2.
  - destruct (find_spec LBRACE t) as [[Hf Hn]|(pre & post & Hs & Hn & Hf)].
    { left. rewrite Hf. simpl. split; [reflexivity|].
      intros (a & b & c & Habc). apply Hn. rewrite Habc.
      apply elem_of_app. right. apply list_elem_of_here. }
    destruct (rfind_spec RBRACE t) as [[Hr Hnr]|(pre' & post' & Hs' & Hn' & Hr)].
    { left. rewrite Hr. rewrite orb_true_r. simpl. split; [reflexivity|].
      intros (a & b & c & Habc). apply Hnr. rewrite Habc.
      apply elem_of_app. right. apply list_elem_of_further, elem_of_app. right.
      apply list_elem_of_here. }
    rewrite Hf, Hr.
    assert (H1 : (len pre =? -1) = false) by (apply Z.eqb_neq; unfold len; lia).
    assert (H2 : (len pre' =? -1) = false) by (apply Z.eqb_neq; unfold len; lia).
    rewrite H1, H2. simpl orb.
    destruct (len pre' <=? len pre) eqn:Hle.
    + left. split; [reflexivity|]. apply Z.leb_le in Hle. unfold len in Hle.
      intros (a & b & c & Habc).
      pose proof (first_occurrence_le LBRACE pre post a (b ++ RBRACE :: c) Hn) as Ha.
      rewrite <- Hs, <- Habc in Ha. specialize (Ha eq_refl).
      pose proof (last_occurrence_ge RBRACE pre' post' (a ++ LBRACE :: b) c Hn') as Hc.
      rewrite <- Hs', Habc, <- app_assoc in Hc. specialize (Hc eq_refl).
      rewrite length_app in Hc. simpl in Hc. lia.
    + right. apply Z.leb_gt in Hle. unfold len in Hle.
      assert (Hsplit : exists m, pre' = pre ++ LBRACE :: m).
      { assert (Heq : pre' ++ RBRACE :: post' = pre ++ LBRACE :: post) by congruence.
        apply app_eq_app in Heq as [l [[Hp Hq]|[Hp Hq]]].
        - destruct l as [|x m]; [discriminate Hq|].
          injection Hq as <- _. by exists m.
        - apply (f_equal (@length _)) in Hp. rewrite length_app in Hp. lia. }
      destruct Hsplit as [m ->].
      assert (Ht : t = pre ++ (LBRACE :: m ++ [RBRACE]) ++ post').
      { rewrite Hs'. rewrite <- !app_assoc. simpl. by rewrite <- app_assoc. }
      exists pre, m, post'.
      split; [assumption|]. split; [assumption|]. split; [assumption|].
      f_equal. unfold slice, len.
      replace (Z.to_nat (Z.of_nat (length pre))) with (length pre) by lia.
      replace (Z.to_nat (Z.of_nat (length (pre ++ LBRACE :: m)) + 1 - Z.of_nat (length pre)))
        with (length (LBRACE :: m ++ [RBRACE])).
      2:{ rewrite length_app. simpl. rewrite length_app. simpl. lia. }
      rewrite Ht, drop_app_length. by rewrite take_app_length.
Qed.

(** X2. [_extract_json_object_text] raises [ValueError] exactly when
    the stripped text has no opening brace followed later by a closing
    brace. Otherwise it returns the part of the stripped text from its
    first opening brace to its last closing brace, and extracting from
    that result returns it unchanged. *)
Theorem extract_json_object_text_spec (text : str) :
  (_extract_json_object_text text = None <->
   ~ exists a b c, strip text = a ++ LBRACE :: b ++ RBRACE :: c) /\
  (forall r,
      _extract_json_object_text text = Some r ->
      (exists pre m post,
          r = LBRACE :: m ++ [RBRACE] /\ strip text = pre ++ r ++ post /\
          (LBRACE ∉ pre) /\ (RBRACE ∉ post)) /\
      _extract_json_object_text r = Some r).
Proof.
  destruct (extract_cases text) as [[Hnone Hno]|(pre & m & post & Hs & Hpre & Hpost & Hsome)].
  - split; [by split|]. intros r Hr. rewrite Hnone in Hr. discriminate.
  - split.
    + split; [intros Hn; rewrite Hn in Hsome; discriminate|].
      intros Hno. exfalso. apply Hno. exists pre, m, post.
      rewrite Hs. simpl. by rewrite <- app_assoc.
    + intros r Hr. rewrite Hsome in Hr. injection Hr as <-.
      split; [|apply extract_braced]. exists pre, m, post. by repeat split.
Qed.

Lemma extract_json_object_text_spec_witness :
  _extract_json_object_text (py "Sure: {a} {b}. Done") = Some (py "{a} {b}") /\
  _extract_json_object_text (py "{a} {b}") = Some (py "{a} {b}").
Proof.
  split; [reflexivity|].
  apply (proj2 (extract_json_object_text_spec (py "Sure: {a} {b}. Done"))).
  reflexivity.
Defined.

End ExtractJson.

(** * [_add_bullets] *)

Section AddBullets.
Import Layouts.








End AddBullets.

(** * [_escape] of labels in [render_flow_svg] *)

Section XmlEscape.

Lemma replace_one (c : char) (new s : str) :
  replace [c] new s = flat_map (fun x => if (c =? x)%N then new else [x]) s.
Proof.
  unfold replace. induction s as [|x s IH]; [reflexivity|].
  cbn [replace_from startswith flat_map length]. rewrite andb_true_r.
  change (1 - 1)%nat with 0%nat. rewrite IH. by destruct (c =? x)%N.
Qed.

Lemma flat_map_flat_map {A B C : Type} (f : A -> list B) (g : B -> list C) (l : list A) :
  flat_map g (flat_map f l) = flat_map (fun x => flat_map g (f x)) l.
Proof.
  induction l as [|x l IH]; [reflexivity|]. simpl. by rewrite flat_map_app, IH.
Qed.

Lemma xml_escape_chars (ln : str) : xml_escape ln = flat_map escape_char ln.
Proof.
  unfold xml_escape.
  change (py ">") with [62%N]. change (py "<") with [60%N]. change (py "&") with [38%N].
  rewrite !replace_one, !flat_map_flat_map.
  apply flat_map_ext. intros x. unfold escape_char.
  destruct (38 =? x)%N eqn:H38.
  - apply N.eqb_eq in H38 as <-. reflexivity.
  - rewrite (N.eqb_sym x 38), H38. cbn [flat_map app].
    destruct (60 =? x)%N eqn:H60.
    + apply N.eqb_eq in H60 as <-. reflexivity.
    + rewrite (N.eqb_sym x 60), H60. cbn [flat_map app].
      rewrite (N.eqb_sym x 62). by destruct (62 =? x)%N.
Qed.

Lemma escape_char_no_angle (x d : char) :
  d = 60%N \/ d = 62%N -> ~ In d (escape_char x).
Proof.
  intros Hd Hin. unfold escape_char in Hin.
  destruct (x =? 38)%N eqn:H38.
  { simpl in Hin. destruct Hd as [-> | ->]; intuition discriminate. }
  destruct (x =? 60)%N eqn:H60.
  { simpl in Hin. destruct Hd as [-> | ->]; intuition discriminate. }
  destruct (x =? 62)%N eqn:H62.
  { simpl in Hin. destruct Hd as [-> | ->]; intuition discriminate. }
  apply N.eqb_neq in H60, H62. simpl in Hin.
  destruct Hin as [<-|[]]. destruct Hd; congruence.
Qed.

(** X4. The escaping of a label handles each character on its own:
    ampersand, less-than and greater-than become their entities, with
    no second escaping of the ampersands so introduced, and every other
    character is kept; so the escaped text has no less-than or
    greater-than sign, and a label without the three characters is
    unchanged. *)
Theorem xml_escape_entities (ln : str) :
  xml_escape ln = flat_map escape_char ln /\
  (60%N ∉ xml_escape ln) /\ (62%N ∉ xml_escape ln) /\
  (Forall (fun c => c <> 38%N /\ c <> 60%N /\ c <> 62%N) ln -> xml_escape ln = ln).
Proof.
  rewrite xml_escape_chars. split; [reflexivity|].
  assert (Hno : forall d, d = 60%N \/ d = 62%N -> d ∉ flat_map escape_char ln).
  { intros d Hd (x & Hx & Hin)%list_elem_of_In%in_flat_map.
    by apply (escape_char_no_angle x d). }
  split; [apply Hno; by left|]. split; [apply Hno; by right|]. clear Hno.
  induction 1 as [|c l (H1 & H2 & H3) _ IH]; [reflexivity|].
  cbn [flat_map]. rewrite IH. unfold escape_char.
  apply N.eqb_neq in H1, H2, H3. by rewrite H1, H2, H3.
Qed.

Lemma xml_escape_entities_witness :
  xml_escape (py "R&D <v2>") = py "R&amp;D &lt;v2&gt;" /\
  xml_escape (py "Step 1") = py "Step 1".
Proof.
  split; [reflexivity|].
  apply (xml_escape_entities (py "Step 1")).
  by apply (bool_decide_unpack _).
Defined.

End XmlEscape.

(** * More on the grid of [render_flow_svg] *)

Section GridMore.

Lemma place_last (mpr : Z) (l : list str) :
  forall (i j : nat) (m : gmap (list N) (Z * Z)) (k : str),
    l !! j = Some k ->
    (forall j', (j < j')%nat -> l !! j' <> Some k) ->
    fold_left (place mpr) (enumerate_from i l) m !! k = Some (cell mpr (i + j)).
Proof.
  induction l as [|x l IH]; intros i j m k Hj Hlast; [discriminate|].
  cbn [enumerate_from fold_left]. destruct j as [|j].
  - injection Hj as ->. rewrite place_absent.
    + unfold place. rewrite lookup_insert_eq. do 2 f_equal. lia.
    + intros (j' & Hj')%list_elem_of_lookup_1. by apply (Hlast (S j')); [lia|].
  - rewrite (IH (S i) j); [do 2 f_equal; lia | assumption |].
    intros j' Hlt. apply (Hlast (S j')). lia.
Qed.

(** X5. Labels are the keys of [pos]: a label that occurs several times
    in the node list has one position, the grid cell of its last
    occurrence, and [pos] has exactly the labels of the list as keys. *)
Theorem node_positions_last_wins (mpr : Z) (nodes : list str) (j : nat) (k : str) :
  nodes !! j = Some k ->
  (forall j', (j < j')%nat -> nodes !! j' <> Some k) ->
  node_positions mpr nodes !! k = Some (cell mpr j) /\
  dom (node_positions mpr nodes) = list_to_set nodes.
Proof.
  intros Hj Hlast. split.
  - rewrite node_positions_fold. unfold enumerate.
    by rewrite (place_last mpr nodes 0 j).
  - apply set_eq. intros x.
    rewrite elem_of_dom, node_positions_dom, elem_of_list_to_set. reflexivity.
Qed.

Lemma node_positions_last_wins_witness :
  node_positions 3 [py "A"; py "B"; py "A"] !! py "A" = Some (cell 3 2) /\
  index_of (py "A") [py "A"; py "B"; py "A"] = Some 0%nat.
Proof.
  split; [|reflexivity].
  apply (node_positions_last_wins 3 [py "A"; py "B"; py "A"] 2 (py "A")).
  - reflexivity.
  - intros [|[|[|j']]] Hlt; try lia; discriminate.
Defined.

Lemma last_occurrence (l : list str) (k : str) :
  k ∈ l ->
  exists j, l !! j = Some k /\ forall j', (j < j')%nat -> l !! j' <> Some k.
Proof.
  induction l as [|x l IH]; intros Hk; [by apply elem_of_nil in Hk|].
  destruct (decide (k ∈ l)) as [Hin|Hout].
  - destruct (IH Hin) as (j & Hj & Hlast). exists (S j). split; [assumption|].
    intros [|j'] Hlt; [lia|]. apply Hlast. lia.
  - apply elem_of_cons in Hk as [->|Hk]; [|contradiction].
    exists 0%nat. split; [reflexivity|].
    intros [|j'] Hlt; [lia|]. simpl. intros Hj'. apply Hout.
    by eapply list_elem_of_lookup_2.
Qed.

(** The position of a label is a cell of the grid. *)
Lemma node_positions_cell_of (mpr : Z) (nodes : list str) (k : str) :
  k ∈ nodes ->
  exists j, (j < length nodes)%nat /\ node_positions mpr nodes !! k = Some (cell mpr j).
Proof.
  intros Hk. destruct (last_occurrence nodes k Hk) as (j & Hj & Hlast).
  exists j. split; [by eapply lookup_lt_Some|].
  rewrite node_positions_fold. unfold enumerate.
  by rewrite (place_last mpr nodes 0 j).
Qed.

(** A cell of the grid keeps the padding on all four sides. *)
Lemma cell_inside_canvas (nodes : list str) (i : nat) :
  (i < length nodes)%nat ->
  exists rows,
    grid_rows (len nodes) = Ok rows /\
    pad_x <= (cell (max_per_row (len nodes)) i).1 /\
    (cell (max_per_row (len nodes)) i).1 + box_w
    <= needed_w (grid_cols (len nodes)) - pad_x /\
    pad_y <= (cell (max_per_row (len nodes)) i).2 /\
    (cell (max_per_row (len nodes)) i).2 + box_h <= needed_h rows - pad_y.
Proof.
  intros Hi.
  assert (Hn : 1 <= len nodes) by (unfold len; lia).
  eexists. split; [apply grid_rows_ok, Hn|].
  rewrite (grid_cols_nonempty _ Hn).
  pose proof (max_per_row_pos _ Hn) as Hm. pose proof (max_per_row_le _ Hn) as [Hmn _].
  set (m := max_per_row (len nodes)) in *.
  unfold cell, needed_w, needed_h, pad_x, pad_y, box_w, box_h, hgap, vgap. cbn [fst snd].
  pose proof (Z.mod_pos_bound (Z.of_nat i) m ltac:(lia)) as Hc.
  pose proof (Z.div_pos (Z.of_nat i) m ltac:(lia) ltac:(lia)) as Hr.
  assert (Hrow : Z.of_nat i / m < - (- len nodes / m)).
  { apply Z.div_lt_upper_bound; [lia|].
    pose proof (Z.div_mod (- len nodes) m ltac:(lia)) as Hdm.
    pose proof (Z.mod_pos_bound (- len nodes) m ltac:(lia)) as Hmb.
    unfold len in *. nia. }
  repeat split; try nia.
Qed.

Lemma node_rect_of_node_elems (style : SvgFlowStyle) (name : str) (xy : Z * Z)
    (x y bw bh rx : Z) (fill stroke : rgb) :
  NodeRect x y bw bh rx fill stroke ∈ node_elems style name xy ->
  xy = (x, y) /\ bw = box_w /\ bh = box_h.
Proof.
  destruct xy as [x0 y0]. unfold node_elems. cbn [app].
  intros [Hhead|Hin]%elem_of_cons; [by injection Hhead as -> -> -> ->|].
  apply elem_of_cons in Hin as [Hhead|Hin]; [discriminate|].
  apply elem_of_app in Hin as [Hin|Hin].
  - apply list_elem_of_In, in_map_iff in Hin as ([i ln] & Heq & _). discriminate.
  - apply list_elem_of_singleton in Hin. discriminate.
Qed.

Lemma node_rect_of_nodes_elems (style : SvgFlowStyle) (pos : gmap (list N) (Z * Z))
    (nodes : list str) (x y bw bh rx : Z) (fill stroke : rgb) :
  NodeRect x y bw bh rx fill stroke ∈ nodes_elems style pos nodes ->
  exists name, name ∈ nodes /\ pos !! name = Some (x, y) /\ bw = box_w /\ bh = box_h.
Proof.
  unfold nodes_elems. intros (name & Hin & Hname)%list_elem_of_In%in_flat_map.
  exists name. split; [by apply list_elem_of_In|].
  destruct (pos !! name) as [xy|]; [|destruct Hname].
  apply list_elem_of_In, node_rect_of_node_elems in Hname as (-> & -> & ->). done.
Qed.

(** X6. In the document of a call that returns (every call on a
    non-empty node list with a requested width and height below
    [2^1024] does) there is one rectangle per node, each [box_w] wide
    and [box_h] high, on a cell of the grid, and inside the view box
    with the padding kept on all four sides: its left and top are at
    least [pad_x] and [pad_y], and its right and bottom are at least
    [pad_x] and [pad_y] away from the width and height of the view
    box. *)
Theorem boxes_inside_canvas (nodes : list str) (edges : list raw_edge)
    (style : option SvgFlowStyle) (width_px height_px : Z) :
  nodes <> [] ->
  (float_sized width_px -> float_sized height_px ->
   exists doc, render_flow_svg nodes edges style width_px height_px = Ok doc) /\
  forall doc,
    render_flow_svg nodes edges style width_px height_px = Ok doc ->
    exists view_w view_h rest,
      doc = SvgOpen width_px height_px (0, 0, view_w, view_h) :: rest /\
      length (List.filter is_node_rect rest) = length nodes /\
      forall x y bw bh rx fill stroke,
        NodeRect x y bw bh rx fill stroke ∈ rest ->
        bw = box_w /\ bh = box_h /\
        (exists j, (j < length nodes)%nat /\ (x, y) = cell (max_per_row (len nodes)) j) /\
        pad_x <= x /\ x + bw <= view_w - pad_x /\
        pad_y <= y /\ y + bh <= view_h - pad_y.
Proof.
  intros Hne. split; [by apply render_flow_svg_sized|].
  intros doc (_ & rows & Hrows & ->)%render_flow_svg_returns.
  eexists _, _, _. split; [reflexivity|]. split.
  - cbn [List.filter is_node_rect app].
    rewrite !List.filter_app, filter_rects_omap. cbn [List.filter is_node_rect app].
    rewrite app_nil_r. apply filter_rects_nodes_elems.
    apply Forall_forall. intros name Hin. by apply node_positions_dom.
  - intros x y bw bh rx fill stroke Hin.
    apply elem_of_cons in Hin as [Hin|Hin]; [discriminate|].
    apply elem_of_cons in Hin as [Hin|Hin]; [discriminate|].
    apply elem_of_app in Hin as [Hin|Hin].
    { apply list_elem_of_omap in Hin as (e & _ & He).
      apply edge_line_is_line in He. discriminate. }
    apply elem_of_app in Hin as [Hin|Hin];
      [|apply list_elem_of_singleton in Hin; discriminate].
    apply node_rect_of_nodes_elems in Hin as (name & Hname & Hpos & -> & ->).
    destruct (node_positions_cell_of (max_per_row (len nodes)) nodes name Hname)
      as (j & Hj & Hcell).
    assert (Hxy : cell (max_per_row (len nodes)) j = (x, y)) by congruence.
    destruct (cell_inside_canvas nodes j Hj) as (rows' & Hrows' & Hbounds).
    rewrite Hrows in Hrows'. injection Hrows' as <-.
    rewrite Hxy in Hbounds. cbn [fst snd] in Hbounds.
    split; [reflexivity|]. split; [reflexivity|].
    split; [by exists j|]. exact Hbounds.
Qed.

Lemma boxes_inside_canvas_witness :
  exists rest,
    render_flow_svg [py "Input"; py "Step 1"; py "Step 2"; py "Output"; py "Result"]
      [] None 1600 900
    = Ok (SvgOpen 1600 900 (0, 0, 1320, 530) :: rest) /\
    NodeRect 500 310 320 110 18 (234, 242, 255) (79, 129, 189) ∈ rest /\
    500 + 320 <= 1320 - pad_x /\ 310 + 110 <= 530 - pad_y.
Proof.
  destruct (boxes_inside_canvas
              [py "Input"; py "Step 1"; py "Step 2"; py "Output"; py "Result"]
              [] None 1600 900 ltac:(discriminate))
    as [Hreturns Hboxes].
  destruct Hreturns as [doc Hdoc]; [reflexivity | reflexivity |].
  destruct (Hboxes doc Hdoc) as (view_w & view_h & rest & -> & _ & Hrect).
  assert (Hrun : exists rest',
             render_flow_svg [py "Input"; py "Step 1"; py "Step 2"; py "Output"; py "Result"]
               [] None 1600 900
             = Ok (SvgOpen 1600 900 (0, 0, 1320, 530) :: rest') /\
             NodeRect 500 310 320 110 18 (234, 242, 255) (79, 129, 189) ∈ rest').
  { eexists. split; [vm_compute; reflexivity|].
    do 18 apply list_elem_of_further. apply list_elem_of_here. }
  destruct Hrun as (rest' & Hrun & Hin).
  rewrite Hrun in Hdoc. injection Hdoc as <- <- <-.
  exists rest'. split; [exact Hrun|]. split; [exact Hin|].
  destruct (Hrect _ _ _ _ _ _ _ Hin) as (_ & _ & _ & _ & Hx & _ & Hy).
  split; [exact Hx | exact Hy].
Defined.

Lemma wrap_words_length (text : str) (max_chars : Z) :
  (1 <= length (_wrap_words text max_chars) <= 3)%nat.
Proof.
  destruct (wrap_words_groups max_chars text) as (groups & Hg & ->).
  destruct (split_ws text) as [|w ws] eqn:Hws; simpl truthy; cbv iota.
  - simpl. lia.
  - pose proof (greedy_lines_nonempty _ _ _ Hg) as Hne.
    destruct groups as [|g groups]; [by exfalso; apply Hne|].
    rewrite length_take, List.length_map. cbn [length]. lia.
Qed.

Lemma enumerate_from_length {A : Type} (l : list A) (i : nat) :
  length (enumerate_from i l) = length l.
Proof. revert i. induction l as [|x l IH]; intros i; simpl; [reflexivity|]. by rewrite IH. Qed.

Lemma enumerate_from_lookup {A : Type} (l : list A) (i j : nat) (x : A) :
  l !! j = Some x -> enumerate_from i l !! j = Some ((i + j)%nat, x).
Proof.
  revert i j. induction l as [|y l IH]; intros i [|j] Hj; try discriminate.
  - injection Hj as ->. simpl. by rewrite Nat.add_0_r.
  - simpl. rewrite (IH (S i) j Hj). do 2 f_equal. lia.
Qed.

Lemma nodes_elems_split (style : SvgFlowStyle) (pos : gmap (list N) (Z * Z))
    (nodes : list str) (name : str) (xy : Z * Z) :
  name ∈ nodes -> pos !! name = Some xy ->
  exists before after,
    nodes_elems style pos nodes = before ++ node_elems style name xy ++ after.
Proof.
  intros (n1 & n2 & ->)%list_elem_of_split Hpos. unfold nodes_elems.
  rewrite flat_map_app. cbn [flat_map]. rewrite Hpos. by eexists _, _.
Qed.

(** X7. In the document of a call that returns (every call on a
    non-empty node list with a requested width and height below
    [2^1024] does), the strings of a node are its rounded rectangle at
    its position, then a text element with one [tspan] for each line of
    [_wrap_words] of the label at 18 characters, in order, one to
    three of them, holding the escaped line, the first with [dy] 0 and
    the others with [dy] [line_h], and then the closing tag; the text is
    centred in the box: horizontally on the middle of the box, and
    vertically so that the block of lines, [line_h] high each, has its
    middle at the middle of the box. *)
Theorem text_block_centred (nodes : list str) (edges : list raw_edge)
    (style : option SvgFlowStyle) (width_px height_px : Z) (name : str) :
  name ∈ nodes ->
  (float_sized width_px -> float_sized height_px ->
   exists doc, render_flow_svg nodes edges style width_px height_px = Ok doc) /\
  forall doc,
    render_flow_svg nodes edges style width_px height_px = Ok doc ->
    exists x y start_y tspans before after,
      node_positions (max_per_row (len nodes)) nodes !! name = Some (x, y) /\
      doc = before
            ++ NodeRect x y box_w box_h corner
                 (node_fill_rgb (default default_style style))
                 (node_line_rgb (default default_style style))
            :: TextOpen (x + 160) start_y (text_rgb (default default_style style))
                 (font_family (default default_style style)) font_size
            :: tspans ++ TextClose :: after /\
      (1 <= length tspans <= 3)%nat /\
      length tspans = length (_wrap_words name 18) /\
      (forall i ln,
          _wrap_words name 18 !! i = Some ln ->
          tspans !! i
          = Some (Tspan (x + 160) (if (i =? 0)%nat then 0 else line_h) (xml_escape ln))) /\
      2 * (start_y - font_size) + len tspans * line_h = 2 * y + box_h.
Proof.
  intros Hname.
  assert (Hne : nodes <> []) by (intros ->; by apply elem_of_nil in Hname).
  split; [by apply render_flow_svg_sized|].
  intros doc (_ & rows & Hrows & ->)%render_flow_svg_returns.
  destruct (proj2 (node_positions_dom (max_per_row (len nodes)) nodes name) Hname)
    as [[x y] Hpos].
  destruct (nodes_elems_split (default default_style style) _ nodes name (x, y) Hname Hpos)
    as (before & after & ->).
  pose proof (wrap_words_length name 18) as Hlen.
  exists x, y, (y + half (box_h - len (_wrap_words name 18) * line_h) + font_size),
    (List.map (fun '(i, ln) =>
                 Tspan (x + half box_w) (if (i =? 0)%nat then 0 else line_h) (xml_escape ln))
       (enumerate (_wrap_words name 18))),
    (SvgOpen width_px height_px (0, 0, needed_w (grid_cols (len nodes)), needed_h rows)
     :: [Background (needed_w (grid_cols (len nodes))) (needed_h rows)
           (background_rgb (default default_style style));
         ArrowDefs (node_line_rgb (default default_style style))]
     ++ omap (edge_line nodes (node_positions (max_per_row (len nodes)) nodes)
                (node_line_rgb (default default_style style)))
          (_iter_edges edges)
     ++ before),
    (after ++ [SvgClose]).
  split; [exact Hpos|]. split.
  { unfold node_elems. cbn [app]. rewrite <- !app_assoc. cbn [app].
    rewrite <- !app_assoc. reflexivity. }
  rewrite List.length_map. unfold enumerate. rewrite enumerate_from_length.
  split; [assumption|]. split; [reflexivity|]. split.
  - intros i ln Hi. rewrite map_fmap, list_lookup_fmap.
    by rewrite (enumerate_from_lookup _ 0 i ln Hi).
  - unfold len. rewrite List.length_map, enumerate_from_length.
    unfold half, box_h, line_h, font_size.
    set (k := Z.of_nat (length (_wrap_words name 18))).
    replace (110 - k * 40) with ((55 - 20 * k) * 2) by lia.
    rewrite Z.div_mul by lia. lia.
Qed.

Lemma text_block_centred_witness :
  exists before after,
    render_flow_svg [py "A"; py "Collect the input data"] [] None 1600 900
    = Ok (before
          ++ [NodeRect 500 110 320 110 18 (234, 242, 255) (79, 129, 189);
              TextOpen 660 159 (31, 55, 94) (py "Calibri") 34;
              Tspan 660 0 (py "Collect the input");
              Tspan 660 40 (py "data");
              TextClose]
          ++ after).
Proof.
  destruct (text_block_centred [py "A"; py "Collect the input data"] [] None 1600 900
              (py "Collect the input data"))
    as [Hreturns Hblock]; [apply list_elem_of_further, list_elem_of_here|].
  destruct Hreturns as [doc Hdoc]; [reflexivity | reflexivity |].
  destruct (Hblock doc Hdoc)
    as (x & y & start_y & tspans & before & after & Hpos & -> & _ & Hlen & Hspans & Hmid).
  assert (Hxy : x = 500 /\ y = 110).
  { vm_compute in Hpos. injection Hpos as <- <-. split; reflexivity. }
  destruct Hxy as [-> ->].
  assert (Hlines : _wrap_words (py "Collect the input data") 18
                   = [py "Collect the input"; py "data"]) by (vm_compute; reflexivity).
  rewrite Hlines in Hlen, Hspans.
  pose proof (Hspans 0%nat _ eq_refl) as H0. pose proof (Hspans 1%nat _ eq_refl) as H1.
  destruct tspans as [|t0 [|t1 [|t2 ts]]]; try discriminate Hlen.
  injection H0 as ->. injection H1 as ->.
  assert (start_y = 159) as ->.
  { unfold len, font_size, line_h, box_h in Hmid. simpl length in Hmid. lia. }
  exists before, after. rewrite Hdoc. reflexivity.
Defined.

(** X8. In the document of a call that returns (every call on a
    non-empty node list with a requested width and height below
    [2^1024] does) the lines of the edges come first, after the three
    opening strings, and the node boxes and their texts after them, so
    that nodes are drawn over edges; there is one rectangle per node of
    the list, also for repeated labels. *)
Theorem edges_under_nodes (nodes : list str) (edges : list raw_edge)
    (style : option SvgFlowStyle) (width_px height_px : Z) :
  nodes <> [] ->
  (float_sized width_px -> float_sized height_px ->
   exists doc, render_flow_svg nodes edges style width_px height_px = Ok doc) /\
  forall doc,
    render_flow_svg nodes edges style width_px height_px = Ok doc ->
    exists opening lines blocks,
      doc = opening ++ lines ++ blocks ++ [SvgClose] /\
      length opening = 3%nat /\
      Forall (fun e => is_line e = false /\ is_node_rect e = false) opening /\
      Forall (fun e => is_line e = true) lines /\
      Forall (fun e => is_line e = false) blocks /\
      length (List.filter is_node_rect blocks) = length nodes.
Proof.
  intros Hne. split; [by apply render_flow_svg_sized|].
  intros doc (_ & rows & _ & ->)%render_flow_svg_returns.
  eexists [_; _; _], _, _. split; [reflexivity|]. split; [reflexivity|].
  split; [by repeat constructor|]. split; [|split].
  - apply Forall_forall. intros e (x & Hx & He)%list_elem_of_omap.
    by eapply edge_line_is_line.
  - pose proof (filter_lines_nodes_elems (default default_style style)
                  (node_positions (max_per_row (len nodes)) nodes) nodes) as Hf.
    apply Forall_forall. intros e He. destruct (is_line e) eqn:Hl; [|reflexivity].
    assert (Hin : In e (List.filter is_line
                          (nodes_elems (default default_style style)
                             (node_positions (max_per_row (len nodes)) nodes) nodes))).
    { apply filter_In. split; [by apply list_elem_of_In | assumption]. }
    rewrite Hf in Hin. destruct Hin.
  - apply filter_rects_nodes_elems, Forall_forall. intros name Hin.
    by apply node_positions_dom.
Qed.

Lemma edges_under_nodes_witness :
  exists opening lines blocks,
    render_flow_svg [py "A"; py "A"] [EdgeTuple [py "A"; py "A"]] None 1600 900
    = Ok (opening ++ lines ++ blocks ++ [SvgClose]) /\
    length lines = 1%nat /\
    length (List.filter is_node_rect blocks) = 2%nat.
Proof.
  destruct (edges_under_nodes [py "A"; py "A"] [EdgeTuple [py "A"; py "A"]] None 1600 900)
    as [Hreturns Hshape]; [discriminate|].
  destruct Hreturns as [doc Hdoc]; [reflexivity | reflexivity |].
  destruct (Hshape doc Hdoc)
    as (opening & lines & blocks & -> & Hop & Hopen & Hlines & Hblocks & Hrects).
  exists opening, lines, blocks. split; [exact Hdoc|]. split; [|exact Hrects].
  assert (Hval : exists doc',
             render_flow_svg [py "A"; py "A"] [EdgeTuple [py "A"; py "A"]] None 1600 900
             = Ok doc' /\
             length (List.filter is_line doc') = 1%nat).
  { eexists. split; [vm_compute; reflexivity | reflexivity]. }
  destruct Hval as (doc' & Hval & Hcount).
  rewrite Hval in Hdoc. injection Hdoc as ->.
  rewrite !List.filter_app, !length_app in Hcount.
  assert (Hnone : forall l, Forall (fun e => is_line e = false) l ->
                            List.filter is_line l = []).
  { induction 1 as [|e l He _ IH]; [reflexivity|]. simpl. by rewrite He. }
  assert (Hall : forall l, Forall (fun e => is_line e = true) l ->
                           List.filter is_line l = l).
  { induction 1 as [|e l He _ IH]; [reflexivity|]. simpl. by rewrite He, IH. }
  rewrite (Hnone blocks Hblocks), (Hall lines Hlines) in Hcount.
  rewrite (Hnone opening) in Hcount.
  - simpl in Hcount. lia.
  - eapply Forall_impl; [exact Hopen|]. by intros e [He _].
Defined.

End GridMore.

(** * [_candidate_queries] *)

Section CandidateQueries.
Import Unsplash.
Variable lower : list N -> list N.

Lemma candidates_ok_more (q : str) (n n' : nat) (l : list str) :
  (n <= n')%nat -> candidates_ok q n l -> candidates_ok q n' l.
Proof.
  intros Hn (Ha & Hb & Hc & Hd). split; [assumption|]. split; [assumption|].
  split; [lia | assumption].
Qed.

Lemma add_terms_ok (ts : list str) (q : str) (n : nat) (l : list str) :
  candidates_ok q n l -> candidates_ok q (S n) (add_terms ts l).
Proof.
  intros Hok. unfold add_terms, mem.
  destruct (nonempty (strip (join (py " ") ts))) eqn:Hne; cbn [andb];
    [|apply (candidates_ok_more q n); [lia | assumption]].
  destruct (bool_decide _) eqn:Hin; cbn [negb];
    [apply (candidates_ok_more q n); [lia | assumption]|].
  apply bool_decide_eq_false in Hin.
  destruct Hok as ([rest ->] & Hnd & Hlen & Hall).
  split; [by exists (rest ++ [strip (join (py " ") ts)])|].
  split; [|split].
  - apply (NoDup_app (q :: rest)). split; [assumption|]. split; [|apply NoDup_singleton].
    intros x Hx Hx'. apply list_elem_of_singleton in Hx'. subst x. contradiction.
  - rewrite length_app. simpl. simpl in Hlen. lia.
  - apply Forall_app. split; [assumption|]. constructor; [|constructor].
    split; [by destruct (strip (join (py " ") ts)) | apply strip_idempotent].
Qed.

Lemma add_terms_keeps (ts : list str) (l : list str) (x : str) :
  x ∈ l -> x ∈ add_terms ts l.
Proof.
  intros Hx. unfold add_terms. case_match; [|assumption].
  apply elem_of_app. by left.
Qed.

Lemma add_terms_adds (ts : list str) (l : list str) :
  strip (join (py " ") ts) <> [] -> strip (join (py " ") ts) ∈ add_terms ts l.
Proof.
  intros Hne. unfold add_terms, mem.
  destruct (strip (join (py " ") ts)) as [|c t] eqn:Hs; [congruence|]. cbn [nonempty andb].
  destruct (bool_decide _) eqn:Hin; cbn [negb].
  - by apply bool_decide_eq_true in Hin.
  - apply elem_of_app. right. apply list_elem_of_here.
Qed.

Lemma branch_ok (words ts1 ts2 ts3 : list str) (q : str) (n : nat) (l uniq : list str) :
  candidates_ok q n l ->
  candidates_ok q (3 + n)
    (if meets words uniq then add_terms ts3 (add_terms ts2 (add_terms ts1 l)) else l).
Proof.
  intros Hok. destruct (meets words uniq).
  - by do 3 apply add_terms_ok.
  - apply (candidates_ok_more q n); [lia | assumption].
Qed.

(** X9. A blank query has no candidates. For any other query the
    candidates start with the stripped query, contain the broad query
    ["abstract background"], have no repetition and no empty or
    unstripped entry, and number at most eleven. *)
Theorem candidate_queries_spec (query : str) :
  (strip query = [] -> _candidate_queries lower query = []) /\
  (strip query <> [] ->
   (exists rest, _candidate_queries lower query = strip query :: rest) /\
   py "abstract background" ∈ _candidate_queries lower query /\
   candidates_ok (strip query) 11 (_candidate_queries lower query)).
Proof.
  unfold _candidate_queries. split.
  - intros ->. reflexivity.
  - intros Hne. destruct (strip query) as [|c0 t0] eqn:Hq; [congruence|].
    cbn [nonempty negb]. rewrite <- Hq.
    set (uniq := (fold_left add_uniq _ _).1).
    assert (H0 : candidates_ok (strip query) 1 [strip query]).
    { split; [by exists []|]. split; [apply NoDup_singleton|]. split; [simpl; lia|].
      constructor; [|constructor]. split; [by rewrite Hq | apply strip_idempotent]. }
    split; [|split].
    + eapply (add_terms_ok _ _ 10), (branch_ok _ _ _ _ _ 7), (branch_ok _ _ _ _ _ 4).
      by do 3 apply add_terms_ok.
    + change (py "abstract background")
        with (strip (join (py " ") [py "abstract"; py "background"])).
      apply add_terms_adds. discriminate.
    + eapply (add_terms_ok _ _ 10), (branch_ok _ _ _ _ _ 7), (branch_ok _ _ _ _ _ 4).
      by do 3 apply add_terms_ok.
Qed.

End CandidateQueries.

Lemma candidate_queries_spec_witness :
  Unsplash._candidate_queries ascii_lower (py " Sign-up flow ")
  = [py "Sign-up flow"; py "sign flow"; py "business onboarding"; py "team onboarding";
     py "office team"; py "business workflow"; py "workflow"; py "business process";
     py "abstract background"] /\
  py "abstract background" ∈ Unsplash._candidate_queries ascii_lower (py " Sign-up flow ").
Proof.
  split; [vm_compute; reflexivity|].
  apply (candidate_queries_spec ascii_lower (py " Sign-up flow ")). discriminate.
Defined.

(** * [_image_query_for_slide], [plan_slides] and the pipeline *)

Section PlanFacts.
Import Plans.
Variable lower : list N -> list N.

Lemma suffix_ink (base suffix : str) : Exists ink suffix -> strip (base ++ suffix) <> [].
Proof. intros H. apply strip_nonempty, Exists_app. by right. Qed.

(** X10. The image query of a slide is always stripped of surrounding
    white space; for an intro, process or flow slide it is never empty;
    a non-blank explicit [image_query] is returned as it is, stripped;
    and the query never depends on the title of the deck. *)
Theorem image_query_for_slide_spec (slide : SlideSpec) (deck_title : str) :
  strip (_image_query_for_slide lower slide deck_title)
  = _image_query_for_slide lower slide deck_title /\
  (type slide <> summary -> _image_query_for_slide lower slide deck_title <> []) /\
  (strip (or_empty (Planner.image_query slide)) <> [] ->
   _image_query_for_slide lower slide deck_title
   = strip (or_empty (Planner.image_query slide))) /\
  (forall deck_title',
      _image_query_for_slide lower slide deck_title'
      = _image_query_for_slide lower slide deck_title).
Proof.
  split; [|split; [|split; [|reflexivity]]].
  - unfold _image_query_for_slide.
    repeat case_match; apply strip_idempotent.
  - intros Hty. unfold _image_query_for_slide.
    destruct (strip (or_empty (Planner.image_query slide))) as [|c t] eqn:He;
      cbn [nonempty]; [|discriminate].
    destruct (strip (join (py " ") _)) as [|c t] eqn:Hs; cbn [nonempty]; [|discriminate].
    destruct (type slide); [| | |congruence]; apply suffix_ink;
      apply Exists_cons_tl, Exists_cons_hd; reflexivity.
  - intros Hne. unfold _image_query_for_slide.
    by destruct (strip (or_empty (Planner.image_query slide))).
Qed.

Lemma plan_slide_slide (deck_title : str) (s : SlideSpec) :
  SlidePlan.slide (plan_slide lower deck_title s) = s.
Proof. unfold plan_slide. by repeat case_match. Qed.

Lemma plan_slide_intro (deck_title : str) (s : SlideSpec) :
  type s = intro ->
  SlidePlan.layout (plan_slide lower deck_title s) = py "title_full_image" /\
  is_Some (SlidePlan.image_query (plan_slide lower deck_title s)).
Proof. intros Ht. unfold plan_slide. rewrite Ht. by split; [|eexists]. Qed.

Lemma plan_slide_flow (deck_title : str) (s : SlideSpec) :
  type s = flow ->
  SlidePlan.layout (plan_slide lower deck_title s) = py "diagram_center" /\
  SlidePlan.image_query (plan_slide lower deck_title s) = None.
Proof. intros Ht. unfold plan_slide. by rewrite Ht. Qed.

Lemma plan_slide_summary (deck_title : str) (s : SlideSpec) :
  type s = summary ->
  (SlidePlan.layout (plan_slide lower deck_title s) = py "bullets" /\
   SlidePlan.image_query (plan_slide lower deck_title s) = None) \/
  (SlidePlan.layout (plan_slide lower deck_title s) = py "image_left_text_right" /\
   SlidePlan.image_query (plan_slide lower deck_title s)
   = Some (strip (or_empty (Planner.image_query s)))).
Proof.
  intros Ht. unfold plan_slide. rewrite Ht.
  destruct (nonempty (strip (or_empty (Planner.image_query s)))); [by right | by left].
Qed.

Lemma plan_slide_diagram_only_flow (deck_title : str) (s : SlideSpec) :
  SlidePlan.layout (plan_slide lower deck_title s) = py "diagram_center" ->
  type s = flow /\ SlidePlan.image_query (plan_slide lower deck_title s) = None.
Proof.
  unfold plan_slide. destruct (type s); try discriminate; [by split|].
  by destruct (nonempty _).
Qed.

(** X11. For a deck that pydantic accepts, a request that
    [GenerateRequest] accepts and a default slide count of at least 3,
    normalising and planning succeeds and gives one plan per requested
    slide, each carrying its normalised slide; the first plan is the
    title layout with an image query, the last is the bullets layout or
    the image layout, some plan is a diagram whose slide has a
    [DiagramSpec], and a diagram plan never has an image query. *)
Theorem plans_for_valid_request (spec_raw : PresentationSpec) (topic : str)
    (slide_count : option Z) (default_slide_count : Z) :
  well_formed spec_raw = true ->
  request_valid topic slide_count = true ->
  3 <= default_slide_count ->
  exists spec plans,
    normalize_presentation_spec (Some spec_raw) topic
      (slide_count_final slide_count default_slide_count) = Ok spec /\
    plans_for_topic lower spec_raw topic slide_count default_slide_count = Ok plans /\
    List.map SlidePlan.slide plans = slides spec /\
    len plans = slide_count_final slide_count default_slide_count /\
    (exists p rest,
        plans = p :: rest /\ SlidePlan.layout p = py "title_full_image"
        /\ is_Some (SlidePlan.image_query p)) /\
    (exists p,
        last plans = Some p
        /\ (SlidePlan.layout p = py "bullets"
            \/ SlidePlan.layout p = py "image_left_text_right")) /\
    (exists p,
        p ∈ plans /\ SlidePlan.layout p = py "diagram_center"
        /\ diagram (SlidePlan.slide p) <> None) /\
    Forall (fun p => SlidePlan.layout p = py "diagram_center"
                     -> SlidePlan.image_query p = None) plans.
Proof.
  intros Hwf Hreq Hdef.
  set (n := slide_count_final slide_count default_slide_count).
  assert (Hn : 3 <= n).
  { subst n. unfold slide_count_final. apply andb_true_iff in Hreq as [_ Hsc].
    destruct slide_count as [k|]; [|assumption].
    apply andb_true_iff in Hsc as [Hlo _]. apply Z.leb_le in Hlo.
    destruct (k =? 0) eqn:Hk; [apply Z.eqb_eq in Hk; lia | assumption]. }
  apply andb_true_iff in Hwf as [Hne Hvalid]. apply truthy_nonempty in Hne.
  assert (Hv : valid_slides (slides spec_raw)).
  { apply Forall_forall. intros s Hs.
    apply (proj1 (forallb_forall _ _) Hvalid), list_elem_of_In, Hs. }
  destruct (normalize_with_slides spec_raw topic n Hne ltac:(lia))
    as (l3 & Hlen & Hflow & _ & Hv3 & Hends & Hnorm).
  destruct (Hends Hn) as [(s0 & Hs0 & Ht0) (sz & Hsz & Htz)].
  assert (Hl3 : l3 <> []).
  { intros Hnil. rewrite Hnil in Hlen. simpl in Hlen. lia. }
  rewrite model_validate_ok in Hnorm by (cbn [slides]; auto).
  eexists _, _. split; [exact Hnorm|].
  unfold plans_for_topic. fold n. rewrite Hnorm. cbn [bind]. split; [reflexivity|].
  unfold plan_slides. cbn [slides deck_title].
  set (t := if nonempty (deck_title spec_raw) then deck_title spec_raw else topic).
  split; [|split; [|split; [|split; [|split]]]].
  - rewrite List.map_map. rewrite <- (List.map_id l3) at 2.
    apply List.map_ext. intros s. apply plan_slide_slide.
  - unfold len. rewrite List.length_map. lia.
  - destruct l3 as [|a rest]; [congruence|]. injection Hs0 as ->.
    eexists _, _. split; [reflexivity|]. by apply plan_slide_intro.
  - exists (plan_slide lower t sz). split.
    + rewrite map_fmap, fmap_last, last_lookup, Hsz. reflexivity.
    + destruct (plan_slide_summary t sz Htz) as [[-> _]|[-> _]]; [by left | by right].
  - apply existsb_exists in Hflow as (s & Hin & Hs).
    apply andb_true_iff in Hs as [Hty Hdi].
    apply bool_decide_eq_true in Hty, Hdi.
    exists (plan_slide lower t s). split; [|split].
    + apply list_elem_of_In, in_map, Hin.
    + by apply plan_slide_flow.
    + by rewrite plan_slide_slide.
  - apply Forall_forall. intros p (s & <- & _)%list_elem_of_In%in_map_iff Hlay.
    by apply plan_slide_diagram_only_flow.
Qed.

End PlanFacts.

Lemma image_query_for_slide_spec_witness :
  Plans._image_query_for_slide ascii_lower
    (mk_slide intro (py "Cell Biology") (py "c") [py "cell biology"; py " Cells "] None)
    (py "Deck")
  = py "Cell Biology Cells abstract background" /\
  Plans._image_query_for_slide ascii_lower
    (mk_slide intro (py "Cell Biology") (py "c") [py "cell biology"; py " Cells "] None)
    (py "Deck")
  <> [].
Proof.
  split; [vm_compute; reflexivity|].
  apply (image_query_for_slide_spec ascii_lower). discriminate.
Defined.

Lemma plans_for_valid_request_witness :
  exists plans,
    Plans.plans_for_topic ascii_lower drifted_deck (py "Topic") (Some 5) 6 = Ok plans /\
    len plans = 5.
Proof.
  destruct (plans_for_valid_request ascii_lower drifted_deck (py "Topic") (Some 5) 6)
    as (spec & plans & _ & Hplans & _ & Hlen & _); [reflexivity | reflexivity | lia |].
  exists plans. split; [exact Hplans | exact Hlen].
Defined.

(** * Decks that normalisation leaves alone *)

Section StableDecks.

Lemma trimmed_ends (p : char -> bool) (s : str) (a b : char) (m m' : str) :
  s = a :: m -> s = m' ++ [b] -> p a = false -> p b = false -> trimmed p s.
Proof.
  intros Ha Hb Hpa Hpb. split.
  - intros c t Hs. rewrite Ha in Hs. by injection Hs as <- _.
  - intros t c Hs. rewrite Hb in Hs. by apply app_inj_tail in Hs as [_ <-].
Qed.

Lemma replace_absent (a : char) (old new s : str) :
  a ∉ s -> replace (a :: old) new s = s.
Proof.
  unfold replace. induction s as [|c s IH]; intros Hn; [reflexivity|].
  apply not_elem_of_cons in Hn as [Hac Hs].
  cbn [replace_from startswith].
  destruct (a =? c)%N eqn:Heq; [apply N.eqb_eq in Heq; congruence|].
  cbn [andb]. by rewrite IH.
Qed.

Lemma stable_line_facts (l : str) :
  stable_line l ->
  l <> [] /\ strip l = l /\ fix_bullet l = l /\ (NL ∉ l)
  /\ (exists t, l = HYPHEN :: t) /\ (exists t c, l = t ++ [c] /\ isspace c = false).
Proof.
  intros (Hpre & Hnl & Hbul & Htrim).
  apply (startswith_two 45 32) in Hpre as [t ->].
  split; [discriminate|]. split; [by apply strip_id|]. split; [|split; [assumption|]].
  - unfold fix_bullet.
    assert (Hp : startswith (py "- ") (45%N :: 32%N :: t) = true) by reflexivity.
    rewrite Hp. cbn [orb]. by apply replace_absent.
  - split; [by eexists|].
    destruct (exists_last (l := 45%N :: 32%N :: t) ltac:(discriminate)) as (t' & c & Ht).
    exists t', c. split; [assumption|]. by eapply (proj2 Htrim).
Qed.

Lemma join_stable_trimmed (ls : list str) :
  ls <> [] -> Forall stable_line ls -> trimmed isspace (join [NL] ls).
Proof.
  intros Hne Hall.
  assert (Hhead : exists t, join [NL] ls = HYPHEN :: t).
  { destruct ls as [|l ls]; [congruence|]. apply Forall_cons in Hall as [Hl _].
    destruct (stable_line_facts l Hl) as (_ & _ & _ & _ & [t ->] & _).
    destruct ls; [by exists t | rewrite join_cons2; simpl; eauto]. }
  assert (Hlast : exists t c, join [NL] ls = t ++ [c] /\ isspace c = false).
  { clear Hhead. induction ls as [|l ls IH]; [congruence|].
    apply Forall_cons in Hall as [Hl Hls].
    destruct ls as [|l' ls].
    - simpl. by destruct (stable_line_facts l Hl) as (_ & _ & _ & _ & _ & Hend).
    - destruct IH as (t & c & Ht & Hc); [discriminate | assumption |].
      rewrite join_cons2, Ht. exists (l ++ [NL] ++ t), c.
      split; [by rewrite <- !app_assoc | assumption]. }
  destruct Hhead as [t Ht]. destruct Hlast as (t' & c & Ht' & Hc).
  eapply trimmed_ends; eauto.
Qed.

Lemma join_two_has_sep (sep : char) (ls : list str) :
  (2 <= length ls)%nat -> contains sep (join [sep] ls) = true.
Proof.
  destruct ls as [|a [|b ls]]; simpl length; try lia. intros _.
  rewrite join_cons2. unfold contains. rewrite existsb_app. cbn [app existsb].
  rewrite N.eqb_refl. cbn [orb]. apply orb_true_r.
Qed.

(** A content of two to eight stable bullet lines is a fixed point of
    the bullet coercion. *)
Lemma bullet_text_stable (c : str) : stable_bullets c -> bullet_text c = c.
Proof.
  intros (ls & -> & [Hlo Hhi] & Hall).
  assert (Hne : ls <> []) by (destruct ls; [simpl in Hlo; lia | discriminate]).
  assert (Hfacts : Forall (fun l => l <> [] /\ strip l = l /\ fix_bullet l = l /\ (NL ∉ l))
                     ls).
  { eapply Forall_impl; [exact Hall|]. intros l Hl.
    destruct (stable_line_facts l Hl) as (H1 & H2 & H3 & H4 & _). by repeat split. }
  unfold bullet_text.
  rewrite (strip_id _ (join_stable_trimmed ls Hne Hall)).
  assert (Hnonempty : nonempty (join [NL] ls) = true).
  { destruct (join_stable_trimmed ls Hne Hall) as [_ _].
    destruct ls as [|l ls]; [congruence|]. apply Forall_cons in Hall as [Hl _].
    destruct (stable_line_facts l Hl) as (_ & _ & _ & _ & [t ->] & _).
    destruct ls; [reflexivity | by rewrite join_cons2]. }
  rewrite Hnonempty, (join_two_has_sep NL ls Hlo). cbn [negb].
  unfold prefixed_lines. rewrite split_on_join; [|assumption|].
  2:{ eapply Forall_impl; [exact Hfacts|]. by intros l (_ & _ & _ & H). }
  assert (Hstrip : List.map strip ls = ls).
  { clear -Hfacts. induction Hfacts as [|l ls (_ & H & _) _ IH]; [reflexivity|].
    simpl. by rewrite H, IH. }
  assert (Hfilter : List.filter nonempty ls = ls).
  { clear -Hfacts. induction Hfacts as [|l ls (H & _) _ IH]; [reflexivity|].
    simpl. destruct l; [congruence|]. simpl. by rewrite IH. }
  assert (Hfix : List.map fix_bullet ls = ls).
  { clear -Hfacts. induction Hfacts as [|l ls (_ & _ & H & _) _ IH]; [reflexivity|].
    simpl. by rewrite H, IH. }
  by rewrite Hstrip, Hfilter, take_ge, Hfix by lia.
Qed.

Lemma coerce_bullets_stable (s : SlideSpec) :
  (type s = process \/ type s = summary -> stable_bullets (content s)) ->
  coerce_bullets s = s.
Proof.
  intros Hs. unfold coerce_bullets.
  destruct (type s) eqn:Ht; try reflexivity;
    (rewrite bullet_text_stable by (apply Hs; auto));
    destruct s; simpl in *; by subst.
Qed.

(** X12. A deck that pydantic accepts, with a non-empty title, exactly
    [slide_count] slides, an intro slide first, a summary slide last, a
    flow slide with a diagram, and in every process or summary slide
    two to eight lines that each start with hyphen and space, have no
    bullet character and no white space at either end, is returned
    unchanged by [normalize_presentation_spec]. *)
Theorem normalize_stable_deck (d : PresentationSpec) (topic : str) (slide_count : Z) :
  stable_deck slide_count d ->
  normalize_presentation_spec (Some d) topic slide_count = Ok d.
Proof.
  intros (Hwf & Htitle & Hshape & Hcontent).
  apply andb_true_iff in Hwf as [Hne Hvalid].
  apply andb_true_iff in Hshape as [Hshape Hflow].
  apply andb_true_iff in Hshape as [Hshape Hlast].
  apply andb_true_iff in Hshape as [Hcount Hfirst].
  apply Z.eqb_eq in Hcount.
  unfold normalize_presentation_spec. rewrite Hne. cbn [negb].
  assert (Hcountl : enforce_count topic slide_count (slides d) = slides d).
  { unfold enforce_count, while_shorter. rewrite <- Hcount, Z.ltb_irrefl, Z.sub_diag.
    reflexivity. }
  rewrite Hcountl.
  assert (Hintro : force_intro (slides d) = Ok (slides d)).
  { unfold first_is_intro in Hfirst. unfold force_intro.
    destruct (slides d) as [|s rest]; [discriminate|]. simpl in Hfirst.
    apply bool_decide_eq_true in Hfirst.
    destruct (decide (type s <> intro)); [contradiction | reflexivity]. }
  rewrite Hintro. cbn [bind].
  assert (Hsummary : force_summary (slides d) = Ok (slides d)).
  { unfold last_is_summary in Hlast. unfold force_summary.
    destruct (last (slides d)) as [s|]; [|discriminate].
    apply bool_decide_eq_true in Hlast.
    destruct (decide (type s <> summary)); [contradiction | reflexivity]. }
  rewrite Hsummary. cbn [bind].
  assert (Hcoerce : List.map coerce_bullets (slides d) = slides d).
  { clear -Hcontent. induction Hcontent as [|s l Hs _ IH]; [reflexivity|].
    simpl. by rewrite (coerce_bullets_stable s Hs), IH. }
  rewrite Hcoerce.
  assert (Hflow' : ensure_flow (slides d) = Ok (slides d)).
  { unfold ensure_flow. unfold has_flow_diagram in Hflow.
    change (existsb is_flow_with_diagram (slides d)) with
      (existsb (fun s => bool_decide (type s = flow) && bool_decide (diagram s <> None))
         (slides d)).
    by rewrite Hflow. }
  rewrite Hflow'. cbn [bind].
  assert (Hrec : {| deck_title := if nonempty (deck_title d) then deck_title d else topic;
                    slides := slides d |} = d).
  { destruct d as [t sl]. cbn [deck_title slides] in *.
    destruct t; [congruence | reflexivity]. }
  rewrite Hrec. unfold model_validate. by rewrite Hne, Hvalid.
Qed.

Lemma settled_deck_stable : stable_deck 4 settled_deck.
Proof.
  split; [reflexivity|]. split; [discriminate|]. split; [reflexivity|].
  assert (Hline : forall l a b m m',
             startswith (py "- ") l = true -> NL ∉ l -> BULLET ∉ l ->
             l = a :: m -> l = m' ++ [b] -> isspace a = false -> isspace b = false ->
             stable_line l).
  { intros l a b m m' H1 H2 H3 H4 H5 H6 H7. split; [assumption|].
    split; [assumption|]. split; [assumption|]. eapply trimmed_ends; eauto. }
  repeat constructor; intros [Ht|Ht]; try discriminate Ht.
  - exists [py "- Collect"; py "- Sort"]. split; [reflexivity|]. split; [simpl; lia|].
    apply Forall_cons; split; [|apply Forall_cons; split; [|apply Forall_nil_2]].
    + apply (Hline _ 45%N 116%N (py " Collect") (py "- Collec")); try reflexivity;
        apply (bool_decide_unpack _); vm_compute; exact I.
    + apply (Hline _ 45%N 116%N (py " Sort") (py "- Sor")); try reflexivity;
        apply (bool_decide_unpack _); vm_compute; exact I.
  - exists [py "- First"; py "- Second"]. split; [reflexivity|]. split; [simpl; lia|].
    apply Forall_cons; split; [|apply Forall_cons; split; [|apply Forall_nil_2]].
    + apply (Hline _ 45%N 116%N (py " First") (py "- Firs")); try reflexivity;
        apply (bool_decide_unpack _); vm_compute; exact I.
    + apply (Hline _ 45%N 100%N (py " Second") (py "- Secon")); try reflexivity;
        apply (bool_decide_unpack _); vm_compute; exact I.
Defined.

Lemma normalize_stable_deck_witness :
  normalize_presentation_spec (Some settled_deck) (py "Topic") 4 = Ok settled_deck.
Proof. apply normalize_stable_deck, settled_deck_stable. Defined.

End StableDecks.

(** * What normalisation keeps of a slide *)

Section MediaKept.

Lemma insert_media (l : list SlideSpec) (i : nat) (s s' : SlideSpec) :
  l !! i = Some s -> media s' = media s -> media <$> <[i := s']> l = media <$> l.
Proof.
  intros Hs Hm. rewrite list_fmap_insert, Hm. apply list_insert_id.
  by rewrite list_lookup_fmap, Hs.
Qed.

Lemma force_intro_media (l l' : list SlideSpec) :
  force_intro l = Ok l' -> media <$> l' = media <$> l.
Proof.
  unfold force_intro. destruct l as [|s rest]; [discriminate|].
  destruct (decide (type s <> intro)); intros [= <-]; reflexivity.
Qed.

Lemma force_summary_media (l l' : list SlideSpec) :
  force_summary l = Ok l' -> media <$> l' = media <$> l.
Proof.
  unfold force_summary. destruct (last l) as [s|] eqn:Hlast; [|discriminate].
  destruct (decide (type s <> summary)); intros [= <-]; [|reflexivity].
  rewrite last_lookup in Hlast. by eapply insert_media.
Qed.

Lemma coerce_bullets_media (l : list SlideSpec) :
  media <$> List.map coerce_bullets l = media <$> l.
Proof.
  induction l as [|s l IH]; [reflexivity|]. cbn [List.map fmap list_fmap] in *.
  f_equal; [|exact IH]. unfold coerce_bullets. by destruct (type s).
Qed.

Lemma ensure_flow_media (l l' : list SlideSpec) :
  ensure_flow l = Ok l' -> media <$> l' = media <$> l.
Proof.
  unfold ensure_flow. destruct (existsb is_flow_with_diagram l); [by intros [= <-]|].
  destruct (l !! _) as [s|] eqn:Hs; [|discriminate].
  intros [= <-]. by eapply insert_media.
Qed.

(** X13. For a deck that pydantic accepts and a slide count of at least
    2, [normalize_presentation_spec] returns a deck in which every slide
    taken over from the input has the keywords, image query, image alt
    text, image subject, setting and style, layout preference and
    emphasis it had, whatever happened to its type, title, content and
    diagram; a slide added to reach the count has those of the padding
    slide: the keywords topic, steps, process, overview and nothing
    else. *)
Theorem normalize_keeps_media (spec : PresentationSpec) (topic : str) (slide_count : Z) :
  well_formed spec = true -> 2 <= slide_count ->
  exists d,
    normalize_presentation_spec (Some spec) topic slide_count = Ok d /\
    forall i, (i < Z.to_nat slide_count)%nat ->
      exists s', slides d !! i = Some s' /\
        match slides spec !! i with
        | Some s => same_media s s'
        | None => same_media (pad_slide topic i) s'
        end.
Proof.
  intros Hwf Hn.
  apply andb_true_iff in Hwf as [Hne Hvalid].
  assert (Hv : valid_slides (slides spec)).
  { apply Forall_forall. intros s Hs.
    apply (proj1 (forallb_forall _ _) Hvalid), list_elem_of_In, Hs. }
  destruct (normalize_stages topic slide_count (slides spec) Hn)
    as (l1 & l2 & l3 & Hi & Hs & Hf & Hlen & _ & _ & Hv3 & _).
  exists {| deck_title := if nonempty (deck_title spec) then deck_title spec else topic;
            slides := l3 |}.
  split.
  - unfold normalize_presentation_spec. rewrite Hne. cbn [negb].
    rewrite Hi. cbn [bind]. rewrite Hs. cbn [bind]. rewrite Hf. cbn [bind].
    rewrite model_validate_ok; [reflexivity | | by apply Hv3].
    cbn [slides]. intros Hnil. rewrite Hnil in Hlen. simpl in Hlen. lia.
  - intros i Hlt. cbn [slides].
    assert (Hmedia : media <$> l3 = media <$> enforce_count topic slide_count (slides spec)).
    { rewrite (ensure_flow_media _ _ Hf), coerce_bullets_media,
        (force_summary_media _ _ Hs). by apply force_intro_media. }
    destruct (lookup_lt_is_Some_2 l3 i ltac:(lia)) as [s' Hs'].
    exists s'. split; [assumption|].
    apply (f_equal (fun l => l !! i)) in Hmedia.
    rewrite !list_lookup_fmap, Hs', (enforce_count_lookup _ _ _ _ Hlt) in Hmedia.
    assert (Hsame : media s' = media (default (pad_slide topic i) (slides spec !! i)))
      by (by apply (inj Some)).
    unfold same_media. destruct (slides spec !! i); exact Hsame.
Qed.

Lemma normalize_keeps_media_witness :
  exists d,
    normalize_presentation_spec (Some drifted_deck) (py "Topic") 5 = Ok d /\
    forall i, (i < 5)%nat ->
      exists s', slides d !! i = Some s' /\
        match slides drifted_deck !! i with
        | Some s => same_media s s'
        | None => same_media (pad_slide (py "Topic") i) s'
        end.
Proof. apply (normalize_keeps_media drifted_deck (py "Topic") 5); [reflexivity | lia]. Defined.

End MediaKept.

(** * Colours as hexadecimal strings *)

Section RgbHex.
Import SvgColors.

Lemma format_02x_digits (v : Z) :
  0 <= v <= 255 ->
  exists a b,
    format_02x v = [a; b] /\ 0 <= hex_value a /\ 0 <= hex_value b
    /\ 16 * hex_value a + hex_value b = v.
Proof.
  intros Hv.
  assert (Hall : forallb
            (fun k => match format_02x (Z.of_nat k) with
                      | [a; b] => (0 <=? hex_value a) && (0 <=? hex_value b)
                                  && (16 * hex_value a + hex_value b =? Z.of_nat k)
                      | _ => false
                      end) (seq 0 256) = true) by (vm_compute; reflexivity).
  rewrite forallb_forall in Hall.
  specialize (Hall (Z.to_nat v) ltac:(apply in_seq; lia)).
  rewrite Z2Nat.id in Hall by lia.
  destruct (format_02x v) as [|a [|b [|c t]]]; try discriminate Hall.
  apply andb_true_iff in Hall as [Hall H3]. apply andb_true_iff in Hall as [H1 H2].
  exists a, b. repeat split; [by apply Z.leb_le | by apply Z.leb_le | by apply Z.eqb_eq].
Qed.

(** X14. For components between 0 and 255 [_rgb_to_hex] returns a hash
    sign and six lowercase hexadecimal digits, two for each component
    in the order red, green, blue, from which the components are read
    back: the string has 7 characters and different colours give
    different strings. *)
Theorem rgb_to_hex_round_trip (r g b : Z) :
  0 <= r <= 255 -> 0 <= g <= 255 -> 0 <= b <= 255 ->
  len (_rgb_to_hex (r, g, b)) = 7 /\
  decode_rgb (_rgb_to_hex (r, g, b)) = Some (r, g, b).
Proof.
  intros Hr Hg Hb.
  destruct (format_02x_digits r Hr) as (r1 & r2 & Er & Hr1 & Hr2 & Hrv).
  destruct (format_02x_digits g Hg) as (g1 & g2 & Eg & Hg1 & Hg2 & Hgv).
  destruct (format_02x_digits b Hb) as (b1 & b2 & Eb & Hb1 & Hb2 & Hbv).
  unfold _rgb_to_hex. rewrite Er, Eg, Eb.
  change (py "#") with [35%N]. cbn [app].
  split; [reflexivity|].
  unfold decode_rgb. cbn [forallb].
  rewrite N.eqb_refl.
  rewrite !(proj2 (Z.leb_le _ _)) by assumption. cbn [andb].
  by rewrite Hrv, Hgv, Hbv.
Qed.

Lemma rgb_to_hex_round_trip_witness :
  _rgb_to_hex (79, 129, 189) = py "#4f81bd" /\
  len (_rgb_to_hex (79, 129, 189)) = 7 /\
  decode_rgb (_rgb_to_hex (79, 129, 189)) = Some (79, 129, 189).
Proof.
  split; [vm_compute; reflexivity|].
  apply (rgb_to_hex_round_trip 79 129 189); lia.
Defined.

End RgbHex.

(** * The synthetic deck in closed form *)

Section MockDeck.

Lemma append_steps_seq {A : Type} (mk : nat -> A) (k : nat) :
  forall l, append_steps k mk l = l ++ (mk <$> seq (length l) k).
Proof.
  induction k as [|k IH]; intros l; cbn [append_steps seq fmap list_fmap].
  - by rewrite app_nil_r.
  - rewrite IH, length_app, <- app_assoc. cbn [length app].
    by replace (length l + 1)%nat with (S (length l)) by lia.
Qed.

(** X15. The deck of [mock_presentation]. From 4 slides on it is the
    three opening slides (intro, Core Components, the flow slide), then
    the filler slides titled Step 3, Step 4, ... up to Step
    [slide_count - 2], then the summary slide. For a slide count from 0
    to 3 it is the first [slide_count] opening slides, and for a
    negative count the opening slides without the last
    [- slide_count - 1] of them: below 4 the summary slide is always
    cut off. *)
Theorem mock_presentation_closed_form (topic : str) (slide_count : Z) :
  (4 <= slide_count ->
   slides (mock_presentation topic slide_count)
   = mock_opening topic ++ (mock_step <$> seq 3 (Z.to_nat (slide_count - 4)))
     ++ [mock_closing]) /\
  (0 <= slide_count <= 3 ->
   slides (mock_presentation topic slide_count)
   = take (Z.to_nat slide_count) (mock_opening topic)) /\
  (slide_count < 0 ->
   slides (mock_presentation topic slide_count)
   = take (Z.to_nat (4 + slide_count)) (mock_opening topic)).
Proof.
  unfold mock_presentation. cbn [slides]. unfold while_shorter, slice_to.
  rewrite append_steps_seq.
  change (len (mock_opening topic)) with 3.
  change (length (mock_opening topic)) with 3%nat.
  split; [|split]; intros Hn.
  - destruct (slide_count <? 0) eqn:Hneg; [apply Z.ltb_lt in Hneg; lia|].
    replace (Z.max (slide_count - 1) 3 - 3) with (slide_count - 4) by lia.
    rewrite <- app_assoc. apply take_ge.
    rewrite !length_app, length_fmap, length_seq. simpl. lia.
  - destruct (slide_count <? 0) eqn:Hneg; [apply Z.ltb_lt in Hneg; lia|].
    replace (Z.max (slide_count - 1) 3 - 3) with 0 by lia.
    cbn [Z.to_nat seq fmap list_fmap]. rewrite app_nil_r.
    apply take_app_le. simpl. lia.
  - destruct (slide_count <? 0) eqn:Hneg; [|apply Z.ltb_ge in Hneg; lia].
    replace (Z.max (slide_count - 1) 3 - 3) with 0 by lia.
    cbn [Z.to_nat seq fmap list_fmap]. rewrite app_nil_r.
    unfold len. rewrite length_app.
    change (length (mock_opening topic)) with 3%nat. cbn [length].
    replace (Z.to_nat (Z.max 0 (Z.of_nat (3 + 1) + slide_count)))
      with (Z.to_nat (4 + slide_count)) by lia.
    apply take_app_le. simpl. lia.
Qed.

Lemma mock_presentation_closed_form_witness :
  slides (mock_presentation (py "Topic") 6)
  = mock_opening (py "Topic") ++ [mock_step 3; mock_step 4] ++ [mock_closing] /\
  slides (mock_presentation (py "Topic") 3) = mock_opening (py "Topic") /\
  slides (mock_presentation (py "Topic") (-2)) = take 2 (mock_opening (py "Topic")).
Proof.
  split; [|split].
  - apply (proj1 (mock_presentation_closed_form (py "Topic") 6)). lia.
  - apply (proj1 (proj2 (mock_presentation_closed_form (py "Topic") 3))). lia.
  - apply (proj2 (proj2 (mock_presentation_closed_form (py "Topic") (-2)))). lia.
Defined.

End MockDeck.
